(** * gallery-dl: the DeviantArt extractor

    A shallow embedding of [gallery_dl/extractor/deviantart.py] and the
    properties of its API client (token cache, retrying call, pagination)
    and of its record pipeline ([items], [prepare], [commit]).

    Python values are JSON trees; the dictionaries the code mutates in
    place and hands out more than once (a deviation, the collection
    descriptor) live in a heap and are referred to by location.  Code with
    effects runs in a state-and-exception monad over a [world] holding the
    heap, the clock, the token cache, the HTTP session and the log. *)

From Stdlib Require Import ZArith Ascii String List Lia Bool.
From stdpp Require Import base option list gmap strings fin_maps.

Set Warnings "-register-all".
Local Open Scope string_scope.
Local Open Scope Z_scope.
Local Open Scope list_scope.

(** ** Python values *)

Definition loc := nat.

(** What [json()] of a response can hold (floating point numbers are left
    out), plus a reference to a heap dictionary. *)
Inductive value : Type :=
  | VNone
  | VBool (b : bool)
  | VInt (n : Z)
  | VStr (s : string)
  | VList (l : list value)
  | VDict (m : gmap string value)
  | VRef (r : loc).

Inductive exn : Type :=
  | KeyError (k : string)
  | IndexError
  | TypeError
  | ValueError
  | AttributeError
  | ReError
  | AuthenticationError
  | NotFoundError (what : string)
  | FatalError (detail : string)
  (** not an exception of the program: a loop of the model was cut before
      it ended *)
  | OutOfFuel
  (** not an exception of the program: the model does not tell what the
      program does *)
  | Unmodelled.

Inductive result (A : Type) : Type :=
  | Ok (a : A)
  | Raise (e : exn).
Arguments Ok {A} a.
Arguments Raise {A} e.

Definition rbind {A B} (r : result A) (k : A -> result B) : result B :=
  match r with Ok a => k a | Raise e => Raise e end.

(** [bool] is a subclass of [int] in Python: [True == 1]. *)
Definition num_of (v : value) : option Z :=
  match v with
  | VBool b => Some (if b then 1 else 0)
  | VInt n => Some n
  | _ => None
  end.

(** [a == b].  Dictionaries are equal when they have the same keys with
    equal values, whatever the order of insertion; two references are
    compared by location. *)
Fixpoint py_eq (a b : value) {struct a} : bool :=
  match a, b with
  | VNone, VNone => true
  | VStr s, VStr t => bool_decide (s = t)
  | VList l, VList k =>
      (fix go (l k : list value) : bool :=
         match l, k with
         | [], [] => true
         | x :: l', y :: k' => py_eq x y && go l' k'
         | _, _ => false
         end) l k
  | VDict m, VDict k =>
      bool_decide (dom m = dom k) &&
      map_fold (fun key x acc =>
                  acc && match k !! key with
                         | Some y => py_eq x y
                         | None => false
                         end) true m
  | VRef r, VRef s => bool_decide (r = s)
  | (VBool _ | VInt _), (VBool _ | VInt _) => bool_decide (num_of a = num_of b)
  | _, _ => false
  end.

(** Truth value of an object, as [not x] and [if x] test it. *)
Definition py_truthy (v : value) : bool :=
  match v with
  | VNone => false
  | VBool b => b
  | VInt n => negb (n =? 0)
  | VStr s => negb (bool_decide (s = ""))
  | VList l => match l with [] => false | _ => true end
  | VDict m => negb (bool_decide (m = ∅))
  | VRef _ => true
  end.

(** ** Strings *)

Definition hyphen : ascii := "-"%char.
Definition dot : ascii := "."%char.
Definition newline : ascii := "010"%char.
Definition dquote : ascii := "034"%char.

Definition is_digit (c : ascii) : bool :=
  let n := nat_of_ascii c in (48 <=? n)%nat && (n <=? 57)%nat.

Definition digit_val (c : ascii) : Z := Z.of_nat (nat_of_ascii c) - 48.

Fixpoint all_chars (p : ascii -> bool) (s : string) : bool :=
  match s with
  | EmptyString => true
  | String c r => p c && all_chars p r
  end.

Fixpoint has_char (x : ascii) (s : string) : bool :=
  match s with
  | EmptyString => false
  | String c r => bool_decide (c = x) || has_char x r
  end.

(** [s.rsplit(sep, 1)], for a separator of one character: the text before
    the last separator and the text after it, or [None] when [s] has no
    separator (Python then returns the one-element list [[s]]). *)
Fixpoint rsplit1 (sep : ascii) (s : string) : option (string * string) :=
  match s with
  | EmptyString => None
  | String c r =>
      match rsplit1 sep r with
      | Some (a, b) => Some (String c a, b)
      | None => if bool_decide (c = sep) then Some (EmptyString, r) else None
      end
  end.

Definition rsplit (sep : ascii) (s : string) : list string :=
  match rsplit1 sep s with
  | Some (a, b) => [a; b]
  | None => [s]
  end.

(** [s[:-1]] *)
Fixpoint drop_last (s : string) : string :=
  match s with
  | EmptyString => EmptyString
  | String c EmptyString => EmptyString
  | String c r => String c (drop_last r)
  end.

(** [s.replace(a, b)] for single characters. *)
Fixpoint replace_char (a b : ascii) (s : string) : string :=
  match s with
  | EmptyString => EmptyString
  | String c r => String (if bool_decide (c = a) then b else c) (replace_char a b r)
  end.

(** [sub in s] *)
Fixpoint is_substring (sub s : string) : bool :=
  String.prefix sub s ||
  match s with
  | EmptyString => false
  | String _ r => is_substring sub r
  end.

(** *** [int(s)]

    Python accepts surrounding whitespace, one sign, and decimal digits
    in which single underscores may separate digits.  A character of a
    string stands for the code point of its number.  The whitespace
    [int] accepts among the first 256 code points is the one of ASCII
    (tab to carriage return, and the space) and the code points 133 and
    160; the separators 28 to 31 are rejected. *)
Definition is_space (c : ascii) : bool :=
  let n := nat_of_ascii c in
  ((9 <=? n)%nat && (n <=? 13)%nat) || (n =? 32)%nat
  || (n =? 133)%nat || (n =? 160)%nat.

Fixpoint lstrip (s : string) : string :=
  match s with
  | String c r => if is_space c then lstrip r else s
  | EmptyString => EmptyString
  end.

Fixpoint rstrip (s : string) : string :=
  match s with
  | EmptyString => EmptyString
  | String c r =>
      match rstrip r with
      | EmptyString => if is_space c then EmptyString else String c EmptyString
      | r' => String c r'
      end
  end.

(** Digits after the first one; [us] tells that the last character read
    was an underscore, which a digit must follow. *)
Fixpoint int_digits (acc : Z) (us : bool) (s : string) : option Z :=
  match s with
  | EmptyString => if us then None else Some acc
  | String c r =>
      if is_digit c then int_digits (10 * acc + digit_val c) false r
      else if bool_decide (c = "_"%char) && negb us then int_digits acc true r
      else None
  end.

Definition int_unsigned (s : string) : option Z :=
  match s with
  | String c r => if is_digit c then int_digits (digit_val c) false r else None
  | EmptyString => None
  end.

Definition int_of_string (s : string) : option Z :=
  match lstrip (rstrip s) with
  | String "-"%char r => Z.opp <$> int_unsigned r
  | String "+"%char r => int_unsigned r
  | t => int_unsigned t
  end.

(** The value of a string of decimal digits. *)
Definition decimal (s : string) : Z :=
  (fix go (acc : Z) (s : string) : Z :=
     match s with
     | EmptyString => acc
     | String c r => go (10 * acc + digit_val c) r
     end) 0 s.

(** ** Operations on values *)

(** [v[k]] for a string key. *)
Definition py_getitem (v : value) (k : string) : result value :=
  match v with
  | VDict m => match m !! k with Some x => Ok x | None => Raise (KeyError k) end
  | _ => Raise TypeError
  end.

(** [k in v] for a string [k]: a key of a dictionary, an element of a
    list, a substring of a string. *)
Definition py_contains (k : string) (v : value) : result bool :=
  match v with
  | VDict m => Ok (bool_decide (is_Some (m !! k)))
  | VList l => Ok (existsb (py_eq (VStr k)) l)
  | VStr s => Ok (is_substring k s)
  | _ => Raise TypeError
  end.

(** The elements [max(v, key=...)] goes through.  The keys of a
    dictionary are given in the order of the map, which is not the order
    Python keeps; the selection of a video does not depend on it
    ([select_video_of_dict]). *)
Definition py_iter (v : value) : result (list value) :=
  match v with
  | VList l => Ok l
  | VStr s => Ok ((fun c => VStr (String c EmptyString)) <$> list_ascii_of_string s)
  | VDict m => Ok ((fun kv => VStr kv.1) <$> map_to_list m)
  | _ => Raise TypeError
  end.

(** The elements [yield from v] gives, in their order.  The keys of a
    JSON object come in the order of its text, which the map does not
    keep: for an object with two keys or more the model does not tell. *)
Definition py_yield_from (v : value) : result (list value) :=
  match v with
  | VDict m =>
      match map_to_list m with
      | [] => Ok []
      | [(k, _)] => Ok [VStr k]
      | _ => Raise Unmodelled
      end
  | _ => py_iter v
  end.

(** [int(v[:-1])] *)
Definition int_drop_last (v : value) : result Z :=
  match v with
  | VStr s =>
      match int_of_string (drop_last s) with
      | Some n => Ok n
      | None => Raise ValueError
      end
  | _ => Raise TypeError
  end.

(** [max(l, key=key)]: the keys are computed from left to right, the first
    exception ends the call, and of several largest elements the first one
    is returned. *)
Fixpoint max_from {A} (key : A -> result Z) (best : A) (kbest : Z) (l : list A)
  : result A :=
  match l with
  | [] => Ok best
  | x :: l' =>
      match key x with
      | Ok kx => if kbest <? kx then max_from key x kx l' else max_from key best kbest l'
      | Raise e => Raise e
      end
  end.

Definition py_max {A} (key : A -> result Z) (l : list A) : result A :=
  match l with
  | [] => Raise ValueError
  | x :: l' =>
      match key x with
      | Ok kx => max_from key x kx l'
      | Raise e => Raise e
      end
  end.

(** ** The world *)

Record response : Type := {
  status_code : Z;
  text : string;
  (** [json()]; [None] when the body does not parse ([ValueError]). *)
  json : option value
}.

(** The remote side: the answer to the [n]-th GET, given its URL and query
    parameters, and to the [n]-th POST to the token endpoint. *)
Record server : Type := {
  on_get : nat -> string -> option (gmap string value) -> response;
  on_post : nat -> gmap string value -> response
}.

Inductive log_entry : Type :=
  | LogRateLimit (delay : Z)
  | LogHttpStatus (code tries : Z)
  | LogSkippingJournal
  | LogUnexpectedResponse (data : value).

Inductive message : Type :=
  | Version (n : Z)
  | Directory (rec : loc)
  | Url (url : value) (rec : loc).

Record world : Type := {
  heap : list value;
  now : Z;
  token_cache : gmap string (string * Z);
  headers : gmap string string;
  delay : Z;
  gets : nat;
  posts : nat;
  srv : server;
  log : list log_entry;
  emitted : list message
}.

Definition with_heap (h : list value) (w : world) : world :=
  {| heap := h; now := now w; token_cache := token_cache w; headers := headers w;
     delay := delay w; gets := gets w; posts := posts w; srv := srv w;
     log := log w; emitted := emitted w |}.

Definition with_now (t : Z) (w : world) : world :=
  {| heap := heap w; now := t; token_cache := token_cache w; headers := headers w;
     delay := delay w; gets := gets w; posts := posts w; srv := srv w;
     log := log w; emitted := emitted w |}.

Definition with_token_cache (c : gmap string (string * Z)) (w : world) : world :=
  {| heap := heap w; now := now w; token_cache := c; headers := headers w;
     delay := delay w; gets := gets w; posts := posts w; srv := srv w;
     log := log w; emitted := emitted w |}.

Definition with_headers (h : gmap string string) (w : world) : world :=
  {| heap := heap w; now := now w; token_cache := token_cache w; headers := h;
     delay := delay w; gets := gets w; posts := posts w; srv := srv w;
     log := log w; emitted := emitted w |}.

Definition with_delay (d : Z) (w : world) : world :=
  {| heap := heap w; now := now w; token_cache := token_cache w; headers := headers w;
     delay := d; gets := gets w; posts := posts w; srv := srv w;
     log := log w; emitted := emitted w |}.

Definition with_gets (n : nat) (w : world) : world :=
  {| heap := heap w; now := now w; token_cache := token_cache w; headers := headers w;
     delay := delay w; gets := n; posts := posts w; srv := srv w;
     log := log w; emitted := emitted w |}.

Definition with_posts (n : nat) (w : world) : world :=
  {| heap := heap w; now := now w; token_cache := token_cache w; headers := headers w;
     delay := delay w; gets := gets w; posts := n; srv := srv w;
     log := log w; emitted := emitted w |}.

Definition with_log (l : list log_entry) (w : world) : world :=
  {| heap := heap w; now := now w; token_cache := token_cache w; headers := headers w;
     delay := delay w; gets := gets w; posts := posts w; srv := srv w;
     log := l; emitted := emitted w |}.

Definition with_emitted (l : list message) (w : world) : world :=
  {| heap := heap w; now := now w; token_cache := token_cache w; headers := headers w;
     delay := delay w; gets := gets w; posts := posts w; srv := srv w;
     log := log w; emitted := l |}.

(** ** The monad: state and exceptions

    A raised exception keeps the world as it was when it was raised: what
    was mutated, requested, logged and yielded before stays so. *)

Definition M (A : Type) : Type := world -> result A * world.

Definition ret {A} (a : A) : M A := fun w => (Ok a, w).

Definition raise {A} (e : exn) : M A := fun w => (Raise e, w).

Definition bind {A B} (m : M A) (k : A -> M B) : M B :=
  fun w => match m w with
           | (Ok a, w') => k a w'
           | (Raise e, w') => (Raise e, w')
           end.

Definition lift {A} (r : result A) : M A := fun w => (r, w).

Definition get_world : M world := fun w => (Ok w, w).

Definition modify (f : world -> world) : M unit := fun w => (Ok tt, f w).

Declare Scope py_scope.
Delimit Scope py_scope with py.
Notation "'let*' x ':=' m 'in' k" := (bind m (fun x => k))
  (at level 10, x pattern, m at level 100, k at level 200) : py_scope.
Notation "m ';;' k" := (bind m (fun _ => k))
  (at level 100, k at level 200, right associativity) : py_scope.
Local Open Scope py_scope.

(** [yield m] *)
Definition yield (m : message) : M unit :=
  modify (fun w => with_emitted (emitted w ++ [m]) w).

Definition log_add (e : log_entry) : M unit :=
  modify (fun w => with_log (log w ++ [e]) w).

(** *** Heap objects *)

(** The object at a location (a location that was never allocated reads
    as [None]; every location the program uses comes from [alloc]). *)
Definition obj (w : world) (r : loc) : value := default VNone (heap w !! r).

Definition alloc (v : value) : M loc :=
  fun w => (Ok (length (heap w)), with_heap (heap w ++ [v]) w).

Definition update (r : loc) (v : value) (w : world) : world :=
  with_heap (<[r := v]> (heap w)) w.

Definition store (r : loc) (v : value) : M unit := modify (update r v).

(** [o[k]] *)
Definition getitem (r : loc) (k : string) : M value :=
  fun w => (py_getitem (obj w r) k, w).

(** [k in o] *)
Definition contains (k : string) (r : loc) : M bool :=
  fun w => (py_contains k (obj w r), w).

(** [o[k] = v] *)
Definition setitem (r : loc) (k : string) (v : value) : M unit :=
  fun w => match obj w r with
           | VDict m => store r (VDict (<[k := v]> m)) w
           | _ => (Raise TypeError, w)
           end.

(** [del o[k]] *)
Definition delitem (r : loc) (k : string) : M unit :=
  fun w => match obj w r with
           | VDict m =>
               match m !! k with
               | Some _ => store r (VDict (delete k m)) w
               | None => (Raise (KeyError k), w)
               end
           | _ => (Raise TypeError, w)
           end.

(** [try: m  except KeyError: h] *)
Definition except_KeyError {A} (m : M A) (h : M A) : M A :=
  fun w => match m w with
           | (Raise (KeyError _), w') => h w'
           | r => r
           end.

(** [for x in l: body x] over a tuple or a list. *)
Fixpoint for_each {A} (l : list A) (body : A -> M unit) : M unit :=
  match l with
  | [] => ret tt
  | x :: l' => body x ;; for_each l' body
  end.

(** [prefix + v] *)
Definition str_add (prefix : string) (v : value) : result string :=
  match v with
  | VStr s => Ok (prefix +:+ s)
  | _ => Raise TypeError
  end.

(** ** The journal template *)

Definition nl : string := String newline EmptyString.
Definition dq : string := String dquote EmptyString.

Definition journal_head : string :=
  "text://<!DOCTYPE html>" +:+ nl +:+ "<html>" +:+ nl +:+ "<head>" +:+ nl +:+
  "    <meta charset=" +:+ dq +:+ "utf-8" +:+ dq +:+ ">" +:+ nl +:+
  "    <title>".

Definition journal_mid : string :=
  "</title>" +:+ nl +:+ "    <link rel=" +:+ dq +:+ "stylesheet" +:+ dq +:+
  " href=" +:+ dq +:+
  "http://st.deviantart.net/css/deviantart-network_lc.css?3843780832" +:+
  dq +:+ ">" +:+ nl +:+ "    <link rel=" +:+ dq +:+ "stylesheet" +:+ dq +:+
  " href=" +:+ dq +:+
  "http://st.deviantart.net/css/group_secrets_lc.css?3250492874" +:+ dq +:+
  ">" +:+ nl +:+ "    <link rel=" +:+ dq +:+ "stylesheet" +:+ dq +:+
  " href=" +:+ dq +:+
  "http://st.deviantart.net/css/v6core_lc.css?4246581581" +:+ dq +:+ ">" +:+
  nl +:+ "    <link rel=" +:+ dq +:+ "stylesheet" +:+ dq +:+ " href=" +:+
  dq +:+ "http://st.deviantart.net/css/sidebar_lc.css?1490570941" +:+ dq +:+
  ">" +:+ nl +:+ "    <link rel=" +:+ dq +:+ "stylesheet" +:+ dq +:+
  " href=" +:+ dq +:+
  "http://st.deviantart.net/css/writer_lc.css?3090682151" +:+ dq +:+ ">" +:+
  nl +:+ "    <link rel=" +:+ dq +:+ "stylesheet" +:+ dq +:+ " href=" +:+
  dq +:+ "http://st.deviantart.net/css/v6loggedin_lc.css?3001430805" +:+
  dq +:+ ">" +:+ nl +:+ "    <style>".

Definition journal_pre : string :=
  "</style>" +:+ nl +:+ "    <link rel=" +:+ dq +:+ "stylesheet" +:+ dq +:+
  " href=" +:+ dq +:+
  "http://st.deviantart.net/roses/cssmin/core.css?1488405371919" +:+ dq +:+
  " >" +:+ nl +:+ "    <link rel=" +:+ dq +:+ "stylesheet" +:+ dq +:+
  " href=" +:+ dq +:+
  "http://st.deviantart.net/roses/cssmin/peeky.css?1487067424177" +:+ dq +:+
  " >" +:+ nl +:+ "    <link rel=" +:+ dq +:+ "stylesheet" +:+ dq +:+
  " href=" +:+ dq +:+
  "http://st.deviantart.net/roses/cssmin/desktop.css?1491362542749" +:+
  dq +:+ " >" +:+ nl +:+ "</head>" +:+ nl +:+ "<body id=" +:+ dq +:+
  "deviantART-v7" +:+ dq +:+ " class=" +:+ dq +:+
  "bubble no-apps loggedout w960 deviantart" +:+ dq +:+ ">" +:+ nl +:+
  "    <div id=" +:+ dq +:+ "output" +:+ dq +:+ ">" +:+ nl +:+
  "    <div class=" +:+ dq +:+ "dev-page-container bubbleview" +:+ dq +:+
  ">" +:+ nl +:+ "    <div class=" +:+ dq +:+
  "dev-page-view view-mode-normal" +:+ dq +:+ ">" +:+ nl +:+
  "    <div class=" +:+ dq +:+ "dev-view-main-content" +:+ dq +:+ ">" +:+
  nl +:+ "    <div class=" +:+ dq +:+ "dev-view-deviation" +:+ dq +:+ ">" +:+
  nl +:+ "    <div class=" +:+ dq +:+ "journal-wrapper tt-a" +:+ dq +:+
  ">" +:+ nl +:+ "    <div class=" +:+ dq +:+ "journal-wrapper2" +:+ dq +:+
  ">" +:+ nl +:+ "    <div class=" +:+ dq +:+ "journal withskin" +:+ dq +:+
  ">" +:+ nl +:+ "    ".

Definition journal_tail : string :=
  nl +:+ "    </div>" +:+ nl +:+ "    </div>" +:+ nl +:+ "    </div>" +:+
  nl +:+ "    </div>" +:+ nl +:+ "    </div>" +:+ nl +:+ "    </div>" +:+
  nl +:+ "    </div>" +:+ nl +:+ "    </div>" +:+ nl +:+ "</body>" +:+ nl +:+
  "</html>" +:+ nl.

(** ** The program *)

Record api_config : Type := {
  client_id : string;
  client_secret : string;
  mature : string
}.

(** [DeviantartAPI.__init__]: the [mature] option is kept when it is a
    string and is turned into ["true"] or ["false"] otherwise. *)
Definition mature_of_config (v : value) : string :=
  match v with
  | VStr s => s
  | _ => if py_truthy v then "true" else "false"
  end.

Inductive extractor_kind : Type :=
  | BaseExtractor
  | GalleryExtractor (user : string)
  | DeviationExtractor (url : string)
  | FavoriteExtractor (user : string) (favname : string) (all : bool)
      (collection : loc).

Record extractor : Type := {
  api : api_config;
  offset : Z;
  kind : extractor_kind
}.

(** The state of a [_pagination] generator between two [next] calls. *)
Inductive pagination : Type :=
  (** about to call the endpoint *)
  | PagCall (endpoint : string) (params : option (gmap string value))
  (** inside [yield from], with the elements still to give *)
  | PagYield (rest : list value) (data : value) (endpoint : string)
      (params : option (gmap string value))
  | PagDone.

(** What [deviations()] returns: a list or tuple of records, one
    generator, or a chain of generators. *)
Inductive source : Type :=
  | SrcList (l : list loc)
  | SrcPagination (g : pagination)
  | SrcChain (gs : list pagination).

Definition PLACEHOLDER_AUTHOR : value :=
  VDict (<["username" := VStr ""]> (<["userid" := VStr ""]>
        (<["usericon" := VStr ""]> (<["type" := VStr ""]> ∅)))).

(** Helpers of the repository that are not part of this file
    ([gallery_dl/text.py]) and of Python's library: what the program
    is given. *)
Class library : Type := {
  (** [text.escape] *)
  text_escape : string -> string;
  (** [text.nameext_from_url(url, data)]: [data] with the name and the
      extension found in [url]. *)
  text_nameext_from_url : value -> value -> result value;
  (** [text.extract(txt, begin, end)[0]] *)
  text_extract : string -> string -> string -> option string;
  (** [re.compile(pattern)] followed by the [match] method of its result;
      [None] when the pattern is not a regular expression. *)
  re_compile : string -> option (string -> bool);
  (** [str(v)] of a value that is not a string. *)
  py_str : value -> string
}.

Section Deviantart.
Context {lib : library}.

(** *** DeviantartExtractor *)

(** [DeviantartExtractor.prepare] *)
Definition prepare (deviation : loc) : M unit :=
  for_each ["stats"; "preview"; "thumbs"] (fun key =>
    let* present := contains key deviation in
    if present then delitem deviation key else ret tt) ;;
  except_KeyError
    (let* url := getitem deviation "url" in
     match url with
     | VStr s =>
         match rsplit hyphen s !! 1%nat with
         | Some index => setitem deviation "index" (VStr index)
         | None => raise IndexError
         end
     | _ => raise AttributeError
     end)
    (setitem deviation "index" (VInt 0)).

(** [DeviantartExtractor.commit] *)
Definition commit (deviation : loc) (target : value) : M message :=
  let* url := lift (py_getitem target "src") in
  let* named := lift (text_nameext_from_url url target) in
  setitem deviation "target" named ;;
  let* t := getitem deviation "target" in
  let* ext := lift (py_getitem t "extension") in
  setitem deviation "extension" ext ;;
  ret (Url url deviation).

(** [lambda x: int(x["quality"][:-1])] *)
Definition video_quality (x : value) : result Z :=
  rbind (py_getitem x "quality") int_drop_last.

(** [max(videos, key=lambda x: int(x["quality"][:-1]))] *)
Definition select_video (videos : value) : result value :=
  rbind (py_iter videos) (py_max video_quality).

(** One field of [str.format]. *)
Definition format_field (v : value) : string :=
  match v with
  | VStr s => s
  | _ => py_str v
  end.

(** [JOURNAL_TEMPLATE.format(title=title, html=html, css=css)] *)
Definition journal_format (title html css : string) : string :=
  journal_head +:+ title +:+ journal_mid +:+ css +:+ journal_pre +:+ html
  +:+ journal_tail.

(** *** DeviantartAPI *)

Definition session_post (data : gmap string value) : M response :=
  fun w => (Ok (on_post (srv w) (posts w) data), with_posts (S (posts w)) w).

Definition session_get (url : string) (params : option (gmap string value))
  : M response :=
  fun w => (Ok (on_get (srv w) (gets w) url params), with_gets (S (gets w)) w).

(** [time.sleep(d)] *)
Definition sleep (d : Z) : M unit :=
  if d <? 0 then raise ValueError
  else modify (fun w => with_now (now w + d) w).

(** The body of [DeviantartAPI._authenticate_impl]. *)
Definition _authenticate_impl (client_id client_secret : string) : M string :=
  let data : gmap string value :=
    <["grant_type" := VStr "client_credentials"]>
      (<["client_id" := VStr client_id]>
         (<["client_secret" := VStr client_secret]> ∅)) in
  let* response := session_post data in
  if negb (status_code response =? 200) then raise AuthenticationError
  else
    match json response with
    | None => raise ValueError
    | Some body =>
        let* token := lift (py_getitem body "access_token") in
        lift (str_add "Bearer " token)
    end.

(** Modelled from the spec: the decorator [cache(maxage, keyarg)] of
    [gallery_dl/cache.py], which is not part of this file.  A value
    stored under the key is returned while no more than [maxage]
    seconds have passed since it was stored; otherwise the function is
    called and, when it returns, its result is stored with the time. *)
Definition cache (maxage : Z) (key : string) (f : M string) : M string :=
  fun w =>
    let miss :=
      match f w with
      | (Ok v, w') =>
          (Ok v, with_token_cache (<[key := (v, now w')]> (token_cache w')) w')
      | r => r
      end in
    match token_cache w !! key with
    | Some (v, issued) => if now w - issued <=? maxage then (Ok v, w) else miss
    | None => miss
    end.

(** [DeviantartAPI._authenticate_impl] as decorated with
    [@cache(maxage=3600, keyarg=1)]: the key is the client id. *)
Definition _authenticate_impl_cached (client_id client_secret : string)
  : M string :=
  cache 3600 client_id (_authenticate_impl client_id client_secret).

(** [DeviantartAPI.authenticate] *)
Definition authenticate (a : api_config) : M unit :=
  let* access_token := _authenticate_impl_cached (client_id a) (client_secret a) in
  modify (fun w => with_headers (<["Authorization" := access_token]> (headers w)) w).

(** The [while True] loop of [DeviantartAPI._call]; it ends with the
    response of status 200 it breaks on. *)
Fixpoint call_loop (fuel : nat) (a : api_config) (url : string)
    (params : option (gmap string value)) (tries : Z) : M response :=
  match fuel with
  | O => raise OutOfFuel
  | S fuel' =>
      let* w := get_world in
      (if negb (delay w =? 0) then sleep (delay w) else ret tt) ;;
      authenticate a ;;
      let* response := session_get url params in
      if status_code response =? 200 then ret response
      else
        (if status_code response =? 429 then
           modify (fun w => with_delay (delay w + 1) w) ;;
           let* w := get_world in
           log_add (LogRateLimit (delay w))
         else
           modify (with_delay 1) ;;
           log_add (LogHttpStatus (status_code response) tries)) ;;
        let tries := tries + 1 in
        if tries >? 3 then raise (FatalError (text response))
        else call_loop fuel' a url params tries
  end.

Definition api_url (endpoint : string) : string :=
  "https://www.deviantart.com/api/v1/oauth2/" +:+ endpoint.

(** [DeviantartAPI._call] *)
Definition _call (a : api_config) (endpoint : string)
    (params : option (gmap string value)) : M value :=
  let url := api_url endpoint in
  let* response := call_loop 3 a url params 1 in
  match json response with
  | Some data => ret data
  | None => ret (VDict ∅)
  end.

(** One [next] of a [DeviantartAPI._pagination] generator: the record
    it yields, or [None] when the generator returns. *)
Fixpoint _pagination_next (fuel : nat) (a : api_config) (g : pagination)
  : M (option loc * pagination) :=
  match fuel with
  | O => raise OutOfFuel
  | S fuel' =>
      match g with
      | PagDone => ret (None, PagDone)
      | PagCall endpoint params =>
          let* data := _call a endpoint params in
          let* has_results := lift (py_contains "results" data) in
          if has_results then
            let* results := lift (py_getitem data "results") in
            let* elements := lift (py_yield_from results) in
            _pagination_next fuel' a (PagYield elements data endpoint params)
          else
            log_add (LogUnexpectedResponse data) ;;
            ret (None, PagDone)
      | PagYield (x :: rest) data endpoint params =>
          let* r := alloc x in
          ret (Some r, PagYield rest data endpoint params)
      | PagYield [] data endpoint params =>
          let* has_more := lift (py_getitem data "has_more") in
          if negb (py_truthy has_more) then ret (None, PagDone)
          else
            let* next_offset := lift (py_getitem data "next_offset") in
            match params with
            | Some p =>
                _pagination_next fuel' a
                  (PagCall endpoint (Some (<["offset" := next_offset]> p)))
            | None => raise TypeError
            end
      end
  end.

Definition listing_params (a : api_config) (username : string) (offset : Z)
  : gmap string value :=
  <["username" := VStr username]> (<["offset" := VInt offset]>
    (<["limit" := VInt 10]> (<["mature_content" := VStr (mature a)]> ∅))).

(** [DeviantartAPI.collections] *)
Definition collections (a : api_config) (username : string) (folder_id : value)
    (offset : Z) : M pagination :=
  let* endpoint := lift (str_add "collections/" folder_id) in
  ret (PagCall endpoint (Some (listing_params a username offset))).

(** [DeviantartAPI.collections_folders] *)
Definition collections_folders (a : api_config) (username : string) : pagination :=
  PagCall "collections/folders" (Some (listing_params a username 0)).

(** [DeviantartAPI.gallery_all] *)
Definition gallery_all (a : api_config) (username : string) (offset : Z)
  : pagination :=
  PagCall "gallery/all" (Some (listing_params a username offset)).

(** [DeviantartAPI.deviation] *)
Definition deviation (a : api_config) (deviation_id : string) : M value :=
  _call a ("deviation/" +:+ deviation_id) None.

(** [DeviantartAPI.deviation_content] *)
Definition deviation_content (a : api_config) (deviation_id : value) : M value :=
  _call a "deviation/content" (Some (<["deviationid" := deviation_id]> ∅)).

(** *** The sources *)

(** [next] of [itertools.chain.from_iterable(gs)] *)
Fixpoint chain_next (fuel : nat) (a : api_config) (gs : list pagination)
  : M (option loc * list pagination) :=
  match gs with
  | [] => ret (None, [])
  | g :: gs' =>
      let* (x, g') := _pagination_next fuel a g in
      match x with
      | Some r => ret (Some r, g' :: gs')
      | None => chain_next fuel a gs'
      end
  end.

(** [next] of the iterator over what [deviations()] returned. *)
Definition source_next (fuel : nat) (a : api_config) (s : source)
  : M (option loc * source) :=
  match s with
  | SrcList [] => ret (None, SrcList [])
  | SrcList (r :: l) => ret (Some r, SrcList l)
  | SrcPagination g =>
      let* (x, g') := _pagination_next fuel a g in
      ret (x, SrcPagination g')
  | SrcChain gs =>
      let* (x, gs') := chain_next fuel a gs in
      ret (x, SrcChain gs')
  end.

(** [DeviantartDeviationExtractor.deviations] *)
Definition deviations_deviation (a : api_config) (url : string) : M source :=
  let* response := session_get url None in
  let deviation_id := text_extract (text response) "//deviation/" dq in
  match deviation_id with
  | Some id =>
      if negb (status_code response =? 200) || bool_decide (id = "")
      then raise (NotFoundError "image")
      else
        let* d := deviation a id in
        let* r := alloc d in
        ret (SrcList [r])
  | None => raise (NotFoundError "image")
  end.

(** The [for folder in ...] loop of
    [DeviantartFavoriteExtractor.deviations]. *)
Fixpoint find_folder (fuel : nat) (a : api_config) (user : string) (offset : Z)
    (collection : loc) (regex : string -> bool) (folders : pagination)
  : M source :=
  match fuel with
  | O => raise OutOfFuel
  | S fuel' =>
      let* (x, folders') := _pagination_next fuel a folders in
      match x with
      | None => raise (NotFoundError "collection")
      | Some folder =>
          let* name := getitem folder "name" in
          match name with
          | VStr s =>
              if regex s then
                let* name := getitem folder "name" in
                setitem collection "title" name ;;
                let* folderid := getitem folder "folderid" in
                let* g := collections a user folderid offset in
                ret (SrcPagination g)
              else find_folder fuel' a user offset collection regex folders'
          | _ => raise TypeError
          end
      end
  end.

(** [DeviantartFavoriteExtractor.deviations] *)
Definition deviations_favorite (fuel : nat) (a : api_config) (user favname : string)
    (offset : Z) (collection : loc) : M source :=
  match re_compile (replace_char hyphen dot favname +:+ "$") with
  | None => raise ReError
  | Some regex =>
      find_folder fuel a user offset collection regex (collections_folders a user)
  end.

(** The list comprehension of
    [DeviantartFavoriteExtractor._deviations_all]: it goes through all
    folders before the first record is asked for. *)
Fixpoint all_folders (fuel : nat) (a : api_config) (user : string) (offset : Z)
    (folders : pagination) : M (list pagination) :=
  match fuel with
  | O => raise OutOfFuel
  | S fuel' =>
      let* (x, folders') := _pagination_next fuel a folders in
      match x with
      | None => ret []
      | Some folder =>
          let* folderid := getitem folder "folderid" in
          let* g := collections a user folderid offset in
          let* gs := all_folders fuel' a user offset folders' in
          ret (g :: gs)
      end
  end.

(** [DeviantartFavoriteExtractor.__init__], from the groups of the
    match.  The collection descriptor is an object of its own, which
    every record of the run will refer to. *)
Definition favorite_init (a : api_config) (user : string)
    (path favid favname : option string) : M extractor :=
  let named := match favname with Some n => negb (bool_decide (n = "")) | None => false end in
  let all := negb named && bool_decide (path = Some "?catpath=/") in
  let name :=
    if named then default "" favname
    else if all then "All" else "Featured" in
  let index :=
    match favid with
    | Some i => if bool_decide (i = "") then VInt 0 else VStr i
    | None => VInt 0
    end in
  let* collection :=
    alloc (VDict (<["owner" := VStr user]> (<["title" := VStr name]>
                 (<["index" := index]> ∅)))) in
  ret {| api := a; offset := 0; kind := FavoriteExtractor user name all collection |}.

(** [self.deviations()] *)
Definition deviations (fuel : nat) (self : extractor) : M source :=
  match kind self with
  | BaseExtractor => ret (SrcList [])
  | GalleryExtractor user =>
      ret (SrcPagination (gallery_all (api self) user (offset self)))
  | DeviationExtractor url => deviations_deviation (api self) url
  | FavoriteExtractor user favname false collection =>
      deviations_favorite fuel (api self) user favname (offset self) collection
  | FavoriteExtractor user favname true collection =>
      let* gs := all_folders fuel (api self) user (offset self)
                   (collections_folders (api self) user) in
      ret (SrcChain gs)
  end.

(** [self.prepare(deviation)]; the favourites extractor overrides it. *)
Definition prepare_of (self : extractor) (deviation : loc) : M unit :=
  match kind self with
  | FavoriteExtractor _ _ _ collection =>
      prepare deviation ;;
      setitem deviation "collection" (VRef collection)
  | _ => prepare deviation
  end.

(** *** DeviantartExtractor.items *)

(** The second half of the body of the [for deviation in ...] loop:
    one message for each payload the record has. *)
Definition items_payloads (self : extractor) (deviation : loc) : M unit :=
  let* has_content := contains "content" deviation in
  (if has_content then
     let* content := getitem deviation "content" in
     let* m := commit deviation content in
     yield m
   else ret tt) ;;
  let* has_videos := contains "videos" deviation in
  (if has_videos then
     let* videos := getitem deviation "videos" in
     let* video := lift (select_video videos) in
     let* m := commit deviation video in
     yield m
   else ret tt) ;;
  let* has_flash := contains "flash" deviation in
  (if has_flash then
     let* flash := getitem deviation "flash" in
     let* m := commit deviation flash in
     yield m
   else ret tt) ;;
  let* has_excerpt := contains "excerpt" deviation in
  (if has_excerpt then
     let* deviationid := getitem deviation "deviationid" in
     let* dev := deviation_content (api self) deviationid in
     setitem deviation "extension" (VStr "htm") ;;
     let* title := getitem deviation "title" in
     let* title :=
       match title with
       | VStr t => ret (text_escape t)
       | _ => raise AttributeError
       end in
     let* html := lift (py_getitem dev "html") in
     let* has_css := lift (py_contains "css" dev) in
     let* css := if has_css then lift (py_getitem dev "css") else ret (VStr "") in
     yield (Url (VStr (journal_format title (format_field html) (format_field css)))
              deviation)
   else ret tt) ;;
  let* has_html := contains "html" deviation in
  if has_html then log_add LogSkippingJournal else ret tt.

(** The body of the [for deviation in self.deviations()] loop; it
    returns the new [last_author]. *)
Definition items_record (self : extractor) (deviation : loc) (last_author : value)
  : M value :=
  prepare_of self deviation ;;
  let* author :=
    except_KeyError (getitem deviation "author")
      (setitem deviation "author" PLACEHOLDER_AUTHOR ;; ret VNone) in
  let* last_author :=
    if negb (py_eq author last_author) then
      yield (Directory deviation) ;; ret author
    else ret last_author in
  items_payloads self deviation ;;
  ret last_author.

(** The [for] loop of [items]. *)
Fixpoint items_loop (fuel : nat) (self : extractor) (s : source)
    (last_author : value) : M unit :=
  match fuel with
  | O => raise OutOfFuel
  | S fuel' =>
      let* (x, s') := source_next fuel (api self) s in
      match x with
      | None => ret tt
      | Some deviation =>
          let* last_author := items_record self deviation last_author in
          items_loop fuel' self s' last_author
      end
  end.

(** [DeviantartExtractor.items] *)
Definition items (fuel : nat) (self : extractor) : M unit :=
  yield (Version 1) ;;
  let* s := deviations fuel self in
  items_loop fuel self s VNone.

(** [items] over a given sequence of records, as a source that is a
    list or a tuple gives them. *)
Definition items_of (self : extractor) (records : list loc) : M unit :=
  yield (Version 1) ;;
  items_loop (S (length records)) self (SrcList records) VNone.

End Deviantart.

(** [DeviantartExtractor.skip]: what it returns and the extractor after
    the call. *)
Definition skip (self : extractor) (num : Z) : Z * extractor :=
  (num, {| api := api self; offset := offset self + num; kind := kind self |}).

(** * Notions the statements use *)

(** The fields [prepare] removes. *)
Definition strip (m : gmap string value) : gmap string value :=
  delete "thumbs" (delete "preview" (delete "stats" m)).

(** The [index] of a record, from its [url] field: [0] without the field,
    and the text after the last hyphen of a URL that has a hyphen. *)
Inductive url_index : option value -> value -> Prop :=
  | url_index_absent : url_index None (VInt 0)
  | url_index_hyphen (a b : string) :
      has_char hyphen b = false ->
      url_index (Some (VStr (a +:+ "-" +:+ b))) (VStr b).

(** A quality string made of decimal digits and one more character, and
    the number the digits stand for. *)
Definition quality_of (x : value) (n : Z) : Prop :=
  exists (d : string) (c : ascii),
    py_getitem x "quality" = Ok (VStr (d +:+ String c EmptyString)) /\
    d <> "" /\ all_chars is_digit d = true /\ n = decimal d.

(** A numeric prefix followed by a unit suffix without digits. *)
Definition unit_suffix (s : string) : bool :=
  negb (bool_decide (s = "")) && all_chars (fun c => negb (is_digit c)) s.

Fixpoint numeric_with_unit (seen_digit : bool) (s : string) : bool :=
  match s with
  | EmptyString => false
  | String c r =>
      if is_digit c then numeric_with_unit true r
      else seen_digit && unit_suffix s
  end.

Definition has_unit_quality (x : value) : bool :=
  match py_getitem x "quality" with
  | Ok (VStr s) => numeric_with_unit false s
  | _ => false
  end.

(** The form [_authenticate_impl] posts to the token endpoint. *)
Definition token_request (client_id client_secret : string) : gmap string value :=
  <["grant_type" := VStr "client_credentials"]>
    (<["client_id" := VStr client_id]>
       (<["client_secret" := VStr client_secret]> ∅)).

(** The token endpoint answers every request with a token. *)
Definition token_endpoint_ok (s : server) : Prop :=
  forall (n : nat) (data : gmap string value),
  exists (body : value) (tok : string),
    status_code (on_post s n data) = 200 /\
    json (on_post s n data) = Some body /\
    py_getitem body "access_token" = Ok (VStr tok).

(** The payloads of a record in the order [items] goes through them: the
    image, the selected video, the flash animation. *)
Definition payload_targets (m : gmap string value) : result (list value) :=
  let content := match m !! "content" with Some c => [c] | None => [] end in
  let flash := match m !! "flash" with Some f => [f] | None => [] end in
  match m !! "videos" with
  | Some videos => rbind (select_video videos) (fun v => Ok (content ++ [v] ++ flash))
  | None => Ok (content ++ flash)
  end.

(** The characters with a meaning of their own in a regular expression. *)
Definition re_special (c : ascii) : bool := has_char c ".^$*+?{}[]\|()".

(** A pattern without special characters other than the dot. *)
Definition re_plain (p : string) : bool :=
  all_chars (fun c => bool_decide (c = dot) || negb (re_special c)) p.

(** What the regular expression [p$] gives with [match], for a plain [p]:
    the string has one character for each character of [p], a dot stands
    for any character but the newline, every other character for itself,
    and the end of the string or its last newline must follow. *)
Fixpoint wild_match (p s : string) : bool :=
  match p, s with
  | EmptyString, EmptyString => true
  | EmptyString, String c EmptyString => bool_decide (c = newline)
  | String pc p', String c s' =>
      (if bool_decide (pc = dot) then negb (bool_decide (c = newline))
       else bool_decide (pc = c))
      && wild_match p' s'
  | _, _ => false
  end.

(** ** Pagination *)

(** [list(g)]: the records a generator yields until it returns. *)
Fixpoint drain (fuel : nat) (a : api_config) (g : pagination) : M (list loc) :=
  match fuel with
  | O => raise OutOfFuel
  | S fuel' =>
      let* (x, g') := _pagination_next fuel a g in
      match x with
      | None => ret []
      | Some r =>
          let* rs := drain fuel' a g' in
          ret (r :: rs)
      end
  end.

(** With enough fuel the computation gives this result and this world. *)
Definition converges {A : Type} (f : nat -> M A) (w : world) (r : result A)
    (w' : world) : Prop :=
  exists fuel0 : nat, forall fuel : nat, (fuel0 <= fuel)%nat -> f fuel w = (r, w').

(** A pagination run, page by page: the elements that are yielded, in
    order, and the world in which the sequence ends.  It ends with a
    response without [results], after an error is logged, or with the
    elements of a response whose [has_more] is false; a response whose
    [has_more] is true is followed by the call at its [next_offset]. *)
Inductive paginates (a : api_config) (endpoint : string) :
    option (gmap string value) -> world -> list value -> world -> Prop :=
  | paginates_missing params w data w1 :
      _call a endpoint params w = (Ok data, w1) ->
      py_contains "results" data = Ok false ->
      paginates a endpoint params w []
        (with_log (log w1 ++ [LogUnexpectedResponse data]) w1)
  | paginates_last params w data w1 results elements has_more :
      _call a endpoint params w = (Ok data, w1) ->
      py_contains "results" data = Ok true ->
      py_getitem data "results" = Ok results ->
      py_yield_from results = Ok elements ->
      py_getitem data "has_more" = Ok has_more ->
      py_truthy has_more = false ->
      paginates a endpoint params w elements (with_heap (heap w1 ++ elements) w1)
  | paginates_more p w data w1 results elements has_more next_offset rest w2 :
      _call a endpoint (Some p) w = (Ok data, w1) ->
      py_contains "results" data = Ok true ->
      py_getitem data "results" = Ok results ->
      py_yield_from results = Ok elements ->
      py_getitem data "has_more" = Ok has_more ->
      py_truthy has_more = true ->
      py_getitem data "next_offset" = Ok next_offset ->
      paginates a endpoint (Some (<["offset" := next_offset]> p))
        (with_heap (heap w1 ++ elements) w1) rest w2 ->
      paginates a endpoint (Some p) w (elements ++ rest) w2.

(** The response bodies the pagination is meant for: a JSON object
    whose [results], when it has the field, is a JSON array. *)
Definition page_shape (data : value) : Prop :=
  exists m : gmap string value,
    data = VDict m /\
    (m !! "results" = None \/
     exists elements : list value, m !! "results" = Some (VList elements)).

(** Every JSON body the server sends with the status 200 has this shape. *)
Definition server_pages (s : server) : Prop :=
  forall (n : nat) (url : string) (params : option (gmap string value)) (data : value),
    status_code (on_get s n url params) = 200 ->
    json (on_get s n url params) = Some data ->
    page_shape data.

(** A pagination run over such bodies, page by page, told with the
    fields of the bodies: the elements that are yielded are the elements
    of the [results] arrays, one array after the other.  The run ends
    with a body without [results], after an error is logged, or with the
    elements of a body whose [has_more] is false; a body whose
    [has_more] is true is followed by the call at its [next_offset]. *)
Inductive pages (a : api_config) (endpoint : string) :
    option (gmap string value) -> world -> list value -> world -> Prop :=
  | pages_missing params w m w1 :
      _call a endpoint params w = (Ok (VDict m), w1) ->
      m !! "results" = None ->
      pages a endpoint params w []
        (with_log (log w1 ++ [LogUnexpectedResponse (VDict m)]) w1)
  | pages_last params w m w1 elements has_more :
      _call a endpoint params w = (Ok (VDict m), w1) ->
      m !! "results" = Some (VList elements) ->
      m !! "has_more" = Some has_more ->
      py_truthy has_more = false ->
      pages a endpoint params w elements (with_heap (heap w1 ++ elements) w1)
  | pages_more p w m w1 elements has_more next_offset rest w2 :
      _call a endpoint (Some p) w = (Ok (VDict m), w1) ->
      m !! "results" = Some (VList elements) ->
      m !! "has_more" = Some has_more ->
      py_truthy has_more = true ->
      m !! "next_offset" = Some next_offset ->
      pages a endpoint (Some (<["offset" := next_offset]> p))
        (with_heap (heap w1 ++ elements) w1) rest w2 ->
      pages a endpoint (Some p) w (elements ++ rest) w2.

(** The same run from any state of the generator, element by element. *)
Inductive generates (a : api_config) :
    pagination -> world -> list value -> world -> Prop :=
  | generates_done w : generates a PagDone w [] w
  | generates_missing endpoint params w data w1 :
      _call a endpoint params w = (Ok data, w1) ->
      py_contains "results" data = Ok false ->
      generates a (PagCall endpoint params) w []
        (with_log (log w1 ++ [LogUnexpectedResponse data]) w1)
  | generates_results endpoint params w data w1 results elements items w' :
      _call a endpoint params w = (Ok data, w1) ->
      py_contains "results" data = Ok true ->
      py_getitem data "results" = Ok results ->
      py_yield_from results = Ok elements ->
      generates a (PagYield elements data endpoint params) w1 items w' ->
      generates a (PagCall endpoint params) w items w'
  | generates_yield x rest data endpoint params w items w' :
      generates a (PagYield rest data endpoint params)
        (with_heap (heap w ++ [x]) w) items w' ->
      generates a (PagYield (x :: rest) data endpoint params) w (x :: items) w'
  | generates_last data endpoint params w has_more :
      py_getitem data "has_more" = Ok has_more ->
      py_truthy has_more = false ->
      generates a (PagYield [] data endpoint params) w [] w
  | generates_more data endpoint p w has_more next_offset items w' :
      py_getitem data "has_more" = Ok has_more ->
      py_truthy has_more = true ->
      py_getitem data "next_offset" = Ok next_offset ->
      generates a (PagCall endpoint (Some (<["offset" := next_offset]> p))) w items w' ->
      generates a (PagYield [] data endpoint (Some p)) w items w'.

(** The first records a generator yields, at new locations one after the
    other, and where it stands then. *)
Inductive yields (a : api_config) :
    pagination -> world -> list value -> pagination -> world -> Prop :=
  | yields_nil g w : yields a g w [] g w
  | yields_cons g w v g1 w1 vs g' w' :
      converges (fun fuel => _pagination_next fuel a g) w
        (Ok (Some (length (heap w)), g1)) w1 ->
      heap w1 = heap w ++ [v] ->
      yields a g1 w1 vs g' w' ->
      yields a g w (v :: vs) g' w'.

(** A folder whose name the pattern does not match. *)
Definition folder_unlike (pattern : string) (folder : value) : Prop :=
  exists (m : gmap string value) (name : string),
    folder = VDict m /\ m !! "name" = Some (VStr name) /\
    wild_match pattern name = false.

(** A folder of a listing with its id. *)
Definition folder_with_id (folder : value) (id : string) : Prop :=
  exists m : gmap string value,
    folder = VDict m /\ m !! "folderid" = Some (VStr id).

(** ** What a computation leaves unchanged *)

(** [keeps f m]: the component [f] of the world is the same after [m],
    whether [m] returns or raises. *)
Definition keeps {B A : Type} (f : world -> B) (m : M A) : Prop :=
  forall w : world, f (m w).2 = f w.

(** [emits P m]: [m] only adds messages to the ones yielded so far, and
    the messages it adds satisfy [P]. *)
Definition emits {A : Type} (P : message -> Prop) (m : M A) : Prop :=
  forall w : world,
  exists msgs : list message, emitted (m w).2 = emitted w ++ msgs /\ Forall P msgs.

(** The message is a [Url] message for the record [r]. *)
Definition is_url_of (r : loc) (msg : message) : Prop :=
  exists u : value, msg = Url u r.

(** The message is about the record [r]. *)
Definition carries (r : loc) (msg : message) : Prop :=
  msg = Directory r \/ is_url_of r msg.

(** A component of the world that the API client does not touch: it
    depends neither on the clock, the token cache, the headers, the delay,
    the request counters nor the log. *)
Definition api_blind {B : Type} (f : world -> B) : Prop :=
  (forall t w, f (with_now t w) = f w) /\
  (forall c w, f (with_token_cache c w) = f w) /\
  (forall h w, f (with_headers h w) = f w) /\
  (forall d w, f (with_delay d w) = f w) /\
  (forall n w, f (with_gets n w) = f w) /\
  (forall n w, f (with_posts n w) = f w) /\
  (forall l w, f (with_log l w) = f w).

(** The field [k] of the object at [r]. *)
Definition field (r : loc) (k : string) (w : world) : result value :=
  py_getitem (obj w r) k.

(** The message is about some record: it is no [Version] message. *)
Definition of_a_record (msg : message) : Prop :=
  exists r : loc, carries r msg.

(** [preserves P m]: when [P] holds of the world before [m], it holds of
    the world after it, whether [m] returns or raises. *)
Definition preserves {A : Type} (P : world -> Prop) (m : M A) : Prop :=
  forall w : world, P w -> P (m w).2.

(** * Sample data

    Concrete helpers, servers and records, on which the general
    statements below are instantiated. *)

Module Sample.

(** [html.escape] without quotes. *)
Fixpoint escape (s : string) : string :=
  match s with
  | EmptyString => EmptyString
  | String c r =>
      (if bool_decide (c = "&"%char) then "&amp;"
       else if bool_decide (c = "<"%char) then "&lt;"
       else if bool_decide (c = ">"%char) then "&gt;"
       else String c EmptyString) +:+ escape r
  end.

(** [text.nameext_from_url], for a URL of the form
    [scheme://host/path?query#fragment] or a plain path and a name
    without percent escapes: [filename] is the last segment of the path,
    [name] and [extension] are the two parts [os.path.splitext] makes of
    it, the extension without its dot and in lower case. *)
Fixpoint cut_at (stop : ascii -> bool) (s : string) : string :=
  match s with
  | EmptyString => EmptyString
  | String c r => if stop c then EmptyString else String c (cut_at stop r)
  end.

Definition url_path (url : string) : string :=
  let plain :=
    cut_at (fun c => bool_decide (c = "?"%char) || bool_decide (c = "#"%char)) url in
  match String.index 0 "://" plain with
  | Some i =>
      let rest := String.substring (i + 3) (String.length plain - (i + 3)) plain in
      match String.index 0 "/" rest with
      | Some j => String.substring j (String.length rest - j) rest
      | None => ""
      end
  | None => plain
  end.

Definition basename (path : string) : string :=
  match rsplit1 "/"%char path with
  | Some (_, b) => b
  | None => path
  end.

(** [os.path.splitext] of a name without separator, the extension
    without its dot: dots at the start of the name begin no extension. *)
Definition splitext (name : string) : string * string :=
  match rsplit1 dot name with
  | Some (n, e) =>
      if all_chars (fun c => bool_decide (c = dot)) n then (name, "") else (n, e)
  | None => (name, "")
  end.

Definition lower_char (c : ascii) : ascii :=
  let n := nat_of_ascii c in
  if ((65 <=? n)%nat && (n <=? 90)%nat)
     || ((192 <=? n)%nat && (n <=? 222)%nat && negb (n =? 215)%nat)
  then ascii_of_nat (n + 32) else c.

Fixpoint lower (s : string) : string :=
  match s with
  | EmptyString => EmptyString
  | String c r => String (lower_char c) (lower r)
  end.

Definition nameext_from_url (url data : value) : result value :=
  match url, data with
  | VStr u, VDict m =>
      let filename := basename (url_path u) in
      if has_char "%"%char filename then Raise Unmodelled
      else
        let (name, ext) := splitext filename in
        Ok (VDict (<["extension" := VStr (lower ext)]>
                     (<["name" := VStr name]>
                        (<["filename" := VStr filename]> m))))
  | VStr _, _ => Raise TypeError
  | _, _ => Raise Unmodelled
  end.

Definition str (v : value) : string := "".

(** Regular expressions of the form [p$] with a plain [p], and no other. *)
Definition compile (pattern : string) : option (string -> bool) :=
  let p := drop_last pattern in
  if bool_decide (pattern = p +:+ "$") && re_plain p then Some (wild_match p) else None.

(** [text.extract(txt, begin, end)[0]]: the text between the first
    [begin] and the next [end]. *)
Definition extract (txt begin end_ : string) : option string :=
  match String.index 0 begin txt with
  | Some i =>
      let first := (i + String.length begin)%nat in
      match String.index first end_ txt with
      | Some last => Some (String.substring first (last - first) txt)
      | None => None
      end
  | None => None
  end.

#[global] Instance lib : library :=
  {| text_escape := escape; text_nameext_from_url := nameext_from_url;
     text_extract := extract; re_compile := compile; py_str := str |}.

(** A server whose API is down and whose token endpoint works. *)
Definition token_response : response :=
  {| status_code := 200; text := "";
     json := Some (VDict (<["access_token" := VStr "abc"]> ∅)) |}.

Definition failing (answers : list (Z * string)) : server :=
  {| on_get := fun n _ _ =>
       let answer := default (500, "down") (answers !! n) in
       {| status_code := answer.1; text := answer.2; json := None |};
     on_post := fun _ _ => token_response |}.

Definition start (s : server) (h : list value) : world :=
  {| heap := h; now := 0; token_cache := ∅;
     headers := <["dA-minor-version" := "20160316"]> ∅;
     delay := 0; gets := 0; posts := 0; srv := s; log := []; emitted := [] |}.

Definition config : api_config :=
  {| client_id := "5388"; client_secret := "76b08c69cfb27f26d6161f9ab6d061a1";
     mature := "true" |}.

(** The world after a first authentication at time [0]. *)
Definition authenticated : world :=
  (_authenticate_impl_cached (client_id config) (client_secret config)
     (start (failing []) [])).2.

(** Rate limited, then failing, then rate limited again. *)
Definition busy : world :=
  start (failing [(429, "slow down"); (500, "oops"); (429, "still slow")]) [].

Definition base : extractor :=
  {| api := config; offset := 0; kind := BaseExtractor |}.

(** Records *)
Definition with_url (url : string) : gmap string value :=
  <["url" := VStr url]> ∅.

Definition rendition (quality src : string) : value :=
  VDict (<["quality" := VStr quality]> (<["src" := VStr src]> ∅)).

Definition renditions : list value :=
  [rendition "480p" "http://v/480.mp4"; rendition "1080p" "http://v/1080.mp4";
   rendition "720p" "http://v/720.mp4"].

Definition art : world :=
  start (failing []) [VDict (with_url "https://x.deviantart.com/art/Title-42")].

Definition art_v2 : world :=
  start (failing []) [VDict (with_url "https://x.deviantart.com/art/Title-v2")].

Definition stash : world :=
  start (failing []) [VDict (with_url "https://sta.sh/01ijs78ebagf")].

(** An image without [author]. *)
Definition anonymous_image : gmap string value :=
  <["deviationid" := VStr "A1"]> (<["url" := VStr "https://x.deviantart.com/art/Title-42"]>
    (<["title" := VStr "Title"]>
       (<["content" := VDict (<["src" := VStr "http://img/x.jpg"]> ∅)]> ∅))).

Definition anonymous : world := start (failing []) [VDict anonymous_image].

(** An image that is a flash animation too, with its author. *)
Definition author : value :=
  VDict (<["username" := VStr "shimoda7"]> (<["userid" := VStr "77"]>
        (<["usericon" := VStr "http://a/7.png"]> (<["type" := VStr "regular"]> ∅)))).

Definition animated_image : gmap string value :=
  <["author" := author]> (<["flash" := VDict (<["src" := VStr "http://img/x.swf"]> ∅)]>
    anonymous_image).

Definition animated : world := start (failing []) [VDict animated_image].

(** A journal, without and with its author, behind a single-item URL. *)
Definition journal : gmap string value :=
  <["deviationid" := VStr "J7"]> (<["url" := VStr "https://x.deviantart.com/art/Diary-7"]>
    (<["title" := VStr "Me & <you>"]> (<["excerpt" := VStr "Dear diary"]> ∅))).

Definition journal_content : value :=
  VDict (<["html" := VStr "<p>Dear diary, ...</p>"]> (<["css" := VStr "p { margin: 0 }"]> ∅)).

Definition page_url : string := "https://x.deviantart.com/art/Diary-7".

Definition journal_site (record : gmap string value) : server :=
  {| on_get := fun _ url _ =>
       if bool_decide (url = page_url) then
         {| status_code := 200;
            text := "<a href=" +:+ dq +:+ "DeviantArt://deviation/J7" +:+ dq +:+ ">";
            json := None |}
       else if bool_decide (url = api_url "deviation/J7") then
         {| status_code := 200; text := ""; json := Some (VDict record) |}
       else if bool_decide (url = api_url "deviation/content") then
         {| status_code := 200; text := ""; json := Some journal_content |}
       else {| status_code := 404; text := "not found"; json := None |};
     on_post := fun _ _ => token_response |}.

Definition single : extractor :=
  {| api := config; offset := 0; kind := DeviationExtractor page_url |}.

Definition journal_document : string :=
  journal_format "Me &amp; &lt;you&gt;" "<p>Dear diary, ...</p>" "p { margin: 0 }".

(** The folders of a user, listed in one page. *)
Definition folder (folderid name : string) : value :=
  VDict (<["folderid" := VStr folderid]> (<["name" := VStr name]> ∅)).

Definition folders_site (folders : list value) : server :=
  {| on_get := fun _ url _ =>
       if bool_decide (url = api_url "collections/folders") then
         {| status_code := 200; text := "";
            json := Some (VDict (<["results" := VList folders]>
                                   (<["has_more" := VBool false]> ∅))) |}
       else {| status_code := 404; text := "not found"; json := None |};
     on_post := fun _ _ => token_response |}.

Definition descriptor (title : string) : gmap string value :=
  <["owner" := VStr "rosuuri"]> (<["title" := VStr title]> (<["index" := VStr "58951174"]> ∅)).

Definition favorites (title : string) (folders : list value) : world :=
  start (folders_site folders) [VDict (descriptor title)].

Definition my_folders : list value := [folder "F0" "Featured"; folder "F1" "My Art"].

(** The listing of [my_folders], as the first call receives it, and the
    world after that call. *)
Definition my_listing : value :=
  VDict (<["results" := VList my_folders]> (<["has_more" := VBool false]> ∅)).

Definition listed : world :=
  (_call config "collections/folders" (Some (listing_params config "rosuuri" 0))
     (favorites "My-Art" my_folders)).2.

(** A gallery of three records in two pages; any other offset gives a
    response without results. *)
Definition gallery_page (params : option (gmap string value)) : value :=
  match params with
  | Some p =>
      match p !! "offset" with
      | Some (VInt 0) =>
          VDict (<["results" := VList [VDict (with_url "https://x/art/a-1");
                                       VDict (with_url "https://x/art/b-2")]]>
                   (<["has_more" := VBool true]> (<["next_offset" := VInt 2]> ∅)))
      | Some (VInt 2) =>
          VDict (<["results" := VList [VDict (with_url "https://x/art/c-3")]]>
                   (<["has_more" := VBool false]> (<["next_offset" := VNone]> ∅)))
      | _ => VDict (<["error" := VStr "invalid_request"]> ∅)
      end
  | None => VDict ∅
  end.

Definition gallery_site : server :=
  {| on_get := fun _ _ params =>
       {| status_code := 200; text := ""; json := Some (gallery_page params) |};
     on_post := fun _ _ => token_response |}.

(** The worlds of the run over the two pages of that gallery: after
    the first call, after its two records, after the second call, and
    after the last record. *)
Definition gallery_start : world := start gallery_site [].

Definition gallery_called : world :=
  (_call config "gallery/all" (Some (listing_params config "shimoda7" 0))
     gallery_start).2.

Definition gallery_first : world :=
  with_heap (heap gallery_called
             ++ [VDict (with_url "https://x/art/a-1");
                 VDict (with_url "https://x/art/b-2")]) gallery_called.

Definition gallery_called_again : world :=
  (_call config "gallery/all"
     (Some (<["offset" := VInt 2]> (listing_params config "shimoda7" 0)))
     gallery_first).2.

Definition gallery_end : world :=
  with_heap (heap gallery_called_again ++ [VDict (with_url "https://x/art/c-3")])
    gallery_called_again.

(** A server that answers every request with the JSON text [null]. *)
Definition null_site : server :=
  {| on_get := fun _ _ _ => {| status_code := 200; text := "null"; json := Some VNone |};
     on_post := fun _ _ => token_response |}.

Definition null_start : world := start null_site [].

Definition null_called : world :=
  (_call config "gallery/all" (Some (listing_params config "shimoda7" 0))
     null_start).2.

Definition renditions_px : list value :=
  [rendition "480px" "http://v/480.mp4"; rendition "720px" "http://v/720.mp4"].

(** An API that is rate limited once and then answers with [body]. *)
Definition flaky (body : value) : server :=
  {| on_get := fun n _ _ =>
       match n with
       | O => {| status_code := 429; text := "slow down"; json := None |}
       | S _ => {| status_code := 200; text := ""; json := Some body |}
       end;
     on_post := fun _ _ => token_response |}.

(** A server whose token endpoint refuses the client. *)
Definition locked : server :=
  {| on_get := fun _ _ _ => {| status_code := 200; text := ""; json := Some (VDict ∅) |};
     on_post := fun _ _ =>
       {| status_code := 401; text := "invalid_client"; json := None |} |}.

(** A gallery whose response has results and nothing else. *)
Definition truncated_page : value :=
  VDict (<["results" := VList [VDict (with_url "https://x/art/a-1")]]> ∅).

Definition truncated_site : server :=
  {| on_get := fun _ _ _ =>
       {| status_code := 200; text := ""; json := Some truncated_page |};
     on_post := fun _ _ => token_response |}.

Definition truncated : world := start truncated_site [].

(** All favourites of a user with one folder. *)
Definition everything : extractor :=
  {| api := config; offset := 0;
     kind := FavoriteExtractor "rosuuri" "All" true 0%nat |}.

Definition one_folder : list value := [folder "F0" "Featured"].

Definition one_listing : value :=
  VDict (<["results" := VList one_folder]> (<["has_more" := VBool false]> ∅)).

Definition one_listed : world :=
  (_call config "collections/folders" (Some (listing_params config "rosuuri" 0))
     (favorites "All" one_folder)).2.

(** The descriptor and a record of the favourites. *)
Definition favourite : world :=
  start (failing [])
    [VDict (descriptor "All"); VDict (with_url "https://x.deviantart.com/art/Title-42")].

Definition shimoda7 : extractor :=
  {| api := config; offset := 0; kind := GalleryExtractor "shimoda7" |}.

End Sample.

(** * Properties *)

(** ** Strings *)

Lemma rsplit1_None sep s : has_char sep s = false -> rsplit1 sep s = None.
Proof.
  induction s as [|c s IH]; simpl; [done|].
  intros [Hc Hs]%orb_false_elim. rewrite IH by done.
  by rewrite Hc.
Qed.

Lemma rsplit1_app sep a b :
  has_char sep b = false -> rsplit1 sep (a +:+ String sep b) = Some (a, b).
Proof.
  intros Hb. induction a as [|c a IH]; simpl.
  - rewrite rsplit1_None by done. by rewrite bool_decide_true.
  - by rewrite IH.
Qed.

Lemma rsplit1_Some sep s a b :
  rsplit1 sep s = Some (a, b) -> s = a +:+ String sep b /\ has_char sep b = false.
Proof.
  revert a. induction s as [|c s IH]; intros a; simpl; [done|].
  destruct (rsplit1 sep s) as [[a' b']|] eqn:Hs.
  - intros [= <- <-]. destruct (IH a' eq_refl) as [-> Hb]. done.
  - case_bool_decide as Hc; [|done]. intros [= <- <-]. subst c. split; [done|].
    clear IH. induction s as [|d s IHs]; simpl in *; [done|].
    destruct (rsplit1 sep s) as [[??]|]; [done|].
    case_bool_decide; [done|]. simpl. by apply IHs.
Qed.

Lemma drop_last_snoc s c : drop_last (s +:+ String c EmptyString) = s.
Proof.
  induction s as [|d s IH]; simpl; [done|].
  rewrite IH. by destruct s.
Qed.

Lemma is_digit_not_space c : is_digit c = true -> is_space c = false.
Proof. destruct c as [[] [] [] [] [] [] [] []]; by vm_compute. Qed.

Lemma is_digit_not_sign c :
  is_digit c = true -> c <> "-"%char /\ c <> "+"%char /\ c <> "_"%char.
Proof. destruct c as [[] [] [] [] [] [] [] []]; by vm_compute. Qed.

Lemma lstrip_digits s : all_chars is_digit s = true -> lstrip s = s.
Proof.
  destruct s as [|c s]; simpl; [done|].
  intros [Hc _]%andb_prop. by rewrite is_digit_not_space.
Qed.

Lemma rstrip_digits s : all_chars is_digit s = true -> rstrip s = s.
Proof.
  induction s as [|c s IH]; simpl; [done|].
  intros [Hc Hs]%andb_prop. rewrite IH by done.
  destruct s; [|done]. by rewrite is_digit_not_space.
Qed.

Lemma int_digits_digits acc s :
  all_chars is_digit s = true ->
  int_digits acc false s =
    Some ((fix go (acc : Z) (s : string) : Z :=
             match s with
             | EmptyString => acc
             | String c r => go (10 * acc + digit_val c) r
             end) acc s).
Proof.
  revert acc. induction s as [|c s IH]; intros acc; simpl; [done|].
  intros [Hc Hs]%andb_prop. rewrite Hc. by apply IH.
Qed.

(** On a non-empty string of digits [int] is the decimal value. *)
Lemma int_of_string_digits s :
  s <> "" -> all_chars is_digit s = true -> int_of_string s = Some (decimal s).
Proof.
  intros Hne Hd. unfold int_of_string.
  rewrite rstrip_digits, lstrip_digits by done.
  destruct s as [|c s]; [done|]. simpl in Hd.
  apply andb_prop in Hd as [Hc Hs].
  assert (int_unsigned (String c s) = Some (decimal (String c s))) as Hu.
  { unfold int_unsigned, decimal. rewrite Hc.
    by rewrite int_digits_digits. }
  destruct (is_digit_not_sign c Hc) as (Hm & Hp & _).
  destruct c as [[] [] [] [] [] [] [] []]; try done.
Qed.

(** ** [max] *)

Section Max.
Context {A : Type} (key : A -> result Z).

Lemma max_from_spec (l : list A) (ns : list Z) (best : A) (kbest : Z) :
  Forall2 (fun x n => key x = Ok n) l ns ->
  exists (i : nat) (v : A) (n : Z),
    (best :: l) !! i = Some v /\ (kbest :: ns) !! i = Some n /\
    max_from key best kbest l = Ok v /\
    (forall (j : nat) (m : Z), (kbest :: ns) !! j = Some m -> m <= n) /\
    (forall (j : nat) (m : Z), (j < i)%nat -> (kbest :: ns) !! j = Some m -> m < n).
Proof.
  intros H. revert best kbest.
  induction H as [|x n l ns Hx _ IH]; intros best kbest.
  - exists 0%nat, best, kbest. repeat split; try done.
    + intros [|j] m; simpl; [intros [= ->]; lia|done].
    + intros j m Hj. lia.
  - simpl. rewrite Hx. destruct (Z.ltb_spec kbest n) as [Hlt|Hge].
    + destruct (IH x n) as (i & v & k & Hi & Hk & Hmax & Hall & Hfirst).
      exists (S i), v, k. repeat split; try done.
      * intros [|j] m; simpl.
        -- intros [= ->]. specialize (Hall 0%nat n eq_refl). lia.
        -- apply Hall.
      * intros [|j] m Hj; simpl.
        -- intros [= ->]. specialize (Hall 0%nat n eq_refl). lia.
        -- apply Hfirst. lia.
    + destruct (IH best kbest) as (i & v & k & Hi & Hk & Hmax & Hall & Hfirst).
      assert (kbest <= k) as Hbk by (apply (Hall 0%nat); done).
      destruct i as [|i].
      * exists 0%nat, v, k. repeat split; try done.
        -- intros [|[|j]] m; simpl.
           ++ apply (Hall 0%nat).
           ++ intros [= ->]. lia.
           ++ apply (Hall (S j)).
        -- intros j m Hj. lia.
      * assert (kbest < k) as Hlt by (apply (Hfirst 0%nat); [lia|done]).
        exists (S (S i)), v, k. repeat split; try done.
        -- intros [|[|j]] m; simpl.
           ++ apply (Hall 0%nat).
           ++ intros [= ->]. lia.
           ++ apply (Hall (S j)).
        -- intros [|[|j]] m Hj; simpl.
           ++ apply (Hfirst 0%nat). lia.
           ++ intros [= ->]. lia.
           ++ apply (Hfirst (S j)). lia.
Qed.

(** [max] returns an element with the largest key, the first of them. *)
Lemma py_max_spec (l : list A) (ns : list Z) :
  l <> [] ->
  Forall2 (fun x n => key x = Ok n) l ns ->
  exists (i : nat) (v : A) (n : Z),
    l !! i = Some v /\ ns !! i = Some n /\ py_max key l = Ok v /\
    (forall (j : nat) (m : Z), ns !! j = Some m -> m <= n) /\
    (forall (j : nat) (m : Z), (j < i)%nat -> ns !! j = Some m -> m < n).
Proof.
  intros Hne H. destruct H as [|x n l ns Hx H]; [done|].
  simpl. rewrite Hx. by apply max_from_spec.
Qed.
End Max.

(** Over a dictionary the selection fails whatever the order of its
    keys is: the quality of a key, a string, cannot be read. *)
Lemma select_video_of_dict (m : gmap string value) :
  select_video (VDict m)
  = Raise (if bool_decide (m = ∅) then ValueError else TypeError).
Proof.
  unfold select_video. simpl. destruct (map_to_list m) as [|[k x] l] eqn:Hl.
  - apply map_to_list_empty_iff in Hl as ->. by rewrite bool_decide_true.
  - rewrite bool_decide_false; [done|]. intros ->. by rewrite map_to_list_empty in Hl.
Qed.

Lemma video_quality_digits x n : quality_of x n -> video_quality x = Ok n.
Proof.
  intros (d & c & Hq & Hne & Hd & ->). unfold video_quality. rewrite Hq. simpl.
  by rewrite drop_last_snoc, int_of_string_digits.
Qed.

(** C5, amended: among renditions whose quality is a number followed by
    exactly one character, the selected one is the first of those with the
    numerically largest quality; the last character is dropped whatever it
    is, and only that one. *)
Theorem select_video_largest (l : list value) (ns : list Z) :
  l <> [] ->
  Forall2 quality_of l ns ->
  exists (i : nat) (v : value) (n : Z),
    l !! i = Some v /\ ns !! i = Some n /\ select_video (VList l) = Ok v /\
    (forall (j : nat) (m : Z), ns !! j = Some m -> m <= n) /\
    (forall (j : nat) (m : Z), (j < i)%nat -> ns !! j = Some m -> m < n).
Proof.
  intros Hne H. unfold select_video. simpl. apply py_max_spec; [done|].
  eapply Forall2_impl; [exact H|]. apply video_quality_digits.
Qed.

Lemma select_video_largest_witness :
  exists (i : nat) (v : value) (n : Z),
    Sample.renditions !! i = Some v /\ [480; 1080; 720] !! i = Some n /\
    select_video (VList Sample.renditions) = Ok v /\
    (forall (j : nat) (m : Z), [480; 1080; 720] !! j = Some m -> m <= n) /\
    (forall (j : nat) (m : Z), (j < i)%nat -> [480; 1080; 720] !! j = Some m -> m < n).
Proof.
  apply (select_video_largest Sample.renditions [480; 1080; 720]); [done|].
  repeat constructor.
  - exists "480", "p"%char. by vm_compute.
  - exists "1080", "p"%char. by vm_compute.
  - exists "720", "p"%char. by vm_compute.
Defined.

(** Of the qualities 480p, 720p and 1080p the last one is selected,
    wherever it stands in the list. *)
Example select_video_1080p :
  select_video (VList Sample.renditions)
  = Ok (Sample.rendition "1080p" "http://v/1080.mp4").
Proof. by vm_compute. Qed.

(** C5 as stated fails: a unit of two characters keeps its first
    character after [[:-1]], and [int] rejects the rest. *)
Lemma select_video_unit_counterexample :
  forallb has_unit_quality Sample.renditions_px = true /\
  select_video (VList Sample.renditions_px) = Raise ValueError.
Proof. by vm_compute. Qed.

(** ** The heap *)

Lemma with_heap_id w : with_heap (heap w) w = w.
Proof. by destruct w. Qed.

Lemma obj_dict_lookup w r m : obj w r = VDict m -> heap w !! r = Some (VDict m).
Proof. unfold obj. destruct (heap w !! r) as [v|]; simpl; [by intros ->|done]. Qed.

Lemma obj_update_eq w r v m : obj w r = VDict m -> obj (update r v w) r = v.
Proof.
  intros H%obj_dict_lookup. unfold obj, update. simpl.
  rewrite list_lookup_insert_eq; [done|]. by eapply lookup_lt_Some.
Qed.

Lemma obj_update_ne w r r' v : r <> r' -> obj (update r v w) r' = obj w r'.
Proof. intros H. unfold obj, update. simpl. by rewrite list_lookup_insert_ne. Qed.

Lemma update_update w r v v' : update r v' (update r v w) = update r v' w.
Proof. unfold update. simpl. unfold with_heap. simpl. by rewrite list_insert_insert_eq. Qed.

Lemma update_id w r v : heap w !! r = Some v -> update r v w = w.
Proof. intros H. unfold update. rewrite list_insert_id by done. apply with_heap_id. Qed.

Lemma setitem_dict w r m k v :
  obj w r = VDict m -> setitem r k v w = (Ok tt, update r (VDict (<[k := v]> m)) w).
Proof. intros H. unfold setitem. by rewrite H. Qed.

Lemma getitem_dict w r m k :
  obj w r = VDict m ->
  getitem r k w = (match m !! k with Some x => Ok x | None => Raise (KeyError k) end, w).
Proof. intros H. unfold getitem. by rewrite H. Qed.

Lemma contains_dict w r m k :
  obj w r = VDict m -> contains k r w = (Ok (bool_decide (is_Some (m !! k))), w).
Proof. intros H. unfold contains. by rewrite H. Qed.

(** [if key in deviation: del deviation[key]] *)
Lemma strip_key w r m key :
  obj w r = VDict m ->
  bind (contains key r) (fun present => if present then delitem r key else ret tt) w
  = (Ok tt, update r (VDict (delete key m)) w).
Proof.
  intros H. unfold bind. rewrite (contains_dict _ _ m) by done.
  case_bool_decide as Hk.
  - unfold delitem. rewrite H. destruct Hk as [x Hx]. by rewrite Hx.
  - apply eq_None_not_Some in Hk. rewrite delete_id by done.
    rewrite update_id; [done|]. by apply obj_dict_lookup.
Qed.

(** ** [prepare] *)

(** C3, amended: on a record without [url], or whose [url] is a string
    with a hyphen, normalization does not raise; it removes [stats],
    [preview] and [thumbs] and sets [index] to the text after the last
    hyphen of [url], kept as text whatever it holds, and to [0] when the
    record has no [url]. *)
Theorem prepare_index (w : world) (r : loc) (m : gmap string value) (index : value) :
  obj w r = VDict m ->
  url_index (m !! "url") index ->
  prepare r w = (Ok tt, update r (VDict (<["index" := index]> (strip m))) w).
Proof.
  intros Hobj Hurl. unfold prepare. simpl.
  unfold bind at 1. unfold bind at 1.
  rewrite (strip_key w r m "stats") by done.
  set (w1 := update r (VDict (delete "stats" m)) w).
  assert (obj w1 r = VDict (delete "stats" m)) as H1 by by eapply obj_update_eq.
  unfold bind at 1.
  rewrite (strip_key w1 r _ "preview") by done.
  set (w2 := update r (VDict (delete "preview" (delete "stats" m))) w1).
  assert (obj w2 r = VDict (delete "preview" (delete "stats" m))) as H2
    by by eapply obj_update_eq.
  unfold bind at 1.
  rewrite (strip_key w2 r _ "thumbs") by done. fold (strip m).
  set (w3 := update r (VDict (strip m)) w2).
  assert (obj w3 r = VDict (strip m)) as H3 by by eapply obj_update_eq.
  assert (w3 = update r (VDict (strip m)) w) as Hw3.
  { unfold w3, w2, w1. by rewrite !update_update. }
  assert (strip m !! "url" = m !! "url") as Hlook.
  { unfold strip. by rewrite !lookup_delete_ne. }
  unfold ret at 1. unfold except_KeyError, bind.
  rewrite (getitem_dict w3 r (strip m)) by done. rewrite Hlook.
  inversion Hurl as [Hnone|a b Hb Hsome]; subst index; simpl.
  - rewrite (setitem_dict w3 r (strip m)) by done.
    by rewrite Hw3, update_update.
  - unfold rsplit. change (a +:+ "-" +:+ b) with (a +:+ String hyphen b).
    rewrite rsplit1_app by done. simpl.
    rewrite (setitem_dict w3 r (strip m)) by done.
    by rewrite Hw3, update_update.
Qed.

Lemma prepare_index_witness :
  prepare 0%nat Sample.art
  = (Ok tt,
     update 0%nat
       (VDict (<["index" := VStr "42"]>
                 (strip (Sample.with_url "https://x.deviantart.com/art/Title-42"))))
       Sample.art).
Proof.
  apply (prepare_index Sample.art 0%nat
           (Sample.with_url "https://x.deviantart.com/art/Title-42") (VStr "42")).
  - reflexivity.
  - exact (url_index_hyphen "https://x.deviantart.com/art/Title" "42" eq_refl).
Defined.

(** C3 as stated fails: a [url] without hyphen makes [prepare] raise
    [IndexError], which its [except KeyError] does not catch, and a last
    segment that is no number becomes the index as it is, not [0]. *)
Lemma prepare_index_counterexample :
  (prepare 0%nat Sample.stash).1 = Raise IndexError /\
  py_getitem (obj (prepare 0%nat Sample.art_v2).2 0%nat) "index" = Ok (VStr "v2").
Proof. by vm_compute. Qed.

Section Keeps.
Context {B : Type} (f : world -> B).

Lemma keeps_ret {A} (a : A) : keeps f (ret a).
Proof. done. Qed.

Lemma keeps_raise {A} (e : exn) : keeps f (@raise A e).
Proof. done. Qed.

Lemma keeps_lift {A} (r : result A) : keeps f (lift r).
Proof. done. Qed.

Lemma keeps_get_world : keeps f get_world.
Proof. done. Qed.

Lemma keeps_bind {A C} (m : M A) (k : A -> M C) :
  keeps f m -> (forall a, keeps f (k a)) -> keeps f (bind m k).
Proof.
  intros Hm Hk w. unfold bind. specialize (Hm w).
  destruct (m w) as [[a|e] w']; simpl in *; [|done].
  by rewrite Hk.
Qed.

Lemma keeps_modify (g : world -> world) :
  (forall w, f (g w) = f w) -> keeps f (modify g).
Proof. intros H w. apply H. Qed.

Lemma keeps_if {A} (b : bool) (m1 m2 : M A) :
  keeps f m1 -> keeps f m2 -> keeps f (if b then m1 else m2).
Proof. by destruct b. Qed.

Lemma keeps_except_KeyError {A} (m h : M A) :
  keeps f m -> keeps f h -> keeps f (except_KeyError m h).
Proof.
  intros Hm Hh w. unfold except_KeyError. specialize (Hm w).
  destruct (m w) as [[a|[]] w']; simpl in *; try done.
  by rewrite Hh.
Qed.

Lemma keeps_for_each {A} (l : list A) (body : A -> M unit) :
  (forall x, keeps f (body x)) -> keeps f (for_each l body).
Proof.
  intros H. induction l as [|x l IH]; simpl; [apply keeps_ret|].
  apply keeps_bind; [apply H|done].
Qed.

Lemma keeps_cache (maxage : Z) (key : string) (g : M string) :
  (forall c w, f (with_token_cache c w) = f w) ->
  keeps f g -> keeps f (cache maxage key g).
Proof.
  intros Hc Hg w. unfold cache. specialize (Hg w).
  destruct (token_cache w !! key) as [[v issued]|].
  - destruct (now w - issued <=? maxage); [done|].
    destruct (g w) as [[v'|e] w']; simpl in *; [by rewrite Hc|done].
  - destruct (g w) as [[v'|e] w']; simpl in *; [by rewrite Hc|done].
Qed.
End Keeps.

(** Goes through a computation made of the operations above. *)
Ltac frame := repeat (intros; first
  [ apply keeps_ret | apply keeps_raise | apply keeps_lift | apply keeps_get_world
  | apply keeps_bind | apply keeps_except_KeyError | apply keeps_for_each
  | apply keeps_modify; intros; reflexivity
  | apply keeps_cache; [intros; reflexivity|]
  | match goal with
    | |- keeps _ (match ?x with _ => _ end) => destruct x
    | |- keeps _ (if ?b then _ else _) => destruct b
    end
  | assumption ]).

(** *** The session *)

Lemma keeps_session_post {B} (f : world -> B) data :
  (forall n w, f (with_posts n w) = f w) -> keeps f (session_post data).
Proof. intros H w. apply H. Qed.

Lemma keeps_session_get {B} (f : world -> B) url params :
  (forall n w, f (with_gets n w) = f w) -> keeps f (session_get url params).
Proof. intros H w. apply H. Qed.

Lemma keeps_sleep {B} (f : world -> B) d :
  (forall t w, f (with_now t w) = f w) -> keeps f (sleep d).
Proof. intros H. unfold sleep. destruct (d <? 0); [done|]. intros w. apply H. Qed.

Lemma keeps_authenticate_impl {B} (f : world -> B) cid secret :
  (forall n w, f (with_posts n w) = f w) -> keeps f (_authenticate_impl cid secret).
Proof.
  intros H. unfold _authenticate_impl.
  apply keeps_bind; [by apply keeps_session_post|]. frame.
Qed.

(** Authentication touches the token cache, the request counter of the
    token endpoint and the headers, and nothing else. *)
Lemma keeps_authenticate {B} (f : world -> B) a :
  (forall n w, f (with_posts n w) = f w) ->
  (forall c w, f (with_token_cache c w) = f w) ->
  (forall h w, f (with_headers h w) = f w) ->
  keeps f (authenticate a).
Proof.
  intros Hp Hc Hh. unfold authenticate, _authenticate_impl_cached.
  apply keeps_bind.
  - apply keeps_cache; [done|]. by apply keeps_authenticate_impl.
  - intros tok w. apply Hh.
Qed.

(** *** Running a computation that returned *)

Lemma bind_ok_inv {A C} (m : M A) (k : A -> M C) w c w' :
  bind m k w = (Ok c, w') ->
  exists a w1, m w = (Ok a, w1) /\ k a w1 = (Ok c, w').
Proof.
  unfold bind. destruct (m w) as [[a|e] w1]; [|done]. eauto.
Qed.

Lemma lift_ok_inv {A} (r : result A) w a w' :
  lift r w = (Ok a, w') -> r = Ok a /\ w' = w.
Proof. unfold lift. by intros [= -> ->]. Qed.

Lemma ret_ok_inv {A} (x : A) w a w' : ret x w = (Ok a, w') -> a = x /\ w' = w.
Proof. unfold ret. by intros [= -> ->]. Qed.

(** ** The token cache *)

Lemma authenticate_impl_world cid secret w :
  (_authenticate_impl cid secret w).2 = with_posts (S (posts w)) w.
Proof.
  unfold _authenticate_impl, bind, session_post. simpl.
  destruct (negb _); [done|].
  destruct (json _) as [body|]; [|done].
  unfold lift. by destruct (py_getitem body "access_token") as [tok|]; simpl.
Qed.

Lemma cache_hit maxage key f w v issued :
  token_cache w !! key = Some (v, issued) ->
  now w - issued <= maxage ->
  cache maxage key f w = (Ok v, w).
Proof.
  intros Hk Hage. unfold cache. rewrite Hk.
  by destruct (Z.leb_spec (now w - issued) maxage); [|lia].
Qed.

Lemma cache_expired maxage key f w v issued :
  token_cache w !! key = Some (v, issued) ->
  maxage < now w - issued ->
  (cache maxage key f w).1 = (f w).1 /\
  posts (cache maxage key f w).2 = posts (f w).2.
Proof.
  intros Hk Hage. unfold cache. rewrite Hk.
  destruct (Z.leb_spec (now w - issued) maxage); [lia|].
  by destruct (f w) as [[v'|e] w'].
Qed.

(** A value the cache returns without calling the function is the one it
    holds; otherwise the function was called and its result stored. *)
Lemma cache_result maxage key f w v w1 :
  cache maxage key f w = (Ok v, w1) ->
  w1 = w \/
  exists w', f w = (Ok v, w') /\
    w1 = with_token_cache (<[key := (v, now w')]> (token_cache w')) w'.
Proof.
  unfold cache. destruct (token_cache w !! key) as [[v0 issued]|].
  - destruct (now w - issued <=? maxage).
    + intros [= <- <-]. by left.
    + destruct (f w) as [[v'|e] w']; [|done]. intros [= <- <-]. right. eauto.
  - destruct (f w) as [[v'|e] w']; [|done]. intros [= <- <-]. right. eauto.
Qed.

(** C6: a token that was requested at time [t] is returned from the cache,
    without a request, by every call for the same client id made up to
    3600 seconds after [t]; a call made later requests a token again and
    answers with what that request gives. *)
Theorem token_reuse_within_ttl (cid secret secret' tok : string) (w w1 w2 : world) :
  _authenticate_impl_cached cid secret w = (Ok tok, w1) ->
  posts w1 = S (posts w) ->
  token_cache w2 !! cid = token_cache w1 !! cid ->
  (now w2 - now w <= 3600 ->
   _authenticate_impl_cached cid secret' w2 = (Ok tok, w2)) /\
  (3600 < now w2 - now w ->
   posts (_authenticate_impl_cached cid secret' w2).2 = S (posts w2) /\
   (_authenticate_impl_cached cid secret' w2).1 = (_authenticate_impl cid secret' w2).1).
Proof.
  intros Hcall Hposts Hsame. unfold _authenticate_impl_cached in *.
  apply cache_result in Hcall as [->|(w' & Himpl & ->)]; [lia|].
  pose proof (authenticate_impl_world cid secret w) as Hw'.
  rewrite Himpl in Hw'. simpl in Hw'. subst w'.
  simpl in Hsame. rewrite lookup_insert_eq in Hsame.
  split; intros Hage.
  - by eapply cache_hit.
  - destruct (cache_expired 3600 cid (_authenticate_impl cid secret') w2 _ _
                Hsame Hage) as [Hres ->].
    by rewrite authenticate_impl_world.
Qed.

Lemma token_reuse_within_ttl_witness :
  _authenticate_impl_cached "5388" "other secret" (with_now 3600 Sample.authenticated)
  = (Ok "Bearer abc", with_now 3600 Sample.authenticated) /\
  posts (_authenticate_impl_cached "5388" "other secret"
           (with_now 3601 Sample.authenticated)).2 = 2%nat.
Proof.
  split.
  - apply (token_reuse_within_ttl "5388" "76b08c69cfb27f26d6161f9ab6d061a1"
             "other secret" "Bearer abc" (Sample.start (Sample.failing []) [])
             Sample.authenticated (with_now 3600 Sample.authenticated));
      [reflexivity | reflexivity | reflexivity | simpl; lia].
  - apply (token_reuse_within_ttl "5388" "76b08c69cfb27f26d6161f9ab6d061a1"
             "other secret" "Bearer abc" (Sample.start (Sample.failing []) [])
             Sample.authenticated (with_now 3601 Sample.authenticated));
      [reflexivity | reflexivity | reflexivity | simpl; lia].
Defined.

(** ** [_call] *)

Lemma authenticate_impl_ok cid secret w :
  token_endpoint_ok (srv w) ->
  exists tok, _authenticate_impl cid secret w = (Ok tok, with_posts (S (posts w)) w).
Proof.
  intros Hok. unfold _authenticate_impl, bind, session_post. simpl.
  match goal with |- context [on_post (srv w) (posts w) ?d] =>
    destruct (Hok (posts w) d) as (body & tok & -> & -> & Htok) end.
  simpl. unfold lift. rewrite Htok. simpl. eauto.
Qed.

Lemma authenticate_ok a w :
  token_endpoint_ok (srv w) -> exists w', authenticate a w = (Ok tt, w').
Proof.
  intros Hok. unfold authenticate, _authenticate_impl_cached, bind, cache.
  destruct (authenticate_impl_ok (client_id a) (client_secret a) w Hok) as [tok Himpl].
  rewrite Himpl.
  destruct (token_cache w !! client_id a) as [[v issued]|]; [|by eauto].
  destruct (now w - issued <=? 3600); by eauto.
Qed.

Lemma authenticate_not_OutOfFuel a w : (authenticate a w).1 <> Raise OutOfFuel.
Proof.
  unfold authenticate, _authenticate_impl_cached, bind, cache.
  assert ((_authenticate_impl (client_id a) (client_secret a) w).1 <> Raise OutOfFuel)
    as Himpl.
  { unfold _authenticate_impl, bind, session_post. simpl.
    destruct (negb _); [done|]. destruct (json _) as [body|]; [|done].
    unfold lift. destruct (py_getitem body "access_token") as [[]|[]] eqn:Hb; try done.
    all: unfold py_getitem in Hb; destruct body; try done.
    all: by destruct (_ !! _). }
  destruct (_authenticate_impl (client_id a) (client_secret a) w) as [[v|e] w'].
  all: destruct (token_cache w !! client_id a) as [[v0 issued]|];
    [destruct (now w - issued <=? 3600)|]; simpl in *.
  all: try done.
  all: by intros [= ->].
Qed.

(** One round of the loop that ends with a response other than 200. *)
Lemma call_loop_retry fuel a url params tries w :
  token_endpoint_ok (srv w) ->
  0 <= delay w ->
  status_code (on_get (srv w) (gets w) url params) <> 200 ->
  exists w',
    srv w' = srv w /\ gets w' = S (gets w) /\ 0 <= delay w' /\
    call_loop (S fuel) a url params tries w =
      if tries + 1 >? 3
      then (Raise (FatalError (text (on_get (srv w) (gets w) url params))), w')
      else call_loop fuel a url params (tries + 1) w'.
Proof.
  intros Hok Hdelay Hstatus.
  (* the pause *)
  set (pause := if negb (delay w =? 0) then sleep (delay w) else ret tt).
  assert (exists w1, pause w = (Ok tt, w1) /\ srv w1 = srv w /\ gets w1 = gets w /\
                     delay w1 = delay w) as (w1 & Hpause & Hs1 & Hg1 & Hd1).
  { unfold pause. destruct (delay w =? 0); simpl; [by eauto|].
    unfold sleep. destruct (Z.ltb_spec (delay w) 0); [lia|].
    eexists. by split. }
  (* the authentication *)
  destruct (authenticate_ok a w1) as [w2 Hauth]; [by rewrite Hs1|].
  assert (srv w2 = srv w /\ gets w2 = gets w /\ delay w2 = delay w) as (Hs2 & Hg2 & Hd2).
  { rewrite <- Hs1, <- Hg1, <- Hd1.
    pose proof (keeps_authenticate srv a) as Ks.
    pose proof (keeps_authenticate gets a) as Kg.
    pose proof (keeps_authenticate delay a) as Kd.
    specialize (Ks ltac:(done) ltac:(done) ltac:(done) w1).
    specialize (Kg ltac:(done) ltac:(done) ltac:(done) w1).
    specialize (Kd ltac:(done) ltac:(done) ltac:(done) w1).
    by rewrite Hauth in Ks, Kg, Kd. }
  (* the request *)
  set (resp := on_get (srv w) (gets w) url params) in *.
  assert (session_get url params w2 = (Ok resp, with_gets (S (gets w)) w2)) as Hget.
  { unfold session_get, resp. by rewrite Hs2, Hg2. }
  assert ((status_code resp =? 200) = false) as H200 by by apply Z.eqb_neq.
  set (w3 := with_gets (S (gets w)) w2) in *.
  assert (exists w4, srv w4 = srv w /\ gets w4 = S (gets w) /\ 0 <= delay w4 /\
    (if status_code resp =? 429
     then bind (modify (fun w => with_delay (delay w + 1) w))
            (fun _ => bind get_world (fun w => log_add (LogRateLimit (delay w))))
     else bind (modify (with_delay 1))
            (fun _ => log_add (LogHttpStatus (status_code resp) tries))) w3
    = (Ok tt, w4)) as (w4 & Hs4 & Hg4 & Hd4 & Hbranch).
  { destruct (status_code resp =? 429); eexists; (split; [|split; [|split; [|reflexivity]]]);
      simpl; try done; lia. }
  exists w4. repeat split; try done.
  cbn [call_loop]. unfold bind at 1. unfold get_world at 1. fold pause.
  unfold bind at 1. rewrite Hpause.
  unfold bind at 1. rewrite Hauth.
  unfold bind at 1. rewrite Hget. rewrite H200.
  unfold bind at 1. rewrite Hbranch. by destruct (tries + 1 >? 3).
Qed.

(** The loop ends by itself within the rounds that [tries] leaves, and
    each round sends one request. *)
Lemma call_loop_bound fuel a url params tries w :
  tries <= 3 ->
  (Z.to_nat (4 - tries) <= fuel)%nat ->
  (call_loop fuel a url params tries w).1 <> Raise OutOfFuel /\
  (gets (call_loop fuel a url params tries w).2 <= gets w + Z.to_nat (4 - tries))%nat.
Proof.
  revert tries w. induction fuel as [|fuel IH]; intros tries w Htries Hfuel; [lia|].
  destruct (call_loop (S fuel) a url params tries w) as [res w'] eqn:Hcall.
  cbn [call_loop] in Hcall. unfold bind at 1 in Hcall. unfold get_world at 1 in Hcall.
  set (pause := if negb (delay w =? 0) then sleep (delay w) else ret tt) in Hcall.
  assert (gets (pause w).2 = gets w /\ (pause w).1 <> Raise OutOfFuel) as [Hg1 Hp1].
  { unfold pause, sleep. destruct (negb _); [|by split].
    destruct (delay w <? 0); simpl; by split. }
  unfold bind at 1 in Hcall. destruct (pause w) as [[[]|e] w1]; simpl in Hg1, Hp1.
  2: { injection Hcall as <- <-. simpl. split; [by intros [= ->]|lia]. }
  pose proof (keeps_authenticate gets a ltac:(done) ltac:(done) ltac:(done) w1) as Hg2.
  pose proof (authenticate_not_OutOfFuel a w1) as Hp2.
  unfold bind at 1 in Hcall. destruct (authenticate a w1) as [[[]|e] w2]; simpl in Hg2, Hp2.
  2: { injection Hcall as <- <-. simpl. split; [by intros [= ->]|lia]. }
  unfold bind at 1 in Hcall. unfold session_get at 1 in Hcall.
  destruct (status_code _ =? 200).
  { injection Hcall as <- <-. simpl. split; [done|lia]. }
  set (w3 := with_gets (S (gets w2)) w2) in Hcall.
  unfold bind at 1 in Hcall.
  match type of Hcall with context [match ?m w3 with _ => _ end] =>
    assert (exists w4, m w3 = (Ok tt, w4) /\ gets w4 = S (gets w2)) as (w4 & Hm & Hg4)
  end.
  { destruct (status_code _ =? 429); eexists; by split. }
  rewrite Hm in Hcall.
  destruct (Z.gtb_spec (tries + 1) 3) as [Hlast|Hmore].
  - injection Hcall as <- <-. simpl. split; [done|lia].
  - destruct (IH (tries + 1) w4) as [Hres Hgets]; [lia|lia|].
    rewrite Hcall in Hres, Hgets. simpl in *.
    split; [done|]. etrans; [exact Hgets|]. lia.
Qed.

(** C2: one call never runs out of rounds and never sends more than three
    requests; when the token endpoint works and the three next responses
    are not 200, whatever mix of 429 and other codes they are, the call
    raises the fatal error with the body of the third one, after exactly
    three requests. *)
Theorem call_retry_budget (a : api_config) (endpoint : string)
    (params : option (gmap string value)) (w : world) :
  (_call a endpoint params w).1 <> Raise OutOfFuel /\
  (gets (_call a endpoint params w).2 <= gets w + 3)%nat /\
  (token_endpoint_ok (srv w) ->
   0 <= delay w ->
   (forall i : nat, (i < 3)%nat ->
      status_code (on_get (srv w) (gets w + i) (api_url endpoint) params) <> 200) ->
   (_call a endpoint params w).1
   = Raise (FatalError (text (on_get (srv w) (gets w + 2) (api_url endpoint) params))) /\
   gets (_call a endpoint params w).2 = (gets w + 3)%nat).
Proof.
  unfold _call, bind.
  destruct (call_loop_bound 3 a (api_url endpoint) params 1 w) as [Hres Hgets];
    [lia|simpl; lia|].
  split; [|split].
  - destruct (call_loop 3 a (api_url endpoint) params 1 w) as [[resp|e] w']; simpl in *.
    + by destruct (json resp).
    + by intros [= ->].
  - destruct (call_loop 3 a (api_url endpoint) params 1 w) as [[resp|e] w']; simpl in *.
    + destruct (json resp); simpl; lia.
    + lia.
  - intros Hok Hdelay Hstatus. clear Hres Hgets.
    destruct (call_loop_retry 2 a (api_url endpoint) params 1 w) as
      (w1 & Hs1 & Hg1 & Hd1 & ->); [done|done|..].
    { specialize (Hstatus 0%nat ltac:(lia)). by rewrite Nat.add_0_r in Hstatus. }
    change (1 + 1 >? 3) with false. cbv iota.
    destruct (call_loop_retry 1 a (api_url endpoint) params (1 + 1) w1) as
      (w2 & Hs2 & Hg2 & Hd2 & ->); [by rewrite Hs1|done|..].
    { rewrite Hs1, Hg1. specialize (Hstatus 1%nat ltac:(lia)).
      by replace (gets w + 1)%nat with (S (gets w)) in Hstatus by lia. }
    change (1 + 1 + 1 >? 3) with false. cbv iota.
    destruct (call_loop_retry 0 a (api_url endpoint) params (1 + 1 + 1) w2) as
      (w3 & Hs3 & Hg3 & Hd3 & ->); [by rewrite Hs2, Hs1|done|..].
    { rewrite Hs2, Hs1, Hg2, Hg1. specialize (Hstatus 2%nat ltac:(lia)).
      by replace (gets w + 2)%nat with (S (S (gets w))) in Hstatus by lia. }
    change (1 + 1 + 1 + 1 >? 3) with true. cbv iota. simpl.
    rewrite Hs2, Hs1, Hg2, Hg1, Hg3.
    replace (gets w + 2)%nat with (S (S (gets w))) by lia.
    split; [done|lia].
Qed.

Lemma call_retry_budget_witness :
  (_call Sample.config "gallery/all" None Sample.busy).1
  = Raise (FatalError "still slow") /\
  gets (_call Sample.config "gallery/all" None Sample.busy).2 = 3%nat.
Proof.
  apply (call_retry_budget Sample.config "gallery/all" None Sample.busy).
  - intros n data. exists (VDict (<["access_token" := VStr "abc"]> ∅)), "abc".
    by vm_compute.
  - by vm_compute.
  - intros [|[|[|i]]] Hi; [by vm_compute ..|lia].
Defined.

(** ** What the API client leaves unchanged *)

Ltac blind := repeat split; intros; reflexivity.

Lemma emitted_blind : api_blind emitted.
Proof. blind. Qed.

Lemma heap_blind : api_blind heap.
Proof. blind. Qed.

Lemma field_blind r k : api_blind (field r k).
Proof. blind. Qed.

Lemma keeps_log_add {B} (f : world -> B) e :
  (forall l w, f (with_log l w) = f w) -> keeps f (log_add e).
Proof. intros H w. apply H. Qed.

Lemma keeps_call_loop {B} (f : world -> B) fuel a url params tries :
  api_blind f -> keeps f (call_loop fuel a url params tries).
Proof.
  intros (Hnow & Hcache & Hheaders & Hdelay & Hgets & Hposts & Hlog).
  revert tries. induction fuel as [|fuel IH]; intros tries; simpl; [apply keeps_raise|].
  apply keeps_bind; [apply keeps_get_world|]. intros w0.
  apply keeps_bind.
  { apply keeps_if; [by apply keeps_sleep|apply keeps_ret]. }
  intros _. apply keeps_bind; [by apply keeps_authenticate|].
  intros _. apply keeps_bind; [by apply keeps_session_get|].
  intros resp. apply keeps_if; [apply keeps_ret|].
  apply keeps_bind.
  { apply keeps_if.
    - apply keeps_bind; [by apply keeps_modify|].
      intros _. apply keeps_bind; [apply keeps_get_world|].
      intros w1. by apply keeps_log_add.
    - apply keeps_bind; [by apply keeps_modify|].
      intros _. by apply keeps_log_add. }
  intros _. apply keeps_if; [apply keeps_raise|apply IH].
Qed.

Lemma keeps_call {B} (f : world -> B) a endpoint params :
  api_blind f -> keeps f (_call a endpoint params).
Proof.
  intros H. unfold _call. apply keeps_bind; [by apply keeps_call_loop|].
  intros resp. destruct (json resp); apply keeps_ret.
Qed.

(** ** What the operations on one object leave unchanged *)

Lemma keeps_getitem {B} (f : world -> B) r k : keeps f (getitem r k).
Proof. done. Qed.

Lemma keeps_contains {B} (f : world -> B) r k : keeps f (contains k r).
Proof. done. Qed.

Lemma keeps_yield {B} (f : world -> B) msg :
  (forall l w, f (with_emitted l w) = f w) -> keeps f (yield msg).
Proof. intros H w. apply H. Qed.

Lemma keeps_setitem_emitted r k v : keeps emitted (setitem r k v).
Proof. intros w. unfold setitem. by destruct (obj w r). Qed.

Lemma keeps_delitem_emitted r k : keeps emitted (delitem r k).
Proof.
  intros w. unfold delitem. destruct (obj w r) as [| | | | |m|]; try done.
  by destruct (m !! k).
Qed.

(** Another field of the object stays as it is. *)
Lemma keeps_setitem_field r k k' v : k <> k' -> keeps (field r k') (setitem r k v).
Proof.
  intros Hk w. unfold setitem. destruct (obj w r) as [| | | | |m|] eqn:Hobj; try done.
  simpl. unfold field. rewrite (obj_update_eq _ _ _ m) by done. rewrite Hobj.
  simpl. by rewrite lookup_insert_ne.
Qed.

Lemma keeps_delitem_field r k k' : k <> k' -> keeps (field r k') (delitem r k).
Proof.
  intros Hk w. unfold delitem. destruct (obj w r) as [| | | | |m|] eqn:Hobj; try done.
  destruct (m !! k) eqn:Hmk; [|done].
  simpl. unfold field. rewrite (obj_update_eq _ _ _ m) by done. rewrite Hobj.
  simpl. by rewrite lookup_delete_ne.
Qed.

(** ** Messages *)

Section Emits.
Context (P : message -> Prop).

Lemma emits_keeps {A} (m : M A) : keeps emitted m -> emits P m.
Proof. intros H w. exists []. by rewrite H, app_nil_r. Qed.

Lemma emits_bind {A C} (m : M A) (k : A -> M C) :
  emits P m -> (forall a, emits P (k a)) -> emits P (bind m k).
Proof.
  intros Hm Hk w. unfold bind. destruct (Hm w) as (msgs & Hw & HP).
  destruct (m w) as [[a|e] w']; simpl in *; [|by eauto].
  destruct (Hk a w') as (msgs' & Hw' & HP').
  exists (msgs ++ msgs'). rewrite Hw', Hw, app_assoc. split; [done|].
  by apply Forall_app.
Qed.

Lemma emits_yield msg : P msg -> emits P (yield msg).
Proof. intros H w. exists [msg]. split; [done|]. by constructor. Qed.

Lemma emits_if {A} (b : bool) (m1 m2 : M A) :
  emits P m1 -> emits P m2 -> emits P (if b then m1 else m2).
Proof. by destruct b. Qed.
End Emits.

Lemma emits_weaken {A} (P Q : message -> Prop) (m : M A) :
  (forall msg, P msg -> Q msg) -> emits P m -> emits Q m.
Proof.
  intros HPQ Hm w. destruct (Hm w) as (msgs & Hw & HP).
  exists msgs. split; [done|]. by eapply Forall_impl.
Qed.

(** ** [prepare] and [commit] on the messages and on the other fields *)

Lemma keeps_prepare_emitted r : keeps emitted (prepare r).
Proof.
  unfold prepare. apply keeps_bind.
  - apply keeps_for_each. intros key. apply keeps_bind; [apply keeps_contains|].
    intros []; [apply keeps_delitem_emitted|apply keeps_ret].
  - intros _. apply keeps_except_KeyError; [|apply keeps_setitem_emitted].
    apply keeps_bind; [apply keeps_getitem|].
    intros [| | |s| | |]; try apply keeps_raise.
    destruct (rsplit hyphen s !! 1%nat); [apply keeps_setitem_emitted|apply keeps_raise].
Qed.

Lemma keeps_strip_key_field r k key :
  key <> k ->
  keeps (field r k)
    (bind (contains key r) (fun present => if present then delitem r key else ret tt)).
Proof.
  intros Hne. apply keeps_bind; [apply keeps_contains|].
  intros []; [by apply keeps_delitem_field|apply keeps_ret].
Qed.

Lemma keeps_prepare_field r k :
  k <> "stats" -> k <> "preview" -> k <> "thumbs" -> k <> "index" ->
  keeps (field r k) (prepare r).
Proof.
  intros Hs Hp Ht Hi. unfold prepare. apply keeps_bind.
  { simpl for_each.
    repeat (apply keeps_bind; [apply keeps_strip_key_field; congruence|]; intros _).
    apply keeps_ret. }
  intros _. apply keeps_except_KeyError; [|apply keeps_setitem_field; congruence].
  apply keeps_bind; [apply keeps_getitem|].
  intros [| | |s| | |]; try apply keeps_raise.
  destruct (rsplit hyphen s !! 1%nat);
    [apply keeps_setitem_field; congruence|apply keeps_raise].
Qed.

Section Pipeline.
Context {lib : library}.

Lemma keeps_commit_emitted r t : keeps emitted (commit r t).
Proof.
  unfold commit.
  repeat first [apply keeps_bind; intros | apply keeps_lift | apply keeps_getitem
               | apply keeps_setitem_emitted | apply keeps_ret].
Qed.

Lemma keeps_commit_field r t k :
  k <> "target" -> k <> "extension" -> keeps (field r k) (commit r t).
Proof.
  intros Ht He. unfold commit.
  repeat first [apply keeps_bind; intros | apply keeps_lift | apply keeps_getitem
               | apply keeps_setitem_field; congruence | apply keeps_ret].
Qed.

Lemma keeps_prepare_of_emitted self r : keeps emitted (prepare_of self r).
Proof.
  unfold prepare_of. destruct (kind self); try apply keeps_prepare_emitted.
  apply keeps_bind; [apply keeps_prepare_emitted|].
  intros _. apply keeps_setitem_emitted.
Qed.

Lemma keeps_prepare_of_field self r k :
  k <> "stats" -> k <> "preview" -> k <> "thumbs" -> k <> "index" ->
  k <> "collection" ->
  keeps (field r k) (prepare_of self r).
Proof.
  intros Hs Hp Ht Hi Hc. unfold prepare_of.
  destruct (kind self); try by apply keeps_prepare_field.
  apply keeps_bind; [by apply keeps_prepare_field|].
  intros _. apply keeps_setitem_field; congruence.
Qed.

(** The commit of a payload returns a [Url] message for the record. *)
Lemma commit_message r t w msg w' :
  commit r t w = (Ok msg, w') -> is_url_of r msg.
Proof.
  unfold commit, bind, lift.
  destruct (py_getitem t "src") as [url|]; [|done].
  destruct (text_nameext_from_url url t) as [named|]; [|done].
  destruct (setitem r "target" named w) as [[[]|] w1]; [|done].
  destruct (getitem r "target" w1) as [[tg|] w2]; [|done].
  destruct (py_getitem tg "extension") as [ext|]; [|done].
  destruct (setitem r "extension" ext w2) as [[[]|] w3]; [|done].
  intros [= <- <-]. by exists url.
Qed.

Lemma emits_commit_yield r t :
  emits (is_url_of r) (bind (commit r t) (fun m => yield m)).
Proof.
  intros w. unfold bind.
  pose proof (keeps_commit_emitted r t w) as Hk.
  destruct (commit r t w) as [[msg|e] w'] eqn:Hc; simpl in *.
  - exists [msg]. rewrite Hk. split; [done|].
    constructor; [|done]. by eapply commit_message.
  - exists []. by rewrite Hk, app_nil_r.
Qed.

Lemma keeps_deviation_content {B} (f : world -> B) a id :
  api_blind f -> keeps f (deviation_content a id).
Proof. intros H. by apply keeps_call. Qed.

(** The second half of the loop body yields [Url] messages for the
    record, and nothing else. *)
Lemma emits_items_payloads self r : emits (is_url_of r) (items_payloads self r).
Proof.
  unfold items_payloads.
  repeat (apply emits_bind; [apply emits_keeps, keeps_contains|]; intros ?;
          apply emits_bind;
          [apply emits_if; [|apply emits_keeps, keeps_ret];
           (apply emits_bind; [apply emits_keeps, keeps_getitem|]; intros ?) |];
          [try apply emits_commit_yield | intros _]).
  - apply emits_bind; [apply emits_keeps, keeps_lift|]. intros video.
    apply emits_commit_yield.
  - apply emits_bind.
    { apply emits_keeps, keeps_deviation_content, emitted_blind. }
    intros dev. apply emits_bind; [apply emits_keeps, keeps_setitem_emitted|].
    intros _. apply emits_bind; [apply emits_keeps, keeps_getitem|].
    intros title. apply emits_bind.
    { apply emits_keeps. destruct title; first [apply keeps_ret|apply keeps_raise]. }
    intros etitle. apply emits_bind; [apply emits_keeps, keeps_lift|].
    intros html. apply emits_bind; [apply emits_keeps, keeps_lift|].
    intros has_css. apply emits_bind.
    { apply emits_keeps. destruct has_css; [apply keeps_lift|apply keeps_ret]. }
    intros css. apply emits_yield. by eexists.
  - apply emits_bind; [apply emits_keeps, keeps_contains|]. intros has_html.
    apply emits_keeps. destruct has_html; [|apply keeps_ret].
    by apply keeps_log_add.
Qed.

Lemma keeps_commit_yield_field r t k :
  k <> "target" -> k <> "extension" ->
  keeps (field r k) (bind (commit r t) (fun m => yield m)).
Proof.
  intros Ht He. apply keeps_bind; [by apply keeps_commit_field|].
  intros msg. by apply keeps_yield.
Qed.

(** The second half of the loop body writes the fields [target] and
    [extension] of the record, and no other field. *)
Lemma keeps_items_payloads_field self r k :
  k <> "target" -> k <> "extension" -> keeps (field r k) (items_payloads self r).
Proof.
  intros Ht He. unfold items_payloads.
  repeat (apply keeps_bind; [apply keeps_contains|]; intros ?;
          apply keeps_bind;
          [apply keeps_if; [|apply keeps_ret];
           (apply keeps_bind; [apply keeps_getitem|]; intros ?) |];
          [try by apply keeps_commit_yield_field | intros _]).
  - apply keeps_bind; [apply keeps_lift|]. intros video.
    by apply keeps_commit_yield_field.
  - apply keeps_bind; [apply keeps_deviation_content, field_blind|].
    intros dev. apply keeps_bind; [apply keeps_setitem_field; congruence|].
    intros _. apply keeps_bind; [apply keeps_getitem|].
    intros title. apply keeps_bind.
    { destruct title; first [apply keeps_ret|apply keeps_raise]. }
    intros etitle. apply keeps_bind; [apply keeps_lift|].
    intros html. apply keeps_bind; [apply keeps_lift|].
    intros has_css. apply keeps_bind.
    { destruct has_css; [apply keeps_lift|apply keeps_ret]. }
    intros css. by apply keeps_yield.
  - apply keeps_bind; [apply keeps_contains|]. intros has_html.
    destruct has_html; [|apply keeps_ret]. by apply keeps_log_add.
Qed.

(** *** The sources leave the messages alone *)

Lemma keeps_alloc_emitted v : keeps emitted (alloc v).
Proof. done. Qed.

Lemma keeps_pagination_next_emitted fuel a g :
  keeps emitted (_pagination_next fuel a g).
Proof.
  revert g. induction fuel as [|fuel IH]; intros g; simpl; [apply keeps_raise|].
  destruct g as [endpoint params|rest data endpoint params|].
  - apply keeps_bind; [apply keeps_call, emitted_blind|]. intros data.
    apply keeps_bind; [apply keeps_lift|]. intros [].
    + apply keeps_bind; [apply keeps_lift|]. intros results.
      apply keeps_bind; [apply keeps_lift|]. intros elements. apply IH.
    + apply keeps_bind; [by apply keeps_log_add|]. intros _. apply keeps_ret.
  - destruct rest as [|x rest].
    + apply keeps_bind; [apply keeps_lift|]. intros has_more.
      destruct (negb _); [apply keeps_ret|].
      apply keeps_bind; [apply keeps_lift|]. intros next_offset.
      destruct params; [apply IH|apply keeps_raise].
    + apply keeps_bind; [apply keeps_alloc_emitted|]. intros r. apply keeps_ret.
  - apply keeps_ret.
Qed.

Lemma keeps_chain_next_emitted fuel a gs : keeps emitted (chain_next fuel a gs).
Proof.
  induction gs as [|g gs IH]; simpl; [apply keeps_ret|].
  apply keeps_bind; [apply keeps_pagination_next_emitted|].
  intros [[r|] g']; [apply keeps_ret|apply IH].
Qed.

Lemma keeps_source_next_emitted fuel a s : keeps emitted (source_next fuel a s).
Proof.
  destruct s as [[|r l]|g|gs]; simpl; try apply keeps_ret.
  - apply keeps_bind; [apply keeps_pagination_next_emitted|].
    intros [x g']. apply keeps_ret.
  - apply keeps_bind; [apply keeps_chain_next_emitted|].
    intros [x gs']. apply keeps_ret.
Qed.

(** *** The loop *)

Lemma emits_items_record self r la : emits (carries r) (items_record self r la).
Proof.
  unfold items_record.
  apply emits_bind; [apply emits_keeps, keeps_prepare_of_emitted|]. intros _.
  apply emits_bind.
  { apply emits_keeps, keeps_except_KeyError; [apply keeps_getitem|].
    apply keeps_bind; [apply keeps_setitem_emitted|]. intros _. apply keeps_ret. }
  intros author. apply emits_bind.
  { destruct (negb _); [|apply emits_keeps, keeps_ret].
    apply emits_bind; [apply emits_yield; by left|]. intros _.
    apply emits_keeps, keeps_ret. }
  intros la'. apply emits_bind; [|intros _; apply emits_keeps, keeps_ret].
  eapply emits_weaken; [|apply emits_items_payloads]. intros msg Hmsg. by right.
Qed.

Lemma emits_items_loop fuel self s la :
  emits (fun _ => True) (items_loop fuel self s la).
Proof.
  revert s la. induction fuel as [|fuel IH]; intros s la; simpl.
  { apply emits_keeps, keeps_raise. }
  apply emits_bind; [apply emits_keeps, keeps_source_next_emitted|].
  intros [[r|] s']; [|apply emits_keeps, keeps_ret].
  apply emits_bind; [|intros la'; apply IH].
  eapply emits_weaken; [|apply emits_items_record]. done.
Qed.

Lemma items_loop_cons fuel self r rest la :
  items_loop (S fuel) self (SrcList (r :: rest)) la
  = bind (items_record self r la) (fun la' => items_loop fuel self (SrcList rest) la').
Proof. done. Qed.

(** A record without [author] gets the placeholder and is compared as
    [None]. *)
Lemma resolve_absent_author r w :
  field r "author" w = Raise (KeyError "author") ->
  exists w',
    except_KeyError (getitem r "author")
      (bind (setitem r "author" PLACEHOLDER_AUTHOR) (fun _ => ret VNone)) w
    = (Ok VNone, w') /\
    emitted w' = emitted w /\ field r "author" w' = Ok PLACEHOLDER_AUTHOR.
Proof.
  intros Hf. unfold except_KeyError, getitem. fold (field r "author" w). rewrite Hf.
  unfold field in Hf. destruct (obj w r) as [| | | | |m|] eqn:Hobj; try done.
  unfold bind. rewrite (setitem_dict _ _ m) by done.
  eexists. split; [done|]. split; [done|].
  unfold field. rewrite (obj_update_eq _ _ _ m) by done.
  simpl. by rewrite lookup_insert_eq.
Qed.

(** C9: when the first record of the stream has no [author] field, no
    Directory message is emitted for it: after the Version message come
    the Url messages of that record only, although the record itself now
    holds the placeholder author; [last_author] is still [None] for the
    next record. *)
Theorem first_record_without_author (self : extractor) (r : loc) (rest : list loc)
    (w : world) (m : gmap string value) :
  obj w r = VDict m ->
  m !! "author" = None ->
  exists msgs more : list message,
    Forall (is_url_of r) msgs /\
    emitted (items_record self r VNone (yield (Version 1) w).2).2
    = emitted w ++ Version 1 :: msgs /\
    emitted (items_of self (r :: rest) w).2 = emitted w ++ Version 1 :: msgs ++ more /\
    forall la w',
      items_record self r VNone (yield (Version 1) w).2 = (Ok la, w') ->
      la = VNone /\ field r "author" w' = Ok PLACEHOLDER_AUTHOR.
Proof.
  intros Hobj Hauthor.
  set (w0 := (yield (Version 1) w).2).
  assert (emitted w0 = emitted w ++ [Version 1]) as He0 by done.
  assert (field r "author" w0 = Raise (KeyError "author")) as Hf0.
  { unfold field, w0. simpl. change (obj _ r) with (obj w r).
    rewrite Hobj. simpl. by rewrite Hauthor. }
  unfold items_of. unfold bind at 1.
  change (yield (Version 1) w) with (Ok tt, w0). cbv iota.
  clearbody w0.
  (* the first record *)
  assert (exists msgs, Forall (is_url_of r) msgs /\
            emitted (items_record self r VNone w0).2 = emitted w0 ++ msgs /\
            forall la w', items_record self r VNone w0 = (Ok la, w') ->
              la = VNone /\ field r "author" w' = Ok PLACEHOLDER_AUTHOR)
    as (msgs & Hurls & Hemit & Hok).
  { destruct (items_record self r VNone w0) as [res w'] eqn:Hrec.
    unfold items_record in Hrec. unfold bind at 1 in Hrec.
    pose proof (keeps_prepare_of_emitted self r w0) as Hpe.
    pose proof (keeps_prepare_of_field self r "author"
                  ltac:(done) ltac:(done) ltac:(done) ltac:(done) ltac:(done) w0) as Hpf.
    destruct (prepare_of self r w0) as [[[]|e] w1]; simpl in Hpe, Hpf.
    2: { injection Hrec as <- <-. exists []. simpl. rewrite Hpe, app_nil_r.
         by repeat split. }
    rewrite Hf0 in Hpf.
    destruct (resolve_absent_author r w1 Hpf) as (w2 & Hres & He2 & Hf2).
    unfold bind at 1 in Hrec. rewrite Hres in Hrec.
    unfold bind at 1 in Hrec.
    change (negb (py_eq VNone VNone)) with false in Hrec. cbv iota in Hrec.
    unfold ret at 1 in Hrec. unfold bind at 1 in Hrec.
    destruct (emits_items_payloads self r w2) as (msgs & Hmsgs & Hurls).
    pose proof (keeps_items_payloads_field self r "author"
                  ltac:(done) ltac:(done) w2) as Hf3.
    destruct (items_payloads self r w2) as [[[]|e] w3]; simpl in Hmsgs, Hf3;
      cbv [ret] in Hrec; injection Hrec as <- <-; exists msgs; simpl;
      rewrite Hmsgs, He2, Hpe.
    - repeat split; try done.
      + by injection H as <- _.
      + injection H as _ <-. by rewrite Hf3.
    - by repeat split. }
  (* the rest of the stream *)
  cbn [length]. rewrite items_loop_cons. unfold bind at 1.
  destruct (items_record self r VNone w0) as [[la|e] w1] eqn:Hrec; simpl in Hemit.
  - destruct (emits_items_loop (S (length rest)) self (SrcList rest) la w1)
      as (more & Hmore & _).
    exists msgs, more. cbn [snd]. rewrite Hmore, Hemit, He0, <- !app_assoc.
    by split; [|split; [|split]].
  - exists msgs, []. cbn [snd]. rewrite Hemit, He0, app_nil_r, <- !app_assoc.
    by split; [|split; [|split]].
Qed.

(** *** The payloads *)

Lemma commit_inv r t w msg w' m :
  obj w r = VDict m ->
  commit r t w = (Ok msg, w') ->
  exists u named ext,
    py_getitem t "src" = Ok u /\ text_nameext_from_url u t = Ok named /\
    py_getitem named "extension" = Ok ext /\ msg = Url u r /\
    w' = update r (VDict (<["extension" := ext]> (<["target" := named]> m))) w.
Proof.
  intros Hobj. unfold commit, bind, lift.
  destruct (py_getitem t "src") as [u|] eqn:Hsrc; [|done].
  destruct (text_nameext_from_url u t) as [named|] eqn:Hnamed; [|done].
  rewrite (setitem_dict _ _ m) by done.
  set (w1 := update r (VDict (<["target" := named]> m)) w).
  assert (obj w1 r = VDict (<["target" := named]> m)) as H1 by by eapply obj_update_eq.
  rewrite (getitem_dict _ _ _ _ H1), lookup_insert_eq.
  destruct (py_getitem named "extension") as [ext|] eqn:Hext; [|done].
  rewrite (setitem_dict _ _ _ _ _ H1). intros [= <- <-].
  exists u, named, ext. repeat split; try done. unfold w1. by rewrite update_update.
Qed.

(** One of the three [if key in deviation: yield self.commit(...)]
    blocks, where [sel] picks the target from the field. *)
Lemma payload_block_inv r key (sel : value -> result value) w has w0 w1 m :
  obj w r = VDict m ->
  contains key r w = (Ok has, w0) ->
  (if has then
     bind (getitem r key) (fun x =>
       bind (lift (sel x)) (fun t => bind (commit r t) (fun msg => yield msg)))
   else ret tt) w0 = (Ok tt, w1) ->
  exists m1,
    obj w1 r = VDict m1 /\
    (forall k, k <> "target" -> k <> "extension" -> m1 !! k = m !! k) /\
    match m !! key with
    | None => emitted w1 = emitted w /\ m1 = m
    | Some x =>
        exists t u named ext,
          sel x = Ok t /\ py_getitem t "src" = Ok u /\
          text_nameext_from_url u t = Ok named /\
          py_getitem named "extension" = Ok ext /\
          emitted w1 = emitted w ++ [Url u r] /\
          m1 !! "target" = Some named /\ m1 !! "extension" = Some ext
    end.
Proof.
  intros Hobj Hhas H.
  rewrite (contains_dict _ _ m) in Hhas by done. injection Hhas as <- <-.
  destruct (m !! key) as [x|] eqn:Hkey; simpl in H.
  - apply bind_ok_inv in H as (x' & w0 & Hget & H).
    rewrite (getitem_dict _ _ m), Hkey in Hget by done. injection Hget as <- <-.
    apply bind_ok_inv in H as (t & w0 & Hsel & H).
    apply lift_ok_inv in Hsel as [Hsel ->].
    apply bind_ok_inv in H as (msg & w0 & Hcommit & H).
    eapply commit_inv in Hcommit as (u & named & ext & Hsrc & Hname & Hext & Hmsg & Hw);
      [|done].
    subst msg w0. injection H as <-.
    exists (<["extension" := ext]> (<["target" := named]> m)).
    split; [by eapply obj_update_eq|]. split.
    { intros k Ht He. by rewrite !lookup_insert_ne. }
    exists t, u, named, ext. repeat split; try done.
    + by rewrite lookup_insert_ne, lookup_insert_eq.
    + by rewrite lookup_insert_eq.
  - apply ret_ok_inv in H as [_ ->]. by exists m.
Qed.

(** The messages and the final [target] of a record without [excerpt]. *)
Lemma items_payloads_inv self r w w' m :
  obj w r = VDict m ->
  m !! "excerpt" = None ->
  items_payloads self r w = (Ok tt, w') ->
  exists targets urls,
    payload_targets m = Ok targets /\
    Forall2 (fun t u => py_getitem t "src" = Ok u) targets urls /\
    emitted w' = emitted w ++ ((fun u => Url u r) <$> urls) /\
    forall t u, last targets = Some t -> last urls = Some u ->
      exists named ext,
        text_nameext_from_url u t = Ok named /\
        py_getitem named "extension" = Ok ext /\
        field r "target" w' = Ok named /\ field r "extension" w' = Ok ext.
Proof.
  intros Hobj Hexcerpt H. unfold items_payloads in H.
  (* the image *)
  apply bind_ok_inv in H as (has1 & w0 & Hhas1 & H).
  apply bind_ok_inv in H as ([] & w1 & Hblock1 & H).
  destruct (payload_block_inv r "content" Ok w has1 w0 w1 m Hobj Hhas1 Hblock1)
    as (m1 & Hobj1 & Hsame1 & Hcontent).
  clear Hhas1 Hblock1.
  (* the video *)
  apply bind_ok_inv in H as (has2 & w0' & Hhas2 & H).
  apply bind_ok_inv in H as ([] & w2 & Hblock2 & H).
  destruct (payload_block_inv r "videos" select_video w1 has2 w0' w2 m1 Hobj1 Hhas2 Hblock2)
    as (m2 & Hobj2 & Hsame2 & Hvideos).
  clear Hhas2 Hblock2. rewrite Hsame1 in Hvideos by done.
  (* the flash animation *)
  apply bind_ok_inv in H as (has3 & w0'' & Hhas3 & H).
  apply bind_ok_inv in H as ([] & w3 & Hblock3 & H).
  destruct (payload_block_inv r "flash" Ok w2 has3 w0'' w3 m2 Hobj2 Hhas3 Hblock3)
    as (m3 & Hobj3 & Hsame3 & Hflash).
  clear Hhas3 Hblock3. rewrite Hsame2, Hsame1 in Hflash by done.
  (* no journal *)
  apply bind_ok_inv in H as (has4 & w0''' & Hhas4 & H).
  rewrite (contains_dict _ _ m3) in Hhas4 by done.
  rewrite Hsame3, Hsame2, Hsame1, Hexcerpt in Hhas4 by done.
  injection Hhas4 as <- <-. simpl in H.
  apply bind_ok_inv in H as ([] & w4 & Hret & H).
  apply ret_ok_inv in Hret as [_ ->].
  apply bind_ok_inv in H as (has5 & w5 & Hhas5 & H).
  injection Hhas5 as _ <-.
  assert (emitted w' = emitted w3 /\ obj w' r = obj w3 r) as [He' Hobj'].
  { destruct has5; by injection H as <-. }
  assert (forall k, field r k w' = py_getitem (VDict m3) k) as Hfield.
  { intros k. unfold field. by rewrite Hobj', Hobj3. }
  clear H Hobj' w0 w0' w0'' has1 has2 has3.
  unfold payload_targets.
  destruct (m !! "content") as [c|]; destruct (m !! "videos") as [vs|];
    destruct (m !! "flash") as [f|].
  all: repeat match goal with
       | H : exists _, _ |- _ => destruct H
       | H : _ /\ _ |- _ => destruct H
       end; simplify_eq.
  all: repeat match goal with
       | H : select_video _ = Ok _ |- _ => rewrite H; clear H
       end; cbn [rbind app].
  all: eexists _, _; split; [reflexivity|]; split;
    [repeat (econstructor; [eassumption|]); econstructor|].
  all: split;
    [rewrite He'; repeat match goal with H : emitted _ = _ |- _ => rewrite H; clear H end;
     rewrite <- ?app_assoc, ?app_nil_r; reflexivity|].
  all: cbn [last]; intros t' u' Ht' Hu'; simplify_eq.
  all: eexists _, _; split; [eassumption|]; split; [eassumption|].
  all: rewrite !Hfield; cbn [py_getitem].
  all: repeat match goal with
       | H : forall k, _ -> _ -> ?m' !! k = _ |- context [?m' !! _] => rewrite H by done
       end.
  all: by repeat match goal with H : _ !! _ = Some _ |- _ => rewrite H; clear H end.
Qed.

Lemma field_dict_inv r k w m :
  field r k w = py_getitem (VDict m) k ->
  exists m', obj w r = VDict m' /\ m' !! k = m !! k.
Proof.
  unfold field. simpl. destruct (obj w r) as [| | | | |m'|]; simpl;
    try by destruct (m !! k).
  intros H. exists m'. split; [done|].
  destruct (m' !! k), (m !! k); by simplify_eq.
Qed.

Lemma payload_targets_ext m m' :
  m' !! "content" = m !! "content" ->
  m' !! "videos" = m !! "videos" ->
  m' !! "flash" = m !! "flash" ->
  payload_targets m' = payload_targets m.
Proof. unfold payload_targets. by intros -> -> ->. Qed.

(** The first half of the loop body: at most one Directory message,
    and the payload fields as they were. *)
Lemma items_record_inv self r la la' w w' :
  items_record self r la w = (Ok la', w') ->
  exists w3 dir,
    (dir = [] \/ dir = [Directory r]) /\
    emitted w3 = emitted w ++ dir /\
    (forall k, k <> "stats" -> k <> "preview" -> k <> "thumbs" -> k <> "index" ->
               k <> "collection" -> k <> "author" ->
               field r k w3 = field r k w) /\
    items_payloads self r w3 = (Ok tt, w').
Proof.
  intros H. unfold items_record in H.
  apply bind_ok_inv in H as ([] & w1 & Hprepare & H).
  apply bind_ok_inv in H as (author & w2 & Hauthor & H).
  apply bind_ok_inv in H as (la2 & w3 & Hdir & H).
  apply bind_ok_inv in H as ([] & w4 & Hpayloads & H).
  apply ret_ok_inv in H as [_ ->].
  pose proof (keeps_prepare_of_emitted self r w) as He1.
  rewrite Hprepare in He1. simpl in He1.
  assert (keeps emitted
            (except_KeyError (getitem r "author")
               (bind (setitem r "author" PLACEHOLDER_AUTHOR) (fun _ => ret VNone))))
    as He2.
  { apply keeps_except_KeyError; [apply keeps_getitem|].
    apply keeps_bind; [apply keeps_setitem_emitted|]. intros _. apply keeps_ret. }
  specialize (He2 w1). rewrite Hauthor in He2. simpl in He2.
  assert (forall k, k <> "author" -> field r k w2 = field r k w1) as Hf2.
  { intros k Hk.
    assert (keeps (field r k)
              (except_KeyError (getitem r "author")
                 (bind (setitem r "author" PLACEHOLDER_AUTHOR) (fun _ => ret VNone))))
      as Hkeep.
    { apply keeps_except_KeyError; [apply keeps_getitem|].
      apply keeps_bind; [apply keeps_setitem_field; congruence|].
      intros _. apply keeps_ret. }
    specialize (Hkeep w1). by rewrite Hauthor in Hkeep. }
  assert (exists dir, (dir = [] \/ dir = [Directory r]) /\
            emitted w3 = emitted w2 ++ dir /\ obj w3 r = obj w2 r)
    as (dir & Hdir' & He3 & Hobj3).
  { destruct (negb (py_eq author la)).
    - exists [Directory r]. injection Hdir as _ <-. split; [by right|done].
    - exists []. injection Hdir as _ <-. rewrite app_nil_r. split; [by left|done]. }
  exists w3, dir. split; [done|]. split; [by rewrite He3, He2, He1|].
  split; [|done]. intros k Hs Hp Ht Hi Hc Ha.
  unfold field at 1. rewrite Hobj3. fold (field r k w2). rewrite Hf2 by done.
  pose proof (keeps_prepare_of_field self r k Hs Hp Ht Hi Hc w) as Hf1.
  by rewrite Hprepare in Hf1.
Qed.

(** C10: every message [items] yields for one record carries that one
    record object; each payload that is committed writes its [target]
    and [extension] into this object, so once the last payload of the
    record has been yielded, the object that the earlier messages carry
    too holds the target and the extension of that last payload. *)
Theorem shared_record_overwritten (self : extractor) (r : loc) (la la' : value)
    (w w' : world) (m : gmap string value) :
  obj w r = VDict m ->
  m !! "excerpt" = None ->
  items_record self r la w = (Ok la', w') ->
  exists (dir : list message) (targets urls : list value),
    (dir = [] \/ dir = [Directory r]) /\
    payload_targets m = Ok targets /\
    Forall2 (fun t u => py_getitem t "src" = Ok u) targets urls /\
    emitted w' = emitted w ++ dir ++ ((fun u => Url u r) <$> urls) /\
    forall t u, last targets = Some t -> last urls = Some u ->
      exists named ext,
        text_nameext_from_url u t = Ok named /\
        py_getitem named "extension" = Ok ext /\
        field r "target" w' = Ok named /\ field r "extension" w' = Ok ext.
Proof.
  intros Hobj Hexcerpt H.
  apply items_record_inv in H as (w3 & dir & Hdir & He3 & Hf3 & H).
  assert (forall k, k <> "stats" -> k <> "preview" -> k <> "thumbs" -> k <> "index" ->
                    k <> "collection" -> k <> "author" ->
                    exists m3, obj w3 r = VDict m3 /\ m3 !! k = m !! k) as Hm3.
  { intros k Hs Hp Ht Hi Hc Ha. apply field_dict_inv.
    rewrite Hf3 by done. unfold field. by rewrite Hobj. }
  destruct (Hm3 "excerpt") as (m3 & Hobj3 & Hexcerpt3); try done.
  assert (forall k, k <> "stats" -> k <> "preview" -> k <> "thumbs" -> k <> "index" ->
                    k <> "collection" -> k <> "author" -> m3 !! k = m !! k) as Hsame.
  { intros k Hs Hp Ht Hi Hc Ha.
    destruct (Hm3 k) as (m3' & Hobj3' & Hk); try done.
    rewrite Hobj3 in Hobj3'. by simplify_eq. }
  rewrite Hexcerpt in Hexcerpt3.
  destruct (items_payloads_inv self r w3 w' m3 Hobj3 Hexcerpt3 H)
    as (targets & urls & Htargets & Hsrc & He' & Hlast).
  exists dir, targets, urls. split; [done|]. split.
  { rewrite <- Htargets. symmetry. by apply payload_targets_ext; apply Hsame. }
  split; [done|]. split; [|done].
  by rewrite He', He3, <- app_assoc.
Qed.
End Pipeline.

(** *** On the sample records *)

Lemma first_record_without_author_witness :
  exists msgs more : list message,
    Forall (is_url_of 0%nat) msgs /\
    emitted (items_record Sample.base 0%nat VNone (yield (Version 1) Sample.anonymous).2).2
    = emitted Sample.anonymous ++ Version 1 :: msgs /\
    emitted (items_of Sample.base [0%nat] Sample.anonymous).2
    = emitted Sample.anonymous ++ Version 1 :: msgs ++ more /\
    forall la w',
      items_record Sample.base 0%nat VNone (yield (Version 1) Sample.anonymous).2 = (Ok la, w') ->
      la = VNone /\ field 0%nat "author" w' = Ok PLACEHOLDER_AUTHOR.
Proof.
  apply (first_record_without_author Sample.base 0%nat [] Sample.anonymous
           Sample.anonymous_image).
  - reflexivity.
  - by vm_compute.
Defined.

(** C1 fails on the code: the stream of one image without [author] is
    one run of records with equal author mappings, and no Directory
    message is emitted for it; the Url message follows the Version
    message directly. *)
Lemma anonymous_run_without_directory :
  items_of Sample.base [0%nat] Sample.anonymous
  = (Ok tt,
     with_emitted [Version 1; Url (VStr "http://img/x.jpg") 0%nat]
       (items_of Sample.base [0%nat] Sample.anonymous).2) /\
  field 0%nat "author"
    (items_of Sample.base [0%nat] Sample.anonymous).2
  = Ok PLACEHOLDER_AUTHOR.
Proof. by vm_compute. Qed.

Lemma shared_record_overwritten_witness :
  exists (dir : list message) (targets urls : list value),
    (dir = [] \/ dir = [Directory 0%nat]) /\
    payload_targets Sample.animated_image = Ok targets /\
    Forall2 (fun t u => py_getitem t "src" = Ok u) targets urls /\
    emitted (items_record Sample.base 0%nat VNone Sample.animated).2
    = emitted Sample.animated ++ dir ++ ((fun u => Url u 0%nat) <$> urls) /\
    forall t u, last targets = Some t -> last urls = Some u ->
      exists named ext,
        text_nameext_from_url u t = Ok named /\
        py_getitem named "extension" = Ok ext /\
        field 0%nat "target"
          (items_record Sample.base 0%nat VNone Sample.animated).2 = Ok named /\
        field 0%nat "extension"
          (items_record Sample.base 0%nat VNone Sample.animated).2 = Ok ext.
Proof.
  apply (shared_record_overwritten Sample.base 0%nat VNone Sample.author Sample.animated
           (items_record Sample.base 0%nat VNone Sample.animated).2
           Sample.animated_image).
  - reflexivity.
  - by vm_compute.
  - by vm_compute.
Defined.

(** The image comes first and the animation second; both messages carry
    the record [0], which in the end has the extension of the animation. *)
Example animated_image_messages :
  emitted (items_of Sample.base [0%nat] Sample.animated).2
  = [Version 1; Directory 0%nat; Url (VStr "http://img/x.jpg") 0%nat;
     Url (VStr "http://img/x.swf") 0%nat] /\
  field 0%nat "extension"
    (items_of Sample.base [0%nat] Sample.animated).2
  = Ok (VStr "swf").
Proof. by vm_compute. Qed.

(** C8 fails on the code when the journal has no [author]: the
    Directory message is missing, for the reason C1 fails. *)
Lemma journal_without_author_messages :
  (items 2 Sample.single
     (Sample.start (Sample.journal_site Sample.journal) [])).1 = Ok tt /\
  emitted
    (items 2 Sample.single
       (Sample.start (Sample.journal_site Sample.journal) [])).2
  = [Version 1; Url (VStr Sample.journal_document) 0%nat].
Proof. by vm_compute. Qed.

(** With its author, the same journal gives the two messages after the
    Version message, the second of which holds the document. *)
Example journal_with_author_messages :
  emitted
    (items 2 Sample.single
       (Sample.start
          (Sample.journal_site (<["author" := Sample.author]> Sample.journal)) [])).2
  = [Version 1; Directory 0%nat; Url (VStr Sample.journal_document) 0%nat] /\
  field 0%nat "extension"
    (items 2 Sample.single
       (Sample.start
          (Sample.journal_site (<["author" := Sample.author]> Sample.journal)) [])).2
  = Ok (VStr "htm").
Proof. by vm_compute. Qed.

(** ** [_pagination] *)

Lemma with_heap_with_heap h h' w : with_heap h' (with_heap h w) = with_heap h' w.
Proof. done. Qed.

Lemma call_heap a endpoint params w data w1 :
  _call a endpoint params w = (Ok data, w1) -> heap w1 = heap w.
Proof.
  intros H. pose proof (keeps_call heap a endpoint params heap_blind w) as Hk.
  by rewrite H in Hk.
Qed.

(** *** From the run to the generator *)

Lemma converges_next_done a w :
  converges (fun fuel => _pagination_next fuel a PagDone) w (Ok (None, PagDone)) w.
Proof. exists 1%nat. intros [|fuel] Hle; [lia|done]. Qed.

Lemma converges_next_missing a endpoint params w data w1 :
  _call a endpoint params w = (Ok data, w1) ->
  py_contains "results" data = Ok false ->
  converges (fun fuel => _pagination_next fuel a (PagCall endpoint params)) w
    (Ok (None, PagDone)) (with_log (log w1 ++ [LogUnexpectedResponse data]) w1).
Proof.
  intros Hcall Hhas. exists 1%nat. intros [|fuel] Hle; [lia|].
  cbn [_pagination_next]. unfold bind, lift. by rewrite Hcall, Hhas.
Qed.

Lemma converges_next_results a endpoint params w data w1 results elements r w' :
  _call a endpoint params w = (Ok data, w1) ->
  py_contains "results" data = Ok true ->
  py_getitem data "results" = Ok results ->
  py_yield_from results = Ok elements ->
  converges (fun fuel => _pagination_next fuel a (PagYield elements data endpoint params))
    w1 r w' ->
  converges (fun fuel => _pagination_next fuel a (PagCall endpoint params)) w r w'.
Proof.
  intros Hcall Hhas Hresults Hiter [fuel0 H]. exists (S fuel0).
  intros [|fuel] Hle; [lia|].
  cbn [_pagination_next]. unfold bind, lift. rewrite Hcall, Hhas, Hresults, Hiter.
  apply H. lia.
Qed.

Lemma converges_next_yield a x rest data endpoint params w :
  converges (fun fuel => _pagination_next fuel a (PagYield (x :: rest) data endpoint params))
    w (Ok (Some (length (heap w)), PagYield rest data endpoint params))
    (with_heap (heap w ++ [x]) w).
Proof. exists 1%nat. intros [|fuel] Hle; [lia|done]. Qed.

Lemma converges_next_last a data endpoint params w has_more :
  py_getitem data "has_more" = Ok has_more ->
  py_truthy has_more = false ->
  converges (fun fuel => _pagination_next fuel a (PagYield [] data endpoint params))
    w (Ok (None, PagDone)) w.
Proof.
  intros Hmore Hfalse. exists 1%nat. intros [|fuel] Hle; [lia|].
  cbn [_pagination_next]. unfold bind, lift. by rewrite Hmore, Hfalse.
Qed.

Lemma converges_next_more a data endpoint p w has_more next_offset r w' :
  py_getitem data "has_more" = Ok has_more ->
  py_truthy has_more = true ->
  py_getitem data "next_offset" = Ok next_offset ->
  converges (fun fuel => _pagination_next fuel a
               (PagCall endpoint (Some (<["offset" := next_offset]> p)))) w r w' ->
  converges (fun fuel => _pagination_next fuel a (PagYield [] data endpoint (Some p)))
    w r w'.
Proof.
  intros Hmore Htrue Hnext [fuel0 H]. exists (S fuel0).
  intros [|fuel] Hle; [lia|].
  cbn [_pagination_next]. unfold bind, lift. rewrite Hmore, Htrue, Hnext. simpl.
  apply H. lia.
Qed.

(** A run without elements ends at the first [next]; a run with elements
    yields the first one, at a new location, and goes on as a run. *)
Lemma generates_next a g w items w' :
  generates a g w items w' ->
  match items with
  | [] => converges (fun fuel => _pagination_next fuel a g) w (Ok (None, PagDone)) w'
  | x :: items' =>
      exists g' w1,
        converges (fun fuel => _pagination_next fuel a g) w
          (Ok (Some (length (heap w)), g')) w1 /\
        heap w1 = heap w ++ [x] /\
        generates a g' w1 items' w'
  end.
Proof.
  induction 1 as
    [w|endpoint params w data w1 Hcall Hhas
    |endpoint params w data w1 results elements items w' Hcall Hhas Hresults Hiter _ IH
    |x rest data endpoint params w items w' Hrun _
    |data endpoint params w has_more Hmore Hfalse
    |data endpoint p w has_more next_offset items w' Hmore Htrue Hnext _ IH].
  - apply converges_next_done.
  - by apply converges_next_missing.
  - destruct items as [|x items'].
    + by eapply converges_next_results.
    + destruct IH as (g' & w2 & Hconv & Hheap & Hrun).
      exists g', w2. split; [|split; [|done]].
      * erewrite <- call_heap by done. by eapply converges_next_results.
      * by erewrite <- (call_heap _ _ _ w) by done.
  - exists (PagYield rest data endpoint params), (with_heap (heap w ++ [x]) w).
    split; [apply converges_next_yield|done].
  - by eapply converges_next_last.
  - destruct items as [|x items'].
    + by eapply converges_next_more.
    + destruct IH as (g' & w2 & Hconv & Hheap & Hrun).
      exists g', w2. split; [|done]. by eapply converges_next_more.
Qed.

(** The heap grows by the elements of the run. *)
Lemma generates_heap a g w items w' :
  generates a g w items w' -> heap w' = heap w ++ items.
Proof.
  induction 1 as
    [w|endpoint params w data w1 Hcall Hhas
    |endpoint params w data w1 results elements items w' Hcall Hhas Hresults Hiter _ IH
    |x rest data endpoint params w items w' Hrun IH
    |data endpoint params w has_more Hmore Hfalse
    |data endpoint p w has_more next_offset items w' Hmore Htrue Hnext _ IH];
    rewrite ?app_nil_r; try done.
  - simpl. by eapply call_heap.
  - rewrite IH. f_equal. by eapply call_heap.
  - rewrite IH. simpl. by rewrite <- app_assoc.
Qed.

Lemma generates_drain a g w items w' :
  generates a g w items w' ->
  converges (fun fuel => drain fuel a g) w
    (Ok (seq (length (heap w)) (length items))) w'.
Proof.
  revert g w. induction items as [|x items IH]; intros g w Hrun.
  - apply generates_next in Hrun as [fuel0 H]. exists (S fuel0).
    intros [|fuel] Hle; [lia|]. cbn [drain]. unfold bind.
    rewrite H by lia. done.
  - apply generates_next in Hrun as (g' & w1 & [fuel0 H] & Hheap & Hrun).
    destruct (IH g' w1 Hrun) as [fuel1 H1].
    exists (S (fuel0 `max` fuel1)). intros [|fuel] Hle; [lia|].
    cbn [drain]. unfold bind. rewrite H by lia. rewrite H1 by lia.
    rewrite Hheap, length_app. cbn [length seq]. by rewrite Nat.add_1_r.
Qed.

(** *** From the generator to the run *)

Lemma next_generates fuel a g w x g' w1 :
  _pagination_next fuel a g w = (Ok (x, g'), w1) ->
  match x with
  | None => generates a g w [] w1
  | Some r =>
      exists v, r = length (heap w) /\ heap w1 = heap w ++ [v] /\
        forall items w', generates a g' w1 items w' -> generates a g w (v :: items) w'
  end.
Proof.
  revert g w. induction fuel as [|fuel IH]; intros g w H; [done|].
  cbn [_pagination_next] in H.
  destruct g as [endpoint params|[|v rest] data endpoint params|].
  - apply bind_ok_inv in H as (data & w0 & Hcall & H).
    apply bind_ok_inv in H as (has & w0' & Hhas & H).
    apply lift_ok_inv in Hhas as [Hhas ->]. destruct has.
    + apply bind_ok_inv in H as (results & w0' & Hresults & H).
      apply lift_ok_inv in Hresults as [Hresults ->].
      apply bind_ok_inv in H as (elements & w0' & Hiter & H).
      apply lift_ok_inv in Hiter as [Hiter ->].
      apply IH in H. destruct x as [r|].
      * destruct H as (v & -> & Hheap & Hrun). exists v.
        rewrite <- (call_heap _ _ _ _ _ _ Hcall). split; [done|]. split; [done|].
        intros items w' Hitems. eapply generates_results; eauto.
      * eapply generates_results; eauto.
    + apply bind_ok_inv in H as ([] & w0' & Hlog & H).
      injection Hlog as <-. injection H as <- <- <-.
      by apply generates_missing.
  - apply bind_ok_inv in H as (has_more & w0 & Hmore & H).
    apply lift_ok_inv in Hmore as [Hmore ->].
    destruct (py_truthy has_more) eqn:Htruthy; simpl in H.
    + apply bind_ok_inv in H as (next_offset & w0 & Hnext & H).
      apply lift_ok_inv in Hnext as [Hnext ->].
      destruct params as [p|]; [|done].
      apply IH in H. destruct x as [r|].
      * destruct H as (v & -> & Hheap & Hrun). exists v.
        split; [done|]. split; [done|].
        intros items w' Hitems. eapply generates_more; eauto.
      * eapply generates_more; eauto.
    + injection H as <- <- <-. by eapply generates_last.
  - injection H as <- <- <-. exists v. split; [done|]. split; [done|].
    intros items w' Hitems. by apply generates_yield.
  - injection H as <- <- <-. apply generates_done.
Qed.

Lemma drain_generates fuel a g w locs w' :
  drain fuel a g w = (Ok locs, w') ->
  exists items,
    generates a g w items w' /\ locs = seq (length (heap w)) (length items).
Proof.
  revert g w locs. induction fuel as [|fuel IH]; intros g w locs H; [done|].
  cbn [drain] in H. apply bind_ok_inv in H as ([x g'] & w1 & Hnext & H).
  apply next_generates in Hnext. destruct x as [r|].
  - apply bind_ok_inv in H as (rs & w2 & Hrest & H).
    injection H as <- <-. apply IH in Hrest as (items & Hrun & ->).
    destruct Hnext as (v & -> & Hheap & Hcons).
    exists (v :: items). split; [by apply Hcons|].
    rewrite Hheap, length_app. cbn [length seq]. by rewrite Nat.add_1_r.
  - injection H as <- <-. by exists [].
Qed.

(** *** Element by element, and page by page *)

Lemma generates_yield_all a elements data endpoint params w items w' :
  generates a (PagYield [] data endpoint params) (with_heap (heap w ++ elements) w)
    items w' ->
  generates a (PagYield elements data endpoint params) w (elements ++ items) w'.
Proof.
  revert w. induction elements as [|x elements IH]; intros w H.
  - by rewrite app_nil_r, with_heap_id in H.
  - simpl. apply generates_yield. apply IH.
    by rewrite with_heap_with_heap; simpl; rewrite <- app_assoc.
Qed.

Lemma paginates_generates a endpoint params w items w' :
  paginates a endpoint params w items w' ->
  generates a (PagCall endpoint params) w items w'.
Proof.
  induction 1 as
    [params w data w1 Hcall Hhas
    |params w data w1 results elements has_more Hcall Hhas Hresults Hiter Hmore Hfalse
    |p w data w1 results elements has_more next_offset rest w2
       Hcall Hhas Hresults Hiter Hmore Htrue Hnext _ IH].
  - by apply generates_missing.
  - eapply generates_results; eauto.
    rewrite <- (app_nil_r elements) at 2. apply generates_yield_all.
    by eapply generates_last.
  - eapply generates_results; eauto.
    apply generates_yield_all. eapply generates_more; eauto.
Qed.

Lemma generates_paginates a g w items w' :
  generates a g w items w' ->
  match g with
  | PagCall endpoint params => paginates a endpoint params w items w'
  | PagYield elements data endpoint params =>
      exists rest,
        items = elements ++ rest /\
        ((exists has_more,
            py_getitem data "has_more" = Ok has_more /\ py_truthy has_more = false /\
            rest = [] /\ w' = with_heap (heap w ++ elements) w) \/
         (exists has_more next_offset p,
            py_getitem data "has_more" = Ok has_more /\ py_truthy has_more = true /\
            py_getitem data "next_offset" = Ok next_offset /\ params = Some p /\
            paginates a endpoint (Some (<["offset" := next_offset]> p))
              (with_heap (heap w ++ elements) w) rest w'))
  | PagDone => True
  end.
Proof.
  induction 1 as
    [w|endpoint params w data w1 Hcall Hhas
    |endpoint params w data w1 results elements items w' Hcall Hhas Hresults Hiter _ IH
    |x rest data endpoint params w items w' _ IH
    |data endpoint params w has_more Hmore Hfalse
    |data endpoint p w has_more next_offset items w' Hmore Htrue Hnext _ IH].
  - done.
  - by apply paginates_missing.
  - destruct IH as (rest & -> & [(has_more & Hmore & Hfalse & -> & ->)
                                |(has_more & next_offset & p & Hmore & Htrue & Hnext & -> & Hrun)]).
    + rewrite app_nil_r. by eapply paginates_last.
    + by eapply paginates_more.
  - destruct IH as (rest' & -> & IH). exists rest'. split; [done|].
    rewrite with_heap_with_heap in IH. simpl in IH. rewrite <- app_assoc in IH.
    destruct IH as [(has_more & Hmore & Hfalse & -> & ->)
                   |(has_more & next_offset & p & Hmore & Htrue & Hnext & -> & Hrun)].
    + left. by exists has_more.
    + right. by exists has_more, next_offset, p.
  - exists []. split; [done|]. left. exists has_more.
    by rewrite app_nil_r, with_heap_id.
  - exists items. split; [done|]. right. exists has_more, next_offset, p.
    by rewrite app_nil_r, with_heap_id.
Qed.

(** The generator ends normally exactly in the runs [paginates]
    describes. *)
Lemma drain_paginates (a : api_config) (endpoint : string)
    (params : option (gmap string value)) (w w' : world) (locs : list loc) :
  converges (fun fuel => drain fuel a (PagCall endpoint params)) w (Ok locs) w' <->
  exists items : list value,
    paginates a endpoint params w items w' /\
    locs = seq (length (heap w)) (length items) /\
    heap w' = heap w ++ items.
Proof.
  split.
  - intros [fuel0 H]. specialize (H fuel0 (le_n _)).
    apply drain_generates in H as (items & Hrun & ->).
    exists items. split; [|split; [done|]].
    + by apply generates_paginates in Hrun.
    + by eapply generates_heap.
  - intros (items & Hrun & -> & _).
    by apply generates_drain, paginates_generates.
Qed.

(** *** Over bodies of the expected shape *)

(** A response the loop of [_call] ends with is one the server gave to
    a request of this call, with the status 200. *)
Lemma call_loop_ok_inv fuel a url params tries w resp w' :
  call_loop fuel a url params tries w = (Ok resp, w') ->
  srv w' = srv w /\
  exists n : nat, resp = on_get (srv w) n url params /\ status_code resp = 200.
Proof.
  revert tries w. induction fuel as [|fuel IH]; intros tries w H; [done|].
  cbn [call_loop] in H.
  apply bind_ok_inv in H as (w0 & w0' & Hw0 & H).
  unfold get_world in Hw0. injection Hw0 as <- <-.
  apply bind_ok_inv in H as ([] & w1 & Hpause & H).
  apply bind_ok_inv in H as ([] & w2 & Hauth & H).
  apply bind_ok_inv in H as (r & w3 & Hget & H).
  assert (srv w1 = srv w) as Hs1.
  { pose proof (keeps_if srv (negb (delay w =? 0)) (sleep (delay w)) (ret tt)
                  (keeps_sleep srv (delay w) ltac:(done)) (keeps_ret srv tt) w) as Hk.
    by rewrite Hpause in Hk. }
  assert (srv w2 = srv w1) as Hs2.
  { pose proof (keeps_authenticate srv a ltac:(done) ltac:(done) ltac:(done) w1) as Hk.
    by rewrite Hauth in Hk. }
  unfold session_get in Hget. injection Hget as <- <-.
  destruct (status_code (on_get (srv w2) (gets w2) url params) =? 200) eqn:H200.
  - apply ret_ok_inv in H as [-> ->]. rewrite Hs2, Hs1 in *.
    split; [done|]. exists (gets w2). split; [done|]. by apply Z.eqb_eq.
  - apply bind_ok_inv in H as ([] & w4 & Hbranch & H).
    assert (srv w4 = srv w) as Hs4.
    { rewrite <- Hs1, <- Hs2.
      destruct (status_code _ =? 429); unfold bind, modify, get_world, log_add in Hbranch;
        by injection Hbranch as <-. }
    destruct (tries + 1 >? 3); [done|].
    apply IH in H as (Hs & n & -> & Hn). rewrite Hs4 in *. split; [done|]. by exists n.
Qed.

Lemma call_shape a endpoint params w data w1 :
  server_pages (srv w) ->
  _call a endpoint params w = (Ok data, w1) ->
  page_shape data /\ srv w1 = srv w.
Proof.
  intros Hserver H. unfold _call in H.
  apply bind_ok_inv in H as (resp & w0 & Hloop & H).
  apply call_loop_ok_inv in Hloop as (Hsrv & n & -> & H200).
  destruct (json _) as [d|] eqn:Hjson; apply ret_ok_inv in H as [-> ->].
  - split; [|done]. by eapply Hserver.
  - split; [|done]. exists ∅. split; [done|]. by left.
Qed.

Lemma pages_paginates a endpoint params w items w' :
  pages a endpoint params w items w' -> paginates a endpoint params w items w'.
Proof.
  induction 1 as
    [params w m w1 Hcall Hnone
    |params w m w1 elements has_more Hcall Hresults Hmore Hfalse
    |p w m w1 elements has_more next_offset rest w2
       Hcall Hresults Hmore Htrue Hnext _ IH].
  - apply paginates_missing; [done|]. simpl. rewrite Hnone.
    by rewrite bool_decide_false by by intros [??].
  - eapply (paginates_last a endpoint params w (VDict m) w1 (VList elements) elements
              has_more); simpl; rewrite ?Hresults, ?Hmore; done.
  - eapply (paginates_more a endpoint p w (VDict m) w1 (VList elements) elements
              has_more next_offset rest w2); simpl;
      rewrite ?Hresults, ?Hmore, ?Hnext; done.
Qed.

Lemma paginates_pages a endpoint params w items w' :
  paginates a endpoint params w items w' ->
  server_pages (srv w) ->
  pages a endpoint params w items w'.
Proof.
  induction 1 as
    [params w data w1 Hcall Hhas
    |params w data w1 results elements has_more Hcall Hhas Hresults Hiter Hmore Hfalse
    |p w data w1 results elements has_more next_offset rest w2
       Hcall Hhas Hresults Hiter Hmore Htrue Hnext _ IH]; intros Hserver.
  - destruct (call_shape _ _ _ _ _ _ Hserver Hcall) as [(m & -> & Hshape) _].
    apply pages_missing; [done|]. simpl in Hhas. injection Hhas as Hhas.
    apply bool_decide_eq_false in Hhas. by apply eq_None_not_Some.
  - destruct (call_shape _ _ _ _ _ _ Hserver Hcall) as [(m & -> & Hshape) _].
    simpl in Hresults, Hmore.
    destruct (m !! "results") as [res|] eqn:Hres; [|done]. injection Hresults as ->.
    destruct Hshape as [|[l [= ->]]]; [done|]. simpl in Hiter. injection Hiter as ->.
    destruct (m !! "has_more") as [hm|] eqn:Hhm; [|done]. injection Hmore as ->.
    by eapply pages_last.
  - destruct (call_shape _ _ _ _ _ _ Hserver Hcall) as [(m & -> & Hshape) Hsrv].
    simpl in Hresults, Hmore, Hnext.
    destruct (m !! "results") as [res|] eqn:Hres; [|done]. injection Hresults as ->.
    destruct Hshape as [|[l [= ->]]]; [done|]. simpl in Hiter. injection Hiter as ->.
    destruct (m !! "has_more") as [hm|] eqn:Hhm; [|done]. injection Hmore as ->.
    destruct (m !! "next_offset") as [no|] eqn:Hno; [|done]. injection Hnext as ->.
    eapply pages_more; eauto. apply IH. simpl. by rewrite Hsrv.
Qed.

(** C4, amended: when every body the server sends with the status 200
    is a JSON object whose [results], if it has the field, is an array
    (a body that is no JSON counts as the empty object), the generator
    of a pagination run ends normally exactly in the runs described
    page by page: it yields the elements of each [results] array in
    the order of the server, as new records one after the other, goes
    on with the call at [next_offset] while [has_more] is true, and ends
    when [has_more] is false or when a body has no [results], in which
    case it logs an error and ends without raising. *)
Theorem pagination_pages (a : api_config) (endpoint : string)
    (params : option (gmap string value)) (w w' : world) (locs : list loc) :
  server_pages (srv w) ->
  converges (fun fuel => drain fuel a (PagCall endpoint params)) w (Ok locs) w' <->
  exists items : list value,
    pages a endpoint params w items w' /\
    locs = seq (length (heap w)) (length items) /\
    heap w' = heap w ++ items.
Proof.
  intros Hserver. rewrite drain_paginates. split.
  - intros (items & Hrun & Hlocs & Hheap). exists items.
    split; [by apply paginates_pages|done].
  - intros (items & Hrun & Hlocs & Hheap). exists items.
    split; [by apply pages_paginates|done].
Qed.

Lemma sample_gallery_pages : server_pages Sample.gallery_site.
Proof.
  intros n url params data _ Hjson. simpl in Hjson. injection Hjson as <-.
  unfold Sample.gallery_page. destruct params as [p|].
  - repeat match goal with
           | |- context [match ?x with _ => _ end] => destruct x
           end;
      (eexists; split; [reflexivity|]);
      first [by left | right; eexists; reflexivity].
  - exists ∅. split; [done|]. by left.
Qed.

Lemma pagination_pages_witness :
  converges
    (fun fuel => drain fuel Sample.config
                   (PagCall "gallery/all"
                      (Some (listing_params Sample.config "shimoda7" 0))))
    Sample.gallery_start (Ok [0; 1; 2]%nat) Sample.gallery_end.
Proof.
  apply (pagination_pages Sample.config "gallery/all"
           (Some (listing_params Sample.config "shimoda7" 0))
           Sample.gallery_start Sample.gallery_end [0; 1; 2]%nat sample_gallery_pages).
  exists [VDict (Sample.with_url "https://x/art/a-1");
          VDict (Sample.with_url "https://x/art/b-2");
          VDict (Sample.with_url "https://x/art/c-3")].
  split; [|split; by vm_compute].
  apply (pages_more Sample.config "gallery/all"
           (listing_params Sample.config "shimoda7" 0) Sample.gallery_start
           (<["results" := VList [VDict (Sample.with_url "https://x/art/a-1");
                                  VDict (Sample.with_url "https://x/art/b-2")]]>
              (<["has_more" := VBool true]> (<["next_offset" := VInt 2]> ∅)))
           Sample.gallery_called
           [VDict (Sample.with_url "https://x/art/a-1");
            VDict (Sample.with_url "https://x/art/b-2")]
           (VBool true) (VInt 2)
           [VDict (Sample.with_url "https://x/art/c-3")] Sample.gallery_end);
    [by vm_compute|reflexivity|reflexivity|reflexivity|reflexivity|].
  apply (pages_last Sample.config "gallery/all"
           (Some (<["offset" := VInt 2]> (listing_params Sample.config "shimoda7" 0)))
           Sample.gallery_first
           (<["results" := VList [VDict (Sample.with_url "https://x/art/c-3")]]>
              (<["has_more" := VBool false]> (<["next_offset" := VNone]> ∅)))
           Sample.gallery_called_again
           [VDict (Sample.with_url "https://x/art/c-3")] (VBool false));
    [by vm_compute|reflexivity|reflexivity|reflexivity].
Defined.

(** C4 as stated fails: a body that is the JSON text [null] has no
    [results], and the run over it raises [TypeError] at its first
    element, with nothing logged. *)
Lemma pagination_null_counterexample :
  (forall (n : nat) (url : string) (params : option (gmap string value)),
     status_code (on_get Sample.null_site n url params) = 200 /\
     json (on_get Sample.null_site n url params) = Some VNone) /\
  converges
    (fun fuel => drain fuel Sample.config
                   (PagCall "gallery/all"
                      (Some (listing_params Sample.config "shimoda7" 0))))
    Sample.null_start (Raise TypeError) Sample.null_called /\
  log Sample.null_called = [].
Proof.
  split; [done|]. split; [|by vm_compute].
  exists 1%nat. intros [|fuel] Hle; [lia|].
  cbn [drain _pagination_next]. unfold bind at 1. unfold bind at 1.
  assert (_call Sample.config "gallery/all"
            (Some (listing_params Sample.config "shimoda7" 0)) Sample.null_start
          = (Ok VNone, Sample.null_called)) as -> by by vm_compute.
  done.
Qed.

(** Two pages of a gallery: three records in the order of the server,
    and an offset beyond the end: no record, one logged error. *)
Example gallery_pages :
  (drain 6 Sample.config (gallery_all Sample.config "shimoda7" 0)
     (Sample.start Sample.gallery_site [])).1 = Ok [0; 1; 2]%nat /\
  heap (drain 6 Sample.config (gallery_all Sample.config "shimoda7" 0)
          (Sample.start Sample.gallery_site [])).2
  = [VDict (Sample.with_url "https://x/art/a-1");
     VDict (Sample.with_url "https://x/art/b-2");
     VDict (Sample.with_url "https://x/art/c-3")] /\
  (drain 6 Sample.config (gallery_all Sample.config "shimoda7" 7)
     (Sample.start Sample.gallery_site [])).1 = Ok [] /\
  log (drain 6 Sample.config (gallery_all Sample.config "shimoda7" 7)
         (Sample.start Sample.gallery_site [])).2
  = [LogUnexpectedResponse (VDict (<["error" := VStr "invalid_request"]> ∅))].
Proof. by vm_compute. Qed.

(** ** The favourites *)

Lemma obj_new w w1 v : heap w1 = heap w ++ [v] -> obj w1 (length (heap w)) = v.
Proof. intros H. unfold obj. by rewrite H, list_lookup_middle. Qed.

Lemma obj_old w w1 l r : heap w1 = heap w ++ l -> obj w r <> VNone -> obj w1 r = obj w r.
Proof.
  intros H Hr. unfold obj in *. rewrite H.
  destruct (heap w !! r) as [v|] eqn:Hv; [|done].
  by rewrite (lookup_app_l_Some _ _ _ _ Hv).
Qed.

Lemma obj_lt w r : obj w r <> VNone -> (r < length (heap w))%nat.
Proof.
  unfold obj. destruct (heap w !! r) as [v|] eqn:Hv; [|done].
  intros _. by eapply lookup_lt_Some.
Qed.

Lemma yields_heap a g w vs g' w' : yields a g w vs g' w' -> heap w' = heap w ++ vs.
Proof.
  induction 1 as [g w|g w v g1 w1 vs g' w' _ Hheap _ IH]; [by rewrite app_nil_r|].
  by rewrite IH, Hheap, <- app_assoc.
Qed.

Section Favorites.
Context {lib : library}.

(** What is assumed of [re]: a pattern [p$] with a plain [p] compiles,
    and matches as [wild_match p] tells. *)
Hypothesis re_compile_plain :
  forall p : string, re_plain p = true ->
    exists regex, re_compile (p +:+ "$") = Some regex /\
                  forall s, regex s = wild_match p s.

(** The loop goes past a folder whose name does not match. *)
Lemma find_folder_next a user offset collection regex g w folder m name g1 w1 r w' :
  converges (fun fuel => _pagination_next fuel a g) w
    (Ok (Some (length (heap w)), g1)) w1 ->
  heap w1 = heap w ++ [folder] ->
  folder = VDict m -> m !! "name" = Some (VStr name) -> regex name = false ->
  converges (fun fuel => find_folder fuel a user offset collection regex g1) w1 r w' ->
  converges (fun fuel => find_folder fuel a user offset collection regex g) w r w'.
Proof.
  intros [fuel0 Hnext] Hheap -> Hname Hregex [fuel1 Hfind].
  exists (S (fuel0 `max` fuel1)). intros [|fuel] Hle; [lia|].
  cbn [find_folder]. unfold bind at 1. rewrite Hnext by lia.
  unfold bind at 1, getitem at 1. rewrite (obj_new _ _ _ Hheap). simpl.
  rewrite Hname, Hregex. apply Hfind. lia.
Qed.

Lemma find_folder_skip a user offset collection regex pattern g w before g1 w1 r w' :
  (forall s, regex s = wild_match pattern s) ->
  yields a g w before g1 w1 ->
  Forall (folder_unlike pattern) before ->
  converges (fun fuel => find_folder fuel a user offset collection regex g1) w1 r w' ->
  converges (fun fuel => find_folder fuel a user offset collection regex g) w r w'.
Proof.
  intros Hregex Hyields.
  induction Hyields as [g w|g w v g2 w2 vs g3 w3 Hnext Hheap _ IH];
    intros Hunlike Hfind; [done|].
  apply Forall_cons in Hunlike as [(m & name & -> & Hname & Hno) Hunlike].
  eapply find_folder_next;
    [exact Hnext|exact Hheap|reflexivity|exact Hname|by rewrite Hregex|by apply IH].
Qed.

(** C7, amended: for a target name without characters that are special
    in a regular expression, the selector goes through the listed
    folders in order and selects the first one whose name matches the
    target read as a pattern, in which each hyphen of the target stands
    for any single character except a newline and every other character
    for itself, the name being allowed one newline at its end; the title
    of the shared collection descriptor becomes the name of that folder,
    whose collection is then paginated; when the listing ends before a
    folder matches, [NotFoundError("collection")] is raised. *)
Theorem favorite_selects_first_match (a : api_config) (user favname : string)
    (offset : Z) (collection : loc) (c : gmap string value) (w : world)
    (before : list value) (g1 : pagination) (w1 : world) :
  all_chars (fun ch => negb (re_special ch)) favname = true ->
  obj w collection = VDict c ->
  yields a (collections_folders a user) w before g1 w1 ->
  Forall (folder_unlike (replace_char hyphen dot favname)) before ->
  (forall w2,
     converges (fun fuel => _pagination_next fuel a g1) w1 (Ok (None, PagDone)) w2 ->
     converges (fun fuel => deviations_favorite fuel a user favname offset collection)
       w (Raise (NotFoundError "collection")) w2) /\
  (forall g2 w2 m name folderid,
     converges (fun fuel => _pagination_next fuel a g1) w1
       (Ok (Some (length (heap w1)), g2)) w2 ->
     heap w2 = heap w1 ++ [VDict m] ->
     m !! "name" = Some (VStr name) ->
     wild_match (replace_char hyphen dot favname) name = true ->
     m !! "folderid" = Some (VStr folderid) ->
     converges (fun fuel => deviations_favorite fuel a user favname offset collection)
       w
       (Ok (SrcPagination
              (PagCall ("collections/" +:+ folderid)
                 (Some (listing_params a user offset)))))
       (update collection (VDict (<["title" := VStr name]> c)) w2)).
Proof.
  intros Hplain Hcollection Hyields Hunlike.
  assert (re_plain (replace_char hyphen dot favname) = true) as Hpattern.
  { clear -Hplain. unfold re_plain.
    induction favname as [|ch s IH]; [done|].
    cbn [all_chars replace_char] in *.
    apply andb_prop in Hplain as [Hch Hs]. rewrite IH by done.
    destruct (bool_decide (ch = hyphen)); [done|]. by rewrite Hch, orb_true_r. }
  destruct (re_compile_plain _ Hpattern) as (regex & Hcompile & Hregex).
  unfold deviations_favorite. rewrite Hcompile.
  split.
  - intros w2 [fuel0 Hstop]. eapply find_folder_skip; eauto.
    exists (S fuel0). intros [|fuel] Hle; [lia|].
    cbn [find_folder]. unfold bind at 1. by rewrite Hstop by lia.
  - intros g2 w2 m name folderid [fuel0 Hnext] Hheap Hname Hmatch Hid.
    eapply find_folder_skip; eauto.
    exists (S fuel0). intros [|fuel] Hle; [lia|].
    cbn [find_folder]. unfold bind at 1. rewrite Hnext by lia.
    assert (obj w2 (length (heap w1)) = VDict m) as Hfolder by by apply obj_new.
    assert (obj w2 collection = VDict c) as Hc2.
    { rewrite <- Hcollection. apply (obj_old w w2 (before ++ [VDict m])).
      - by rewrite Hheap, (yields_heap _ _ _ _ _ _ Hyields), <- app_assoc.
      - by rewrite Hcollection. }
    assert (collection <> length (heap w1)) as Hne.
    { assert (collection < length (heap w))%nat
        by (apply obj_lt; by rewrite Hcollection).
      rewrite (yields_heap _ _ _ _ _ _ Hyields), length_app. lia. }
    unfold bind at 1, getitem at 1. rewrite Hfolder. simpl. rewrite Hname.
    rewrite Hregex, Hmatch.
    unfold bind at 1, getitem at 1. rewrite Hfolder. simpl. rewrite Hname.
    unfold bind at 1. rewrite (setitem_dict _ _ c) by done.
    unfold bind at 1, getitem at 1. rewrite obj_update_ne by done.
    rewrite Hfolder. simpl. by rewrite Hid.
Qed.

End Favorites.

Lemma sample_re_compile_plain (p : string) :
  re_plain p = true ->
  exists regex, Sample.compile (p +:+ "$") = Some regex /\
                forall s, regex s = wild_match p s.
Proof.
  intros Hp. exists (wild_match p). split; [|done].
  unfold Sample.compile.
  change (p +:+ "$") with (p +:+ String "$"%char EmptyString).
  rewrite drop_last_snoc, Hp. by rewrite bool_decide_true.
Qed.

Lemma favorite_selects_first_match_witness :
  converges
    (fun fuel => deviations_favorite fuel Sample.config "rosuuri"
                   "My-Art" 0 0%nat)
    (Sample.favorites "My-Art" Sample.my_folders)
    (Ok (SrcPagination
           (PagCall "collections/F1" (Some (listing_params Sample.config "rosuuri" 0)))))
    (update 0%nat (VDict (<["title" := VStr "My Art"]> (Sample.descriptor "My-Art")))
       (with_heap (heap Sample.listed ++ Sample.my_folders) Sample.listed)).
Proof.
  pose proof (favorite_selects_first_match sample_re_compile_plain
                Sample.config "rosuuri" "My-Art" 0 0%nat (Sample.descriptor "My-Art")
                (Sample.favorites "My-Art" Sample.my_folders)
                [Sample.folder "F0" "Featured"]
                (PagYield [Sample.folder "F1" "My Art"] Sample.my_listing
                   "collections/folders"
                   (Some (listing_params Sample.config "rosuuri" 0)))
                (with_heap (heap Sample.listed ++ [Sample.folder "F0" "Featured"])
                   Sample.listed)) as H.
  destruct H as [_ H].
  - by vm_compute.
  - reflexivity.
  - apply (yields_cons _ _ _ (Sample.folder "F0" "Featured")
             (PagYield [Sample.folder "F1" "My Art"] Sample.my_listing
                "collections/folders"
                (Some (listing_params Sample.config "rosuuri" 0)))
             (with_heap (heap Sample.listed ++ [Sample.folder "F0" "Featured"])
                Sample.listed));
      [|by vm_compute|apply yields_nil].
    eapply (converges_next_results _ _ _ _ Sample.my_listing Sample.listed);
      [by vm_compute|by vm_compute|by vm_compute|by vm_compute|].
    exact (converges_next_yield Sample.config (Sample.folder "F0" "Featured")
             [Sample.folder "F1" "My Art"] Sample.my_listing "collections/folders"
             (Some (listing_params Sample.config "rosuuri" 0)) Sample.listed).
  - constructor; [|done]. eexists _, "Featured". by vm_compute.
  - eapply (H (PagYield [] Sample.my_listing "collections/folders"
                 (Some (listing_params Sample.config "rosuuri" 0)))
              (with_heap (heap Sample.listed ++ Sample.my_folders) Sample.listed)).
    + exact (converges_next_yield Sample.config (Sample.folder "F1" "My Art") []
               Sample.my_listing "collections/folders"
               (Some (listing_params Sample.config "rosuuri" 0))
               (with_heap (heap Sample.listed ++ [Sample.folder "F0" "Featured"])
                  Sample.listed)).
    + by vm_compute.
    + by vm_compute.
    + by vm_compute.
    + by vm_compute.
Defined.

(** C7 as stated fails: a hyphen of the target does not stand for a
    newline, so the folder named [My], newline, [Art] is not found for
    the target [My-Art]; and a dot of the target is a wildcard as well,
    so the target [v1.0] selects the folder [v1x0]. *)
Lemma favorite_pattern_counterexample :
  (deviations_favorite 3 Sample.config "rosuuri" "My-Art" 0 0%nat
     (Sample.favorites "My-Art" [Sample.folder "F1" ("My" +:+ nl +:+ "Art")])).1
  = Raise (NotFoundError "collection") /\
  (deviations_favorite 3 Sample.config "rosuuri" "v1.0" 0 0%nat
     (Sample.favorites "v1.0" [Sample.folder "F2" "v1x0"])).1
  = Ok (SrcPagination
          (PagCall "collections/F2" (Some (listing_params Sample.config "rosuuri" 0)))) /\
  field 0%nat "title"
    (deviations_favorite 3 Sample.config "rosuuri" "v1.0" 0 0%nat
       (Sample.favorites "v1.0" [Sample.folder "F2" "v1x0"])).2
  = Ok (VStr "v1x0").
Proof. by vm_compute. Qed.

(** * Further properties *)

(** ** The API client *)

(** One round of the loop of [_call], whatever the response is: the
    client sleeps for the current delay, authenticates, sends one
    request, and adapts the delay to a response other than 200. *)
Lemma call_loop_round fuel a url params tries w :
  token_endpoint_ok (srv w) ->
  0 <= delay w ->
  exists w',
    srv w' = srv w /\ gets w' = S (gets w) /\ now w' = now w + delay w /\
    heap w' = heap w /\ emitted w' = emitted w /\
    delay w' =
      (if status_code (on_get (srv w) (gets w) url params) =? 200 then delay w
       else if status_code (on_get (srv w) (gets w) url params) =? 429 then delay w + 1
       else 1) /\
    log w' =
      (if status_code (on_get (srv w) (gets w) url params) =? 200 then log w
       else if status_code (on_get (srv w) (gets w) url params) =? 429
       then log w ++ [LogRateLimit (delay w + 1)]
       else log w ++ [LogHttpStatus
                        (status_code (on_get (srv w) (gets w) url params)) tries]) /\
    call_loop (S fuel) a url params tries w =
      if status_code (on_get (srv w) (gets w) url params) =? 200
      then (Ok (on_get (srv w) (gets w) url params), w')
      else if tries + 1 >? 3
      then (Raise (FatalError (text (on_get (srv w) (gets w) url params))), w')
      else call_loop fuel a url params (tries + 1) w'.
Proof.
  intros Hok Hdelay.
  set (pause := if negb (delay w =? 0) then sleep (delay w) else ret tt).
  assert (exists w1, pause w = (Ok tt, w1) /\ srv w1 = srv w /\ gets w1 = gets w /\
                     delay w1 = delay w /\ now w1 = now w + delay w /\
                     heap w1 = heap w /\ emitted w1 = emitted w /\ log w1 = log w)
    as (w1 & Hpause & Hs1 & Hg1 & Hd1 & Hn1 & Hh1 & He1 & Hl1).
  { unfold pause. destruct (Z.eqb_spec (delay w) 0) as [H0|H0]; simpl.
    - exists w. rewrite H0. repeat split; try done. lia.
    - unfold sleep. destruct (Z.ltb_spec (delay w) 0); [lia|].
      eexists. by split. }
  destruct (authenticate_ok a w1) as [w2 Hauth]; [by rewrite Hs1|].
  assert (srv w2 = srv w /\ gets w2 = gets w /\ delay w2 = delay w /\
          now w2 = now w + delay w /\ heap w2 = heap w /\ emitted w2 = emitted w /\
          log w2 = log w)
    as (Hs2 & Hg2 & Hd2 & Hn2 & Hh2 & He2 & Hl2).
  { pose proof (keeps_authenticate srv a ltac:(done) ltac:(done) ltac:(done) w1) as Ks.
    pose proof (keeps_authenticate gets a ltac:(done) ltac:(done) ltac:(done) w1) as Kg.
    pose proof (keeps_authenticate delay a ltac:(done) ltac:(done) ltac:(done) w1) as Kd.
    pose proof (keeps_authenticate now a ltac:(done) ltac:(done) ltac:(done) w1) as Kn.
    pose proof (keeps_authenticate heap a ltac:(done) ltac:(done) ltac:(done) w1) as Kh.
    pose proof (keeps_authenticate emitted a ltac:(done) ltac:(done) ltac:(done) w1) as Ke.
    pose proof (keeps_authenticate log a ltac:(done) ltac:(done) ltac:(done) w1) as Kl.
    rewrite Hauth in Ks, Kg, Kd, Kn, Kh, Ke, Kl. simpl in *.
    repeat split; congruence. }
  set (resp := on_get (srv w) (gets w) url params) in *.
  assert (session_get url params w2 = (Ok resp, with_gets (S (gets w)) w2)) as Hget.
  { unfold session_get, resp. by rewrite Hs2, Hg2. }
  set (w3 := with_gets (S (gets w)) w2) in *.
  destruct (status_code resp =? 200) eqn:H200.
  - exists w3. repeat split; try done.
    cbn [call_loop]. unfold bind at 1. unfold get_world at 1. fold pause.
    unfold bind at 1. rewrite Hpause.
    unfold bind at 1. rewrite Hauth.
    unfold bind at 1. rewrite Hget. by rewrite H200.
  - assert (exists w4, srv w4 = srv w /\ gets w4 = S (gets w) /\
      now w4 = now w + delay w /\ heap w4 = heap w /\ emitted w4 = emitted w /\
      delay w4 = (if status_code resp =? 429 then delay w + 1 else 1) /\
      log w4 = (if status_code resp =? 429 then log w ++ [LogRateLimit (delay w + 1)]
                else log w ++ [LogHttpStatus (status_code resp) tries]) /\
      (if status_code resp =? 429
       then bind (modify (fun w => with_delay (delay w + 1) w))
              (fun _ => bind get_world (fun w => log_add (LogRateLimit (delay w))))
       else bind (modify (with_delay 1))
              (fun _ => log_add (LogHttpStatus (status_code resp) tries))) w3
      = (Ok tt, w4)) as (w4 & Hs4 & Hg4 & Hn4 & Hh4 & He4 & Hd4 & Hl4 & Hbranch).
    { destruct (status_code resp =? 429).
      - exists (with_log (log w3 ++ [LogRateLimit (delay w3 + 1)])
                  (with_delay (delay w3 + 1) w3)).
        repeat split; try done; simpl; by rewrite ?Hd2, ?Hl2.
      - exists (with_log (log w3 ++ [LogHttpStatus (status_code resp) tries])
                  (with_delay 1 w3)).
        repeat split; try done; simpl; by rewrite ?Hl2. }
    exists w4. repeat split; try done.
    cbn [call_loop]. unfold bind at 1. unfold get_world at 1. fold pause.
    unfold bind at 1. rewrite Hpause.
    unfold bind at 1. rewrite Hauth.
    unfold bind at 1. rewrite Hget. rewrite H200.
    unfold bind at 1. rewrite Hbranch. by destruct (tries + 1 >? 3).
Qed.

Lemma call_loop_success a url params (k : nat) :
  forall (fuel : nat) (tries : Z) (w : world),
    token_endpoint_ok (srv w) ->
    0 <= delay w ->
    (k < fuel)%nat ->
    tries + Z.of_nat k <= 3 ->
    (forall i : nat, (i < k)%nat ->
       status_code (on_get (srv w) (gets w + i) url params) <> 200) ->
    status_code (on_get (srv w) (gets w + k) url params) = 200 ->
    exists w',
      call_loop fuel a url params tries w
      = (Ok (on_get (srv w) (gets w + k) url params), w') /\
      gets w' = (gets w + k + 1)%nat.
Proof.
  induction k as [|k IH]; intros fuel tries w Hok Hdelay Hfuel Htries Hfail Hlast.
  - destruct fuel as [|fuel]; [lia|].
    destruct (call_loop_round fuel a url params tries w Hok Hdelay)
      as (w' & _ & Hgets & _ & _ & _ & _ & _ & Hloop).
    rewrite Nat.add_0_r in *. rewrite Hlast in Hloop. simpl in Hloop.
    exists w'. split; [done|lia].
  - destruct fuel as [|fuel]; [lia|].
    destruct (call_loop_round fuel a url params tries w Hok Hdelay)
      as (w' & Hsrv & Hgets & _ & _ & _ & Hdelay' & _ & Hloop).
    assert (status_code (on_get (srv w) (gets w) url params) <> 200) as H0.
    { specialize (Hfail 0%nat ltac:(lia)). by rewrite Nat.add_0_r in Hfail. }
    apply Z.eqb_neq in H0. rewrite H0 in Hloop, Hdelay'.
    destruct (Z.gtb_spec (tries + 1) 3); [lia|].
    destruct (IH fuel (tries + 1) w') as (w'' & Hcall & Hgets'').
    + by rewrite Hsrv.
    + rewrite Hdelay'. destruct (_ =? 429); lia.
    + lia.
    + lia.
    + intros i Hi. rewrite Hsrv, Hgets.
      replace (S (gets w) + i)%nat with (gets w + S i)%nat by lia. apply Hfail. lia.
    + rewrite Hsrv, Hgets.
      by replace (S (gets w) + k)%nat with (gets w + S k)%nat by lia.
    + exists w''. rewrite Hloop, Hcall, Hsrv, Hgets.
      replace (S (gets w) + k)%nat with (gets w + S k)%nat by lia.
      split; [done|lia].
Qed.

(** X1: a call that is answered 200 within its three attempts returns the
    JSON body of that response, and the empty dictionary when the body
    is no JSON; it has sent one request for each response. *)
Theorem call_returns_body (a : api_config) (endpoint : string)
    (params : option (gmap string value)) (w : world) (k : nat) :
  token_endpoint_ok (srv w) ->
  0 <= delay w ->
  (k < 3)%nat ->
  (forall i : nat, (i < k)%nat ->
     status_code (on_get (srv w) (gets w + i) (api_url endpoint) params) <> 200) ->
  status_code (on_get (srv w) (gets w + k) (api_url endpoint) params) = 200 ->
  (_call a endpoint params w).1
  = Ok (default (VDict ∅)
          (json (on_get (srv w) (gets w + k) (api_url endpoint) params))) /\
  gets (_call a endpoint params w).2 = (gets w + k + 1)%nat.
Proof.
  intros Hok Hdelay Hk Hfail Hlast. unfold _call, bind.
  destruct (call_loop_success a (api_url endpoint) params k 3 1 w)
    as (w' & -> & Hgets); try done; [lia|].
  by destruct (json _).
Qed.

(** X2: a call that is answered 200 at once has slept for the current delay
    before its request and leaves the delay as it is: a success does not
    reset the delay. *)
Theorem call_success_keeps_delay (a : api_config) (endpoint : string)
    (params : option (gmap string value)) (w : world) :
  token_endpoint_ok (srv w) ->
  0 <= delay w ->
  status_code (on_get (srv w) (gets w) (api_url endpoint) params) = 200 ->
  delay (_call a endpoint params w).2 = delay w /\
  now (_call a endpoint params w).2 = now w + delay w /\
  log (_call a endpoint params w).2 = log w.
Proof.
  intros Hok Hdelay H200. unfold _call, bind.
  destruct (call_loop_round 2 a (api_url endpoint) params 1 w Hok Hdelay)
    as (w' & _ & _ & Hnow & _ & _ & Hdelay' & Hlog & Hloop).
  rewrite H200 in Hloop, Hdelay', Hlog.
  change (200 =? 200) with true in Hloop, Hdelay', Hlog. cbv iota in Hloop, Hdelay', Hlog.
  rewrite Hloop.
  by destruct (json _).
Qed.

Lemma call_returns_body_witness :
  (_call Sample.config "gallery/all" None
     (Sample.start (Sample.flaky (VDict (<["results" := VList []]> ∅))) [])).1
  = Ok (VDict (<["results" := VList []]> ∅)) /\
  gets (_call Sample.config "gallery/all" None
          (Sample.start (Sample.flaky (VDict (<["results" := VList []]> ∅))) [])).2
  = 2%nat.
Proof.
  apply (call_returns_body Sample.config "gallery/all" None
           (Sample.start (Sample.flaky (VDict (<["results" := VList []]> ∅))) []) 1%nat).
  - intros n data. exists (VDict (<["access_token" := VStr "abc"]> ∅)), "abc".
    by vm_compute.
  - by vm_compute.
  - lia.
  - intros [|i] Hi; [by vm_compute|lia].
  - by vm_compute.
Defined.

Lemma call_success_keeps_delay_witness :
  delay (_call Sample.config "gallery/all" None
           (with_delay 2 (Sample.start Sample.gallery_site []))).2 = 2 /\
  now (_call Sample.config "gallery/all" None
         (with_delay 2 (Sample.start Sample.gallery_site []))).2 = 0 + 2 /\
  log (_call Sample.config "gallery/all" None
         (with_delay 2 (Sample.start Sample.gallery_site []))).2 = [].
Proof.
  apply (call_success_keeps_delay Sample.config "gallery/all" None
           (with_delay 2 (Sample.start Sample.gallery_site []))).
  - intros n data. exists (VDict (<["access_token" := VStr "abc"]> ∅)), "abc".
    by vm_compute.
  - by vm_compute.
  - by vm_compute.
Defined.

(** X3: a call that is answered 200 at its second attempt: the delay is one
    second more than before after a response 429 and one second after
    any other response, the client has slept for the old and for the
    new delay, and the failed attempt is logged. *)
Theorem call_backoff (a : api_config) (endpoint : string)
    (params : option (gmap string value)) (w : world) :
  token_endpoint_ok (srv w) ->
  0 <= delay w ->
  status_code (on_get (srv w) (gets w) (api_url endpoint) params) <> 200 ->
  status_code (on_get (srv w) (S (gets w)) (api_url endpoint) params) = 200 ->
  let code := status_code (on_get (srv w) (gets w) (api_url endpoint) params) in
  let d := if code =? 429 then delay w + 1 else 1 in
  delay (_call a endpoint params w).2 = d /\
  now (_call a endpoint params w).2 = now w + delay w + d /\
  log (_call a endpoint params w).2
  = log w ++ [if code =? 429 then LogRateLimit d else LogHttpStatus code 1].
Proof.
  intros Hok Hdelay Hfirst Hsecond code d. unfold _call, bind.
  destruct (call_loop_round 2 a (api_url endpoint) params 1 w Hok Hdelay)
    as (w1 & Hs1 & Hg1 & Hn1 & _ & _ & Hd1 & Hl1 & Hloop).
  apply Z.eqb_neq in Hfirst. fold code in Hfirst.
  fold code in Hd1, Hl1, Hloop. rewrite Hfirst in Hd1, Hl1, Hloop.
  change (1 + 1 >? 3) with false in Hloop. cbv iota in Hloop.
  assert (delay w1 = d) as Hd1' by (unfold d; by destruct (code =? 429)).
  assert (0 <= delay w1) as Hpos.
  { rewrite Hd1'. unfold d. destruct (code =? 429); lia. }
  assert (token_endpoint_ok (srv w1)) as Hok1 by by rewrite Hs1.
  destruct (call_loop_round 1 a (api_url endpoint) params (1 + 1) w1 Hok1 Hpos)
    as (w2 & _ & _ & Hn2 & _ & _ & Hd2 & Hl2 & Hloop2).
  rewrite Hs1, Hg1, Hsecond in Hd2, Hl2, Hloop2.
  change (200 =? 200) with true in Hd2, Hl2, Hloop2. cbv iota in Hd2, Hl2, Hloop2.
  rewrite Hloop, Hloop2.
  assert (delay w2 = d /\ now w2 = now w + delay w + d /\
          log w2 = log w ++ [if code =? 429 then LogRateLimit d
                             else LogHttpStatus code 1]) as Hall.
  { rewrite Hd2, Hn2, Hn1, Hl2, Hl1, Hd1'. repeat split.
    unfold d. by destruct (code =? 429). }
  by destruct (json _).
Qed.

Lemma call_backoff_witness :
  delay (_call Sample.config "gallery/all" None
           (with_delay 2 (Sample.start (Sample.flaky VNone) []))).2 = 3 /\
  now (_call Sample.config "gallery/all" None
         (with_delay 2 (Sample.start (Sample.flaky VNone) []))).2 = 0 + 2 + 3 /\
  log (_call Sample.config "gallery/all" None
         (with_delay 2 (Sample.start (Sample.flaky VNone) []))).2
  = [] ++ [LogRateLimit 3].
Proof.
  apply (call_backoff Sample.config "gallery/all" None
           (with_delay 2 (Sample.start (Sample.flaky VNone) []))).
  - intros n data. exists (VDict (<["access_token" := VStr "abc"]> ∅)), "abc".
    by vm_compute.
  - by vm_compute.
  - by vm_compute.
  - by vm_compute.
Defined.

(** ** Authentication *)

Lemma authenticate_impl_refused cid secret w :
  status_code (on_post (srv w) (posts w) (token_request cid secret)) <> 200 ->
  _authenticate_impl cid secret w = (Raise AuthenticationError, with_posts (S (posts w)) w).
Proof.
  intros H. apply Z.eqb_neq in H.
  unfold _authenticate_impl, bind, session_post. fold (token_request cid secret).
  simpl. by rewrite H.
Qed.

(** What the cache holds after it gave a value. *)
Lemma cache_holds maxage key f w v w1 :
  0 <= maxage ->
  cache maxage key f w = (Ok v, w1) ->
  exists issued, token_cache w1 !! key = Some (v, issued) /\ now w1 - issued <= maxage.
Proof.
  intros Hmax. unfold cache.
  assert (forall w2,
    match f w with
    | (Ok v0, w') => (Ok v0, with_token_cache (<[key := (v0, now w')]> (token_cache w')) w')
    | r => r
    end = (Ok v, w2) ->
    exists issued, token_cache w2 !! key = Some (v, issued) /\ now w2 - issued <= maxage)
    as Hmiss.
  { intros w2. destruct (f w) as [[v'|e] w']; [|done]. intros [= <- <-]. simpl.
    exists (now w'). rewrite lookup_insert_eq. split; [done|lia]. }
  destruct (token_cache w !! key) as [[v0 issued]|] eqn:Hk; [|apply Hmiss].
  destruct (Z.leb_spec (now w - issued) maxage); [|apply Hmiss].
  intros [= <- <-]. by exists issued.
Qed.

(** X4: after [authenticate] has returned, the session sends the token as
    its [Authorization] header, its other headers are as before, and the
    token is the one the cache holds for the client id, stored no more
    than 3600 seconds ago. *)
Theorem authenticate_sets_header (a : api_config) (w w' : world) :
  authenticate a w = (Ok tt, w') ->
  exists (tok : string) (issued : Z),
    headers w' = <["Authorization" := tok]> (headers w) /\
    token_cache w' !! client_id a = Some (tok, issued) /\
    now w' - issued <= 3600.
Proof.
  intros H. unfold authenticate in H.
  apply bind_ok_inv in H as (tok & w1 & Hcache & Hset).
  injection Hset as <-.
  pose proof (keeps_cache headers 3600 (client_id a)
                (_authenticate_impl (client_id a) (client_secret a))
                ltac:(done)
                (keeps_authenticate_impl headers _ _ ltac:(done)) w) as Hh.
  unfold _authenticate_impl_cached in Hcache. rewrite Hcache in Hh. simpl in Hh.
  apply cache_holds in Hcache as (issued & Hk & Hage); [|lia].
  exists tok, issued. simpl. by rewrite Hh.
Qed.

Lemma authenticate_sets_header_witness :
  exists (tok : string) (issued : Z),
    headers (authenticate Sample.config (Sample.start (Sample.failing []) [])).2
    = <["Authorization" := tok]> (headers (Sample.start (Sample.failing []) [])) /\
    token_cache (authenticate Sample.config (Sample.start (Sample.failing []) [])).2
      !! client_id Sample.config = Some (tok, issued) /\
    now (authenticate Sample.config (Sample.start (Sample.failing []) [])).2 - issued
    <= 3600.
Proof.
  apply (authenticate_sets_header Sample.config (Sample.start (Sample.failing []) [])
           (authenticate Sample.config (Sample.start (Sample.failing []) [])).2).
  by vm_compute.
Defined.

Lemma call_loop_refused fuel a url params tries w :
  0 <= delay w ->
  (forall (tok : string) (issued : Z),
     token_cache w !! client_id a = Some (tok, issued) ->
     3600 < now w + delay w - issued) ->
  status_code (on_post (srv w) (posts w) (token_request (client_id a) (client_secret a)))
  <> 200 ->
  call_loop (S fuel) a url params tries w
  = (Raise AuthenticationError, with_posts (S (posts w)) (with_now (now w + delay w) w)).
Proof.
  intros Hdelay Hold Hrefused.
  set (pause := if negb (delay w =? 0) then sleep (delay w) else ret tt).
  assert (pause w = (Ok tt, with_now (now w + delay w) w)) as Hpause.
  { unfold pause. destruct (Z.eqb_spec (delay w) 0) as [H0|H0]; simpl.
    - rewrite H0, Z.add_0_r. by destruct w.
    - unfold sleep. by destruct (Z.ltb_spec (delay w) 0); [lia|]. }
  assert (authenticate a (with_now (now w + delay w) w)
          = (Raise AuthenticationError,
             with_posts (S (posts w)) (with_now (now w + delay w) w))) as Hauth.
  { unfold authenticate, _authenticate_impl_cached, bind, cache.
    rewrite authenticate_impl_refused by done. simpl.
    destruct (token_cache w !! client_id a) as [[tok issued]|] eqn:Hk; [|done].
    specialize (Hold tok issued eq_refl).
    by destruct (Z.leb_spec (now w + delay w - issued) 3600); [lia|]. }
  cbn [call_loop]. unfold bind at 1. unfold get_world at 1.
  fold pause. unfold bind at 1. rewrite Hpause.
  unfold bind at 1. by rewrite Hauth.
Qed.

(** X5: when the cache holds no token for the client id that is young enough
    at the time the pause ends, and the token endpoint answers with a
    status other than 200, a call raises [AuthenticationError] at its
    first attempt: it has posted one token request and has sent no
    request to the API, and the cache and the headers are as before. *)
Theorem call_authentication_error (a : api_config) (endpoint : string)
    (params : option (gmap string value)) (w : world) :
  0 <= delay w ->
  (forall (tok : string) (issued : Z),
     token_cache w !! client_id a = Some (tok, issued) ->
     3600 < now w + delay w - issued) ->
  status_code (on_post (srv w) (posts w) (token_request (client_id a) (client_secret a)))
  <> 200 ->
  (_call a endpoint params w).1 = Raise AuthenticationError /\
  gets (_call a endpoint params w).2 = gets w /\
  posts (_call a endpoint params w).2 = S (posts w) /\
  token_cache (_call a endpoint params w).2 = token_cache w /\
  headers (_call a endpoint params w).2 = headers w.
Proof.
  intros Hdelay Hold Hrefused. unfold _call, bind.
  by rewrite (call_loop_refused 2 a (api_url endpoint) params 1 w Hdelay Hold Hrefused).
Qed.

Lemma call_authentication_error_witness :
  (_call Sample.config "gallery/all" None (Sample.start Sample.locked [])).1
  = Raise AuthenticationError /\
  gets (_call Sample.config "gallery/all" None (Sample.start Sample.locked [])).2
  = 0%nat /\
  posts (_call Sample.config "gallery/all" None (Sample.start Sample.locked [])).2
  = 1%nat /\
  token_cache (_call Sample.config "gallery/all" None (Sample.start Sample.locked [])).2
  = ∅ /\
  headers (_call Sample.config "gallery/all" None (Sample.start Sample.locked [])).2
  = <["dA-minor-version" := "20160316"]> ∅.
Proof.
  apply (call_authentication_error Sample.config "gallery/all" None
           (Sample.start Sample.locked [])).
  - by vm_compute.
  - intros tok issued H. by vm_compute in H.
  - by vm_compute.
Defined.

(** ** The delay *)

Lemma preserves_keeps {A B} (f : world -> B) (Q : B -> Prop) (m : M A) :
  keeps f m -> preserves (fun w => Q (f w)) m.
Proof. intros Hk w Hw. by rewrite Hk. Qed.

Lemma preserves_bind {A C} (P : world -> Prop) (m : M A) (k : A -> M C) :
  preserves P m -> (forall a, preserves P (k a)) -> preserves P (bind m k).
Proof.
  intros Hm Hk w Hw. unfold bind. specialize (Hm w Hw).
  destruct (m w) as [[a|e] w']; simpl in *; [|done]. by apply Hk.
Qed.

Lemma preserves_call_loop_delay fuel a url params tries :
  preserves (fun w => 0 < delay w) (call_loop fuel a url params tries).
Proof.
  revert tries. induction fuel as [|fuel IH]; intros tries; [by intros w Hw|].
  cbn [call_loop].
  apply preserves_bind; [by intros w Hw|]. intros w0.
  apply preserves_bind.
  { apply (preserves_keeps delay (fun d => 0 < d)).
    apply keeps_if; [by apply keeps_sleep|apply keeps_ret]. }
  intros _. apply preserves_bind.
  { apply (preserves_keeps delay (fun d => 0 < d)). by apply keeps_authenticate. }
  intros _. apply preserves_bind.
  { apply (preserves_keeps delay (fun d => 0 < d)). by apply keeps_session_get. }
  intros resp. destruct (status_code resp =? 200); [by intros w Hw|].
  apply preserves_bind.
  { destruct (status_code resp =? 429); intros w Hw; simpl; lia. }
  intros _. destruct (tries + 1 >? 3); [by intros w Hw|apply IH].
Qed.

(** X6: the delay is never reset: once it is positive, it is positive after
    every call, whatever the server answers and however the call ends,
    so that every later attempt sleeps before its request. *)
Theorem call_keeps_delay_positive (a : api_config) (endpoint : string)
    (params : option (gmap string value)) (w : world) :
  0 < delay w ->
  0 < delay (_call a endpoint params w).2.
Proof.
  revert w. fold (preserves (fun w => 0 < delay w) (_call a endpoint params)).
  unfold _call. apply preserves_bind; [apply preserves_call_loop_delay|].
  intros resp. by destruct (json resp); intros w Hw.
Qed.

Lemma call_keeps_delay_positive_witness :
  0 < delay (_call Sample.config "gallery/all" None
               (with_delay 2 (Sample.start Sample.gallery_site []))).2.
Proof.
  apply (call_keeps_delay_positive Sample.config "gallery/all" None
           (with_delay 2 (Sample.start Sample.gallery_site []))).
  by vm_compute.
Defined.

(** ** Records *)

(** *** [prepare] *)

Lemma strip_strip m : strip (strip m) = strip m.
Proof.
  unfold strip. apply map_eq. intros k.
  destruct (decide (k = "thumbs")) as [->|?]; [by rewrite !lookup_delete_eq|].
  destruct (decide (k = "preview")) as [->|?];
    [by rewrite !(lookup_delete_ne _ "thumbs"), !lookup_delete_eq by done|].
  destruct (decide (k = "stats")) as [->|?].
  - rewrite !(lookup_delete_ne _ "thumbs"), !(lookup_delete_ne _ "preview") by done.
    by rewrite !lookup_delete_eq.
  - by rewrite !lookup_delete_ne by done.
Qed.

Lemma strip_insert_index m v : strip (<["index" := v]> m) = <["index" := v]> (strip m).
Proof. unfold strip. by rewrite !(delete_insert_ne _ _ "index") by done. Qed.

(** The loop over the three keys. *)
Lemma prepare_strips w r m :
  obj w r = VDict m ->
  for_each ["stats"; "preview"; "thumbs"]
    (fun key => bind (contains key r)
                  (fun present => if present then delitem r key else ret tt)) w
  = (Ok tt, update r (VDict (strip m)) w).
Proof.
  intros Hobj. simpl.
  unfold bind at 1.
  rewrite (strip_key w r m "stats") by done.
  set (w1 := update r (VDict (delete "stats" m)) w).
  assert (obj w1 r = VDict (delete "stats" m)) as H1 by by eapply obj_update_eq.
  unfold bind at 1.
  rewrite (strip_key w1 r _ "preview") by done.
  set (w2 := update r (VDict (delete "preview" (delete "stats" m))) w1).
  assert (obj w2 r = VDict (delete "preview" (delete "stats" m))) as H2
    by by eapply obj_update_eq.
  unfold bind at 1.
  rewrite (strip_key w2 r _ "thumbs") by done. fold (strip m).
  unfold ret, w2, w1. by rewrite !update_update.
Qed.

(** What [prepare] does to a record, whatever its [url] is. *)
Lemma prepare_run w r m :
  obj w r = VDict m ->
  prepare r w =
    match m !! "url" with
    | None => (Ok tt, update r (VDict (<["index" := VInt 0]> (strip m))) w)
    | Some (VStr s) =>
        match rsplit1 hyphen s with
        | Some (_, b) => (Ok tt, update r (VDict (<["index" := VStr b]> (strip m))) w)
        | None => (Raise IndexError, update r (VDict (strip m)) w)
        end
    | Some _ => (Raise AttributeError, update r (VDict (strip m)) w)
    end.
Proof.
  intros Hobj. unfold prepare. unfold bind at 1.
  rewrite (prepare_strips w r m Hobj).
  set (w3 := update r (VDict (strip m)) w).
  assert (obj w3 r = VDict (strip m)) as H3 by by eapply obj_update_eq.
  assert (strip m !! "url" = m !! "url") as Hlook.
  { unfold strip. by rewrite !lookup_delete_ne. }
  unfold except_KeyError, bind.
  rewrite (getitem_dict w3 r (strip m)) by done. rewrite Hlook.
  destruct (m !! "url") as [[| | |s| | |]|]; try done.
  - unfold rsplit. destruct (rsplit1 hyphen s) as [[a b]|]; simpl; [|done].
    rewrite (setitem_dict w3 r (strip m)) by done.
    unfold w3. by rewrite update_update.
  - rewrite (setitem_dict w3 r (strip m)) by done.
    unfold w3. by rewrite update_update.
Qed.

(** X7: a [url] that is no string, or a string without a hyphen, makes
    [prepare] raise [AttributeError] and [IndexError], which its
    [except KeyError] lets through; the record has lost [stats],
    [preview] and [thumbs] by then, and its [index] is not set. *)
Theorem prepare_raises (w : world) (r : loc) (m : gmap string value) (u : value) :
  obj w r = VDict m ->
  m !! "url" = Some u ->
  (forall s : string, u = VStr s -> has_char hyphen s = false) ->
  prepare r w
  = (Raise (match u with VStr _ => IndexError | _ => AttributeError end),
     update r (VDict (strip m)) w).
Proof.
  intros Hobj Hurl Hno. rewrite (prepare_run w r m Hobj), Hurl.
  destruct u as [| | |s| | |]; try done.
  by rewrite (rsplit1_None _ _ (Hno s eq_refl)).
Qed.

Lemma prepare_raises_witness :
  prepare 0%nat Sample.stash
  = (Raise IndexError,
     update 0%nat (VDict (strip (Sample.with_url "https://sta.sh/01ijs78ebagf")))
       Sample.stash).
Proof.
  apply (prepare_raises Sample.stash 0%nat (Sample.with_url "https://sta.sh/01ijs78ebagf")
           (VStr "https://sta.sh/01ijs78ebagf")).
  - reflexivity.
  - reflexivity.
  - intros s [= <-]. reflexivity.
Defined.

(** A record [prepare] has returned from is a dictionary with its index. *)
Lemma prepare_ok_inv r w w' :
  prepare r w = (Ok tt, w') ->
  exists m index,
    obj w r = VDict m /\ w' = update r (VDict (<["index" := index]> (strip m))) w /\
    prepare r w' = (Ok tt, w').
Proof.
  intros H.
  destruct (obj w r) as [| | |s|l|m|] eqn:Hobj.
  1-5,7: exfalso; revert H; unfold prepare; simpl;
    unfold bind, contains, delitem, except_KeyError, getitem; rewrite ?Hobj; simpl;
    repeat (match goal with
            | |- context [if ?b then _ else _] => destruct b; simpl; rewrite ?Hobj; simpl
            end); done.
  pose proof (prepare_run w r m Hobj) as Hrun. rewrite H in Hrun.
  assert (forall index,
    (forall m', m' !! "url" = m !! "url" -> obj w' r = VDict m' ->
       prepare r w' = (Ok tt, update r (VDict (<["index" := index]> (strip m'))) w')) ->
    w' = update r (VDict (<["index" := index]> (strip m))) w ->
    exists m0 index0, VDict m = VDict m0 /\
      w' = update r (VDict (<["index" := index0]> (strip m0))) w /\
      prepare r w' = (Ok tt, w')) as Hgoal.
  { intros index Hagain Hw'. exists m, index. split; [done|]. split; [done|].
    rewrite (Hagain (<["index" := index]> (strip m))).
    - rewrite strip_insert_index, strip_strip, insert_insert_eq.
      rewrite Hw'. by rewrite update_update.
    - rewrite lookup_insert_ne by done. unfold strip. by rewrite !lookup_delete_ne.
    - rewrite Hw'. by eapply obj_update_eq. }
  destruct (m !! "url") as [[| | |s| | |]|] eqn:Hurl; try done.
  - destruct (rsplit1 hyphen s) as [[a b]|] eqn:Hsplit; [|done].
    injection Hrun as ->. apply (Hgoal (VStr b)); [|done].
    intros m' Hm' Hobj'. rewrite (prepare_run _ r m' Hobj'), Hm'. by rewrite Hsplit.
  - injection Hrun as ->. apply (Hgoal (VInt 0)); [|done].
    intros m' Hm' Hobj'. by rewrite (prepare_run _ r m' Hobj'), Hm'.
Qed.

(** X8: [prepare] is idempotent: on a record it has returned from, it
    returns again and changes nothing. *)
Theorem prepare_idempotent (r : loc) (w w' : world) :
  prepare r w = (Ok tt, w') -> prepare r w' = (Ok tt, w').
Proof. intros H. by destruct (prepare_ok_inv r w w' H) as (m & index & _ & _ & ?). Qed.

Lemma prepare_idempotent_witness :
  prepare 0%nat (prepare 0%nat Sample.art).2 = (Ok tt, (prepare 0%nat Sample.art).2).
Proof.
  apply (prepare_idempotent 0%nat Sample.art (prepare 0%nat Sample.art).2).
  by vm_compute.
Defined.

(** *** [commit] *)

Section Records.
Context {lib : library}.

(** X9: the commit of a target with a [src], for which the helper finds a
    name and an extension: the record holds the named copy of the target
    and its extension, and the message is the [Url] message of the
    source for the record. *)
Theorem commit_stores (r : loc) (t : value) (w : world) (m : gmap string value)
    (u named ext : value) :
  obj w r = VDict m ->
  py_getitem t "src" = Ok u ->
  text_nameext_from_url u t = Ok named ->
  py_getitem named "extension" = Ok ext ->
  commit r t w
  = (Ok (Url u r),
     update r (VDict (<["extension" := ext]> (<["target" := named]> m))) w).
Proof.
  intros Hobj Hsrc Hnamed Hext. unfold commit, bind, lift.
  rewrite Hsrc, Hnamed.
  rewrite (setitem_dict _ _ m) by done.
  set (w1 := update r (VDict (<["target" := named]> m)) w).
  assert (obj w1 r = VDict (<["target" := named]> m)) as H1 by by eapply obj_update_eq.
  rewrite (getitem_dict _ _ _ _ H1), lookup_insert_eq, Hext.
  rewrite (setitem_dict _ _ _ _ _ H1). unfold w1. by rewrite update_update.
Qed.

(** X10: a commit that raises has changed no field of the record other than
    [target]: the extension is still the one of the payload before, if
    any. *)
Theorem commit_raises (r : loc) (t : value) (w : world) (e : exn) (k : string) :
  (commit r t w).1 = Raise e ->
  k <> "target" ->
  field r k (commit r t w).2 = field r k w.
Proof.
  intros Hraise Hk. destruct (commit r t w) as [res w'] eqn:Hc.
  simpl in *. subst res. unfold commit, bind, lift in Hc.
  destruct (py_getitem t "src") as [u|]; [|by injection Hc as _ <-].
  destruct (text_nameext_from_url u t) as [named|]; [|by injection Hc as _ <-].
  unfold setitem at 1 in Hc.
  destruct (obj w r) as [| | | | |m|] eqn:Hobj; try by injection Hc as _ <-.
  change (store r (VDict (<["target" := named]> m)) w)
    with (Ok tt, update r (VDict (<["target" := named]> m)) w) in Hc.
  cbv beta iota in Hc.
  set (w1 := update r (VDict (<["target" := named]> m)) w) in Hc.
  assert (obj w1 r = VDict (<["target" := named]> m)) as H1 by by eapply obj_update_eq.
  rewrite (getitem_dict _ _ _ _ H1), lookup_insert_eq in Hc.
  destruct (py_getitem named "extension") as [ext|].
  - by rewrite (setitem_dict _ _ _ _ _ H1) in Hc.
  - injection Hc as _ <-. unfold field. rewrite H1, Hobj. simpl.
    by rewrite lookup_insert_ne.
Qed.

End Records.

Lemma commit_stores_witness :
  commit 0%nat (VDict (<["src" := VStr "http://img/x.jpg"]> ∅)) Sample.anonymous
  = (Ok (Url (VStr "http://img/x.jpg") 0%nat),
     update 0%nat
       (VDict (<["extension" := VStr "jpg"]>
                 (<["target" := VDict (<["extension" := VStr "jpg"]>
                                         (<["name" := VStr "x"]>
                                            (<["filename" := VStr "x.jpg"]>
                                               (<["src" := VStr "http://img/x.jpg"]>
                                                  ∅))))]>
                    Sample.anonymous_image)))
       Sample.anonymous).
Proof.
  apply (commit_stores 0%nat (VDict (<["src" := VStr "http://img/x.jpg"]> ∅))
           Sample.anonymous Sample.anonymous_image).
  - reflexivity.
  - reflexivity.
  - reflexivity.
  - reflexivity.
Defined.

Lemma commit_raises_witness :
  field 0%nat "extension" (commit 0%nat (VDict ∅) Sample.anonymous).2
  = field 0%nat "extension" Sample.anonymous.
Proof.
  apply (commit_raises 0%nat (VDict ∅) Sample.anonymous (KeyError "src") "extension").
  - reflexivity.
  - done.
Defined.

(** *** The choice of a video *)

Lemma max_from_keys {A} (key : A -> result Z) (l : list A) best kbest v :
  max_from key best kbest l = Ok v ->
  exists ns : list Z, Forall2 (fun x n => key x = Ok n) l ns.
Proof.
  revert best kbest. induction l as [|x l IH]; intros best kbest; simpl.
  - intros _. by exists [].
  - destruct (key x) as [kx|] eqn:Hx; [|done].
    destruct (kbest <? kx); intros [ns Hns]%IH; exists (kx :: ns); by constructor.
Qed.

(** X11: a video that is selected is one of a list: every element of the
    list has a quality whose text without its last character [int]
    reads as a number, no element has a larger number than the selected
    one, and the ones before it have smaller numbers.  So one quality
    that does not parse makes the selection fail as a whole. *)
Theorem select_video_sound (videos v : value) :
  select_video videos = Ok v ->
  exists (l : list value) (ns : list Z) (i : nat) (n : Z),
    videos = VList l /\
    Forall2 (fun x k => video_quality x = Ok k) l ns /\
    l !! i = Some v /\ ns !! i = Some n /\
    (forall (j : nat) (m : Z), ns !! j = Some m -> m <= n) /\
    (forall (j : nat) (m : Z), (j < i)%nat -> ns !! j = Some m -> m < n).
Proof.
  unfold select_video. intros H.
  assert (exists l, videos = VList l /\ py_max video_quality l = Ok v) as (l & -> & Hmax).
  { destruct videos as [| | |s|l|m|]; try done.
    - exfalso. simpl in H. destruct (list_ascii_of_string s) as [|c cs]; done.
    - by exists l.
    - exfalso. simpl in H. destruct (map_to_list m) as [|[k x] kvs]; done. }
  assert (exists ns, Forall2 (fun x k => video_quality x = Ok k) l ns /\ l <> [])
    as (ns & Hns & Hne).
  { destruct l as [|x l]; [done|]. simpl in Hmax.
    destruct (video_quality x) as [kx|] eqn:Hx; [|done].
    apply max_from_keys in Hmax as [ns Hns]. exists (kx :: ns). split; [|done].
    by constructor. }
  destruct (py_max_spec video_quality l ns Hne Hns)
    as (i & v' & n & Hi & Hn & Hmax' & Hall & Hfirst).
  rewrite Hmax in Hmax'. injection Hmax' as <-.
  by exists l, ns, i, n.
Qed.

Lemma select_video_sound_witness :
  exists (l : list value) (ns : list Z) (i : nat) (n : Z),
    VList Sample.renditions = VList l /\
    Forall2 (fun x k => video_quality x = Ok k) l ns /\
    l !! i = Some (Sample.rendition "1080p" "http://v/1080.mp4") /\ ns !! i = Some n /\
    (forall (j : nat) (m : Z), ns !! j = Some m -> m <= n) /\
    (forall (j : nat) (m : Z), (j < i)%nat -> ns !! j = Some m -> m < n).
Proof.
  apply (select_video_sound (VList Sample.renditions)
           (Sample.rendition "1080p" "http://v/1080.mp4")).
  by vm_compute.
Defined.

(** ** The stream of messages *)

Section Stream.
Context {lib : library}.

Lemma keeps_collections_emitted a user folderid offset :
  keeps emitted (collections a user folderid offset).
Proof.
  unfold collections. apply keeps_bind; [apply keeps_lift|]. intros e. apply keeps_ret.
Qed.

Lemma keeps_deviations_deviation_emitted a url :
  keeps emitted (deviations_deviation a url).
Proof.
  unfold deviations_deviation.
  apply keeps_bind; [by apply keeps_session_get|]. intros resp.
  destruct (text_extract _ _ _) as [id|]; [|apply keeps_raise].
  destruct (_ || _); [apply keeps_raise|].
  apply keeps_bind; [apply keeps_call, emitted_blind|]. intros d.
  apply keeps_bind; [apply keeps_alloc_emitted|]. intros r. apply keeps_ret.
Qed.

Lemma keeps_find_folder_emitted fuel a user offset collection regex folders :
  keeps emitted (find_folder fuel a user offset collection regex folders).
Proof.
  revert folders. induction fuel as [|fuel IH]; intros folders; [apply keeps_raise|].
  cbn [find_folder].
  apply keeps_bind; [apply keeps_pagination_next_emitted|].
  intros [[folder|] folders']; [|apply keeps_raise].
  apply keeps_bind; [apply keeps_getitem|]. intros name.
  destruct name as [| | |s| | |]; try apply keeps_raise.
  destruct (regex s); [|apply IH].
  apply keeps_bind; [apply keeps_getitem|]. intros name.
  apply keeps_bind; [apply keeps_setitem_emitted|]. intros _.
  apply keeps_bind; [apply keeps_getitem|]. intros folderid.
  apply keeps_bind; [apply keeps_collections_emitted|]. intros g. apply keeps_ret.
Qed.

Lemma keeps_all_folders_emitted fuel a user offset folders :
  keeps emitted (all_folders fuel a user offset folders).
Proof.
  revert folders. induction fuel as [|fuel IH]; intros folders; [apply keeps_raise|].
  cbn [all_folders].
  apply keeps_bind; [apply keeps_pagination_next_emitted|].
  intros [[folder|] folders']; [|apply keeps_ret].
  apply keeps_bind; [apply keeps_getitem|]. intros folderid.
  apply keeps_bind; [apply keeps_collections_emitted|]. intros g.
  apply keeps_bind; [apply IH|]. intros gs. apply keeps_ret.
Qed.

(** Looking for the records yields nothing. *)
Lemma keeps_deviations_emitted fuel self : keeps emitted (deviations fuel self).
Proof.
  unfold deviations. destruct (kind self) as [|user|url|user favname [] collection].
  - apply keeps_ret.
  - apply keeps_ret.
  - apply keeps_deviations_deviation_emitted.
  - apply keeps_bind; [apply keeps_all_folders_emitted|]. intros gs. apply keeps_ret.
  - unfold deviations_favorite. destruct (re_compile _); [|apply keeps_raise].
    apply keeps_find_folder_emitted.
Qed.

Lemma emits_items_loop_records fuel self s la :
  emits of_a_record (items_loop fuel self s la).
Proof.
  revert s la. induction fuel as [|fuel IH]; intros s la; simpl.
  { apply emits_keeps, keeps_raise. }
  apply emits_bind; [apply emits_keeps, keeps_source_next_emitted|].
  intros [[r|] s']; [|apply emits_keeps, keeps_ret].
  apply emits_bind; [|intros la'; apply IH].
  eapply emits_weaken; [|apply emits_items_record]. intros msg Hmsg. by exists r.
Qed.

(** X12: every run of [items], of whatever extractor and whether it ends or
    raises, yields the [Version] message first and no second one: the
    messages that follow are [Directory] and [Url] messages. *)
Theorem items_version_first (fuel : nat) (self : extractor) (w : world) :
  exists msgs : list message,
    emitted (items fuel self w).2 = emitted w ++ Version 1 :: msgs /\
    Forall of_a_record msgs.
Proof.
  unfold items, bind. unfold yield at 1, modify at 1.
  set (w0 := with_emitted (emitted w ++ [Version 1]) w).
  pose proof (keeps_deviations_emitted fuel self w0) as Hdev.
  destruct (deviations fuel self w0) as [[s|e] w1]; simpl in Hdev.
  - destruct (emits_items_loop_records fuel self s VNone w1) as (msgs & Hmsgs & Hall).
    exists msgs. rewrite Hmsgs, Hdev. simpl. by rewrite <- app_assoc.
  - exists []. simpl. by rewrite Hdev.
Qed.

(** X13: when the page of a single deviation is not answered 200, or holds no
    deviation id, the run yields the [Version] message and raises
    [NotFoundError("image")]; it has requested the page and nothing else:
    no token and nothing of the API. *)
Theorem items_page_not_found (fuel : nat) (self : extractor) (url : string) (w : world) :
  kind self = DeviationExtractor url ->
  status_code (on_get (srv w) (gets w) url None) <> 200 \/
  text_extract (text (on_get (srv w) (gets w) url None)) "//deviation/" dq = None \/
  text_extract (text (on_get (srv w) (gets w) url None)) "//deviation/" dq = Some "" ->
  items fuel self w
  = (Raise (NotFoundError "image"),
     with_gets (S (gets w)) (with_emitted (emitted w ++ [Version 1]) w)).
Proof.
  intros Hkind Hpage. unfold items, bind. unfold yield at 1, modify at 1.
  unfold deviations. rewrite Hkind. unfold deviations_deviation, bind, session_get.
  simpl.
  destruct Hpage as [Hstatus|[Hnone|Hempty]].
  - apply Z.eqb_neq in Hstatus. rewrite Hstatus. simpl.
    by destruct (text_extract _ _ _).
  - by rewrite Hnone.
  - rewrite Hempty. by rewrite orb_true_r.
Qed.

(** X22: when the page of a single deviation is answered 200 and holds a
    deviation id, and the API answers the request for that deviation
    200 at once, the source is one record, a new object that holds what
    the API answered (an empty dictionary when that is no JSON); the
    page and the API were requested once each. *)
Theorem deviation_page_found (a : api_config) (url id : string) (w : world) :
  token_endpoint_ok (srv w) ->
  0 <= delay w ->
  status_code (on_get (srv w) (gets w) url None) = 200 ->
  text_extract (text (on_get (srv w) (gets w) url None)) "//deviation/" dq = Some id ->
  id <> "" ->
  status_code (on_get (srv w) (S (gets w)) (api_url ("deviation/" +:+ id)) None) = 200 ->
  exists w' : world,
    deviations_deviation a url w = (Ok (SrcList [length (heap w)]), w') /\
    heap w'
    = heap w ++ [default (VDict ∅)
                   (json (on_get (srv w) (S (gets w))
                            (api_url ("deviation/" +:+ id)) None))] /\
    gets w' = (gets w + 2)%nat.
Proof.
  intros Hok Hdelay Hpage Hid Hne Hanswer.
  unfold deviations_deviation, bind. unfold session_get at 1.
  rewrite Hid, Hpage. rewrite bool_decide_false by done.
  change (negb (200 =? 200) || false) with false. cbv beta iota.
  set (w0 := with_gets (S (gets w)) w).
  destruct (call_loop_success a (api_url ("deviation/" +:+ id)) None 0 3 1 w0)
    as (w1 & Hloop & Hgets); try done; try lia.
  { by rewrite Nat.add_0_r. }
  pose proof (keeps_call_loop heap 3 a (api_url ("deviation/" +:+ id)) None 1
                heap_blind w0) as Hheap.
  rewrite Hloop in Hheap. cbn [snd] in Hheap.
  change (heap w0) with (heap w) in Hheap.
  change (gets w0) with (S (gets w)) in Hloop, Hgets.
  change (srv w0) with (srv w) in Hloop.
  rewrite Nat.add_0_r in Hloop, Hgets.
  unfold deviation, _call, bind. rewrite Hloop.
  destruct (json _) as [d|]; unfold ret, alloc; cbv beta iota; rewrite Hheap;
    (eexists; split; [reflexivity|]; simpl; split; [done|lia]).
Qed.

(** *** The payloads *)

Lemma payload_absent {A} r key w m (body : M unit) (k : unit -> M A) :
  obj w r = VDict m ->
  m !! key = None ->
  bind (contains key r) (fun has => bind (if has then body else ret tt) k) w = k tt w.
Proof.
  intros Hobj Hkey. unfold bind at 1. rewrite (contains_dict w r m) by done.
  rewrite Hkey. by rewrite bool_decide_false by by intros [??].
Qed.

(** X14: a record without image, videos, animation and excerpt gives no
    message and is left as it is; when it has an [html] field, that it is
    skipped is logged. *)
Theorem payloads_none (self : extractor) (r : loc) (w : world) (m : gmap string value) :
  obj w r = VDict m ->
  m !! "content" = None -> m !! "videos" = None -> m !! "flash" = None ->
  m !! "excerpt" = None ->
  items_payloads self r w
  = (Ok tt,
     if bool_decide (is_Some (m !! "html"))
     then with_log (log w ++ [LogSkippingJournal]) w else w).
Proof.
  intros Hobj Hcontent Hvideos Hflash Hexcerpt. unfold items_payloads.
  rewrite (payload_absent r "content" w m) by done.
  rewrite (payload_absent r "videos" w m) by done.
  rewrite (payload_absent r "flash" w m) by done.
  rewrite (payload_absent r "excerpt" w m) by done.
  unfold bind. rewrite (contains_dict w r m) by done.
  by destruct (bool_decide _).
Qed.

(** The journal block of the loop body. *)
Lemma journal_run (self : extractor) (r : loc) (w w1 : world) (m d : gmap string value)
    (e id html : value) (t : string) :
  obj w r = VDict m ->
  m !! "content" = None -> m !! "videos" = None -> m !! "flash" = None ->
  m !! "excerpt" = Some e ->
  m !! "deviationid" = Some id ->
  m !! "title" = Some (VStr t) ->
  deviation_content (api self) id w = (Ok (VDict d), w1) ->
  d !! "html" = Some html ->
  let doc := journal_format (text_escape t) (format_field html)
               (format_field (default (VStr "") (d !! "css"))) in
  let w2 := with_emitted (emitted w ++ [Url (VStr doc) r])
              (update r (VDict (<["extension" := VStr "htm"]> m)) w1) in
  items_payloads self r w
  = (Ok tt,
     if bool_decide (is_Some (m !! "html"))
     then with_log (log w2 ++ [LogSkippingJournal]) w2 else w2).
Proof.
  intros Hobj Hcontent Hvideos Hflash Hexcerpt Hid Htitle Hcall Hhtml doc w2.
  assert (heap w1 = heap w) as Hheap by by eapply call_heap.
  assert (emitted w1 = emitted w) as Hemitted.
  { pose proof (keeps_deviation_content emitted (api self) id emitted_blind w) as Hk.
    by rewrite Hcall in Hk. }
  assert (obj w1 r = VDict m) as Hobj1 by (unfold obj in *; by rewrite Hheap).
  set (w1' := update r (VDict (<["extension" := VStr "htm"]> m)) w1).
  assert (obj w1' r = VDict (<["extension" := VStr "htm"]> m)) as Hobj1'
    by by eapply obj_update_eq.
  assert (obj w2 r = VDict (<["extension" := VStr "htm"]> m)) as Hobj2 by done.
  unfold items_payloads.
  rewrite (payload_absent r "content" w m) by done.
  rewrite (payload_absent r "videos" w m) by done.
  rewrite (payload_absent r "flash" w m) by done.
  unfold bind at 1. rewrite (contains_dict w r m) by done.
  rewrite Hexcerpt, bool_decide_true by done.
  unfold bind at 1.
  match goal with |- context [match ?J w with _ => _ end] =>
    assert (J w = (Ok tt, w2)) as -> end.
  { unfold bind at 1. rewrite (getitem_dict w r m) by done. rewrite Hid.
    unfold bind at 1. rewrite Hcall.
    unfold bind at 1. rewrite (setitem_dict w1 r m) by done. fold w1'.
    unfold bind at 1. rewrite (getitem_dict w1' r _ _ Hobj1').
    rewrite lookup_insert_ne by done. rewrite Htitle.
    unfold bind at 1, ret at 1.
    unfold bind at 1, lift at 1. simpl py_getitem. rewrite Hhtml.
    unfold bind at 1, lift at 1. simpl py_contains.
    unfold bind at 1.
    assert (forall (c : result value * world) css,
              c = (Ok css, w1') -> css = default (VStr "") (d !! "css") ->
              (let (r0, w') := c in
               match r0 with
               | Ok a =>
                   yield (Url (VStr (journal_format (text_escape t) (format_field html)
                                       (format_field a))) r) w'
               | Raise e0 => (Raise e0, w')
               end) = (Ok tt, w2)) as Hlast.
    { intros c css -> ->. unfold yield, modify. unfold w2, doc. do 2 f_equal.
      unfold w1', update, with_emitted. simpl. by rewrite Hemitted. }
    destruct (d !! "css") as [css|] eqn:Hcss.
    - rewrite bool_decide_true by done. by apply (Hlast _ css).
    - rewrite bool_decide_false by by intros [??]. by apply (Hlast _ (VStr "")). }
  unfold bind. rewrite (contains_dict w2 r _ _ Hobj2).
  rewrite lookup_insert_ne by done.
  by destruct (bool_decide _).
Qed.

(** X15: a journal: for a record with an excerpt and no other payload, whose
    content the API gives, the loop body yields one [Url] message that
    holds the document made from the template with the escaped title,
    the HTML and the CSS of the content (no CSS when the content has
    none); the extension of the record is [htm], and its target is not
    touched. *)
Theorem journal_document (self : extractor) (r : loc) (w w1 : world)
    (m d : gmap string value) (e id html : value) (t : string) :
  obj w r = VDict m ->
  m !! "content" = None -> m !! "videos" = None -> m !! "flash" = None ->
  m !! "excerpt" = Some e ->
  m !! "deviationid" = Some id ->
  m !! "title" = Some (VStr t) ->
  deviation_content (api self) id w = (Ok (VDict d), w1) ->
  d !! "html" = Some html ->
  (items_payloads self r w).1 = Ok tt /\
  emitted (items_payloads self r w).2
  = emitted w ++ [Url (VStr (journal_format (text_escape t) (format_field html)
                               (format_field (default (VStr "") (d !! "css"))))) r] /\
  field r "extension" (items_payloads self r w).2 = Ok (VStr "htm") /\
  field r "target" (items_payloads self r w).2 = field r "target" w.
Proof.
  intros Hobj Hcontent Hvideos Hflash Hexcerpt Hid Htitle Hcall Hhtml.
  rewrite (journal_run self r w w1 m d e id html t) by done.
  assert (heap w1 = heap w) as Hheap by by eapply call_heap.
  assert (obj w1 r = VDict m) as Hobj1 by (unfold obj in *; by rewrite Hheap).
  set (w2 := with_emitted _ _).
  assert (obj w2 r = VDict (<["extension" := VStr "htm"]> m)) as Hobj2.
  { unfold w2. change (obj (with_emitted ?l ?x) r) with (obj x r).
    by eapply obj_update_eq. }
  assert (forall x, (if bool_decide (is_Some (m !! "html"))
                     then with_log (log x ++ [LogSkippingJournal]) x else x)
                    = x \/ (if bool_decide (is_Some (m !! "html"))
                            then with_log (log x ++ [LogSkippingJournal]) x else x)
                           = with_log (log x ++ [LogSkippingJournal]) x) as Hlog.
  { intros x. destruct (bool_decide _); by eauto. }
  split; [done|].
  destruct (Hlog w2) as [-> | ->].
  - cbn [snd]. unfold field. rewrite Hobj2, Hobj. simpl.
    rewrite lookup_insert_eq, lookup_insert_ne by done. by repeat split.
  - cbn [snd]. unfold field. change (obj (with_log ?l ?x) r) with (obj x r).
    rewrite Hobj2, Hobj. simpl.
    rewrite lookup_insert_eq, lookup_insert_ne by done. by repeat split.
Qed.

(** *** The Directory message *)

(** X16: for a record with an author, the loop body yields a [Directory]
    message exactly when the author is not equal to the one of the
    record before, and then takes it as the last author; an equal author
    leaves the last author as it is.  [Url] messages of the record
    follow. *)
Theorem directory_on_author_change (self : extractor) (r : loc) (la la' au : value)
    (w w' : world) (m : gmap string value) :
  obj w r = VDict m ->
  m !! "author" = Some au ->
  items_record self r la w = (Ok la', w') ->
  la' = (if py_eq au la then la else au) /\
  exists urls : list message,
    Forall (is_url_of r) urls /\
    emitted w' = emitted w ++ (if py_eq au la then [] else [Directory r]) ++ urls.
Proof.
  intros Hobj Hauthor H. unfold items_record in H.
  apply bind_ok_inv in H as ([] & w1 & Hprepare & H).
  apply bind_ok_inv in H as (author & w2 & Hresolve & H).
  apply bind_ok_inv in H as (la2 & w3 & Hdir & H).
  apply bind_ok_inv in H as ([] & w4 & Hpayloads & H).
  apply ret_ok_inv in H as [-> ->].
  pose proof (keeps_prepare_of_emitted self r w) as He1.
  pose proof (keeps_prepare_of_field self r "author"
                ltac:(done) ltac:(done) ltac:(done) ltac:(done) ltac:(done) w) as Hf1.
  rewrite Hprepare in He1, Hf1. simpl in He1, Hf1.
  assert (field r "author" w1 = Ok au) as Hau.
  { rewrite Hf1. unfold field. rewrite Hobj. simpl. by rewrite Hauthor. }
  assert (author = au /\ w2 = w1) as [-> ->].
  { unfold except_KeyError, getitem in Hresolve. fold (field r "author" w1) in Hresolve.
    rewrite Hau in Hresolve. by injection Hresolve as <- <-. }
  destruct (emits_items_payloads self r w3) as (urls & Hurls & Hall).
  rewrite Hpayloads in Hurls. simpl in Hurls.
  destruct (py_eq au la); simpl in Hdir.
  - apply ret_ok_inv in Hdir as [-> ->]. split; [done|].
    exists urls. split; [done|]. by rewrite Hurls, He1.
  - unfold bind, yield, modify, ret in Hdir. injection Hdir as <- <-.
    split; [done|]. exists urls. split; [done|].
    rewrite Hurls. simpl. by rewrite He1, <- app_assoc.
Qed.

End Stream.

Lemma items_page_not_found_witness :
  items 0 Sample.single
    (Sample.start (Sample.folders_site []) [])
  = (Raise (NotFoundError "image"),
     with_gets 1 (with_emitted ([] ++ [Version 1])
                    (Sample.start (Sample.folders_site []) []))).
Proof.
  apply (items_page_not_found 0 Sample.single Sample.page_url
           (Sample.start (Sample.folders_site []) [])).
  - reflexivity.
  - left. by vm_compute.
Defined.

Lemma payloads_none_witness :
  items_payloads Sample.base 0%nat
    (Sample.start (Sample.failing []) [VDict (<["html" := VStr "<p>text</p>"]> ∅)])
  = (Ok tt,
     if bool_decide (is_Some ((<["html" := VStr "<p>text</p>"]> ∅ : gmap string value)
                                !! "html"))
     then with_log ([] ++ [LogSkippingJournal])
            (Sample.start (Sample.failing []) [VDict (<["html" := VStr "<p>text</p>"]> ∅)])
     else Sample.start (Sample.failing []) [VDict (<["html" := VStr "<p>text</p>"]> ∅)]).
Proof.
  apply (payloads_none Sample.base 0%nat
           (Sample.start (Sample.failing []) [VDict (<["html" := VStr "<p>text</p>"]> ∅)])
           (<["html" := VStr "<p>text</p>"]> ∅)); reflexivity.
Defined.

Lemma journal_document_witness :
  (items_payloads Sample.single 0%nat
     (Sample.start (Sample.journal_site Sample.journal) [VDict Sample.journal])).1
  = Ok tt /\
  emitted (items_payloads Sample.single 0%nat
             (Sample.start (Sample.journal_site Sample.journal) [VDict Sample.journal])).2
  = [] ++ [Url (VStr (journal_format (Sample.escape "Me & <you>")
                        (format_field (VStr "<p>Dear diary, ...</p>"))
                        (format_field (VStr "p { margin: 0 }")))) 0%nat] /\
  field 0%nat "extension"
    (items_payloads Sample.single 0%nat
       (Sample.start (Sample.journal_site Sample.journal) [VDict Sample.journal])).2
  = Ok (VStr "htm") /\
  field 0%nat "target"
    (items_payloads Sample.single 0%nat
       (Sample.start (Sample.journal_site Sample.journal) [VDict Sample.journal])).2
  = field 0%nat "target"
      (Sample.start (Sample.journal_site Sample.journal) [VDict Sample.journal]).
Proof.
  exact (journal_document Sample.single 0%nat
           (Sample.start (Sample.journal_site Sample.journal) [VDict Sample.journal])
           (deviation_content Sample.config (VStr "J7")
              (Sample.start (Sample.journal_site Sample.journal) [VDict Sample.journal])).2
           Sample.journal
           (<["html" := VStr "<p>Dear diary, ...</p>"]>
              (<["css" := VStr "p { margin: 0 }"]> ∅))
           (VStr "Dear diary") (VStr "J7") (VStr "<p>Dear diary, ...</p>") "Me & <you>"
           eq_refl eq_refl eq_refl eq_refl eq_refl eq_refl eq_refl eq_refl eq_refl).
Defined.

Lemma directory_on_author_change_witness :
  Sample.author = (if py_eq Sample.author VNone then VNone else Sample.author) /\
  exists urls : list message,
    Forall (is_url_of 0%nat) urls /\
    emitted (items_record Sample.base 0%nat VNone Sample.animated).2
    = emitted Sample.animated
      ++ (if py_eq Sample.author VNone then [] else [Directory 0%nat]) ++ urls.
Proof.
  apply (directory_on_author_change Sample.base 0%nat VNone Sample.author Sample.author
           Sample.animated (items_record Sample.base 0%nat VNone Sample.animated).2
           Sample.animated_image).
  - reflexivity.
  - reflexivity.
  - by vm_compute.
Defined.

Lemma deviation_page_found_witness :
  exists w' : world,
    deviations_deviation Sample.config Sample.page_url
      (Sample.start (Sample.journal_site Sample.journal) [])
    = (Ok (SrcList [0%nat]), w') /\
    heap w' = [] ++ [default (VDict ∅) (Some (VDict Sample.journal))] /\
    gets w' = (0 + 2)%nat.
Proof.
  apply (deviation_page_found Sample.config Sample.page_url "J7"
           (Sample.start (Sample.journal_site Sample.journal) [])).
  - intros n data. exists (VDict (<["access_token" := VStr "abc"]> ∅)), "abc".
    by vm_compute.
  - by vm_compute.
  - by vm_compute.
  - by vm_compute.
  - done.
  - by vm_compute.
Defined.

(** ** The sources *)

(** *** [_pagination] *)

(** Inside [yield from], the elements are given one after the other. *)
Lemma yields_elements a elements data endpoint params w :
  yields a (PagYield elements data endpoint params) w elements
    (PagYield [] data endpoint params) (with_heap (heap w ++ elements) w).
Proof.
  revert w. induction elements as [|x rest IH]; intros w.
  - rewrite app_nil_r, with_heap_id. apply yields_nil.
  - eapply yields_cons; [apply converges_next_yield|done|].
    specialize (IH (with_heap (heap w ++ [x]) w)).
    simpl in IH. rewrite with_heap_with_heap, <- app_assoc in IH. exact IH.
Qed.

(** X17: a response that has [results] and no [has_more]: the generator
    gives every element of the results, and the [next] after the last
    one raises [KeyError]; nothing tells the consumer before. *)
Theorem pagination_without_has_more (a : api_config) (endpoint : string)
    (params : option (gmap string value)) (w w1 : world) (data : value)
    (elements : list value) :
  _call a endpoint params w = (Ok data, w1) ->
  py_getitem data "results" = Ok (VList elements) ->
  py_getitem data "has_more" = Raise (KeyError "has_more") ->
  exists (g : pagination) (w2 : world),
    yields a (PagCall endpoint params) w elements g w2 /\
    converges (fun fuel => _pagination_next fuel a g) w2
      (Raise (KeyError "has_more")) (with_heap (heap w1 ++ elements) w1).
Proof.
  intros Hcall Hresults Hmore.
  assert (py_contains "results" data = Ok true) as Hhas.
  { destruct data as [| | | | |m|]; try done. simpl in *.
    destruct (m !! "results"); [|done]. by rewrite bool_decide_true. }
  assert (forall w0,
    converges (fun fuel => _pagination_next fuel a (PagYield [] data endpoint params)) w0
      (Raise (KeyError "has_more")) w0) as Hend.
  { intros w0. exists 1%nat. intros [|fuel] Hle; [lia|].
    cbn [_pagination_next]. unfold bind, lift. by rewrite Hmore. }
  destruct elements as [|x rest].
  - exists (PagCall endpoint params), w. split; [apply yields_nil|].
    rewrite app_nil_r, with_heap_id.
    eapply converges_next_results; [exact Hcall|exact Hhas|exact Hresults|done|].
    apply Hend.
  - exists (PagYield [] data endpoint params), (with_heap (heap w1 ++ x :: rest) w1).
    split; [|apply Hend].
    assert (heap w1 = heap w) as Hheap by by eapply call_heap.
    eapply (yields_cons a _ w x (PagYield rest data endpoint params)
              (with_heap (heap w1 ++ [x]) w1)).
    + rewrite <- Hheap.
      eapply converges_next_results; [exact Hcall|exact Hhas|exact Hresults|done|].
      apply converges_next_yield.
    + simpl. by rewrite Hheap.
    + pose proof (yields_elements a rest data endpoint params
                    (with_heap (heap w1 ++ [x]) w1)) as Hrest.
      simpl in Hrest. rewrite with_heap_with_heap, <- app_assoc in Hrest. exact Hrest.
Qed.

(** *** All favourites *)

Lemma all_folders_next a user offset g w m id g1 w1 gs w' :
  converges (fun fuel => _pagination_next fuel a g) w
    (Ok (Some (length (heap w)), g1)) w1 ->
  heap w1 = heap w ++ [VDict m] ->
  m !! "folderid" = Some (VStr id) ->
  converges (fun fuel => all_folders fuel a user offset g1) w1 (Ok gs) w' ->
  converges (fun fuel => all_folders fuel a user offset g) w
    (Ok (PagCall ("collections/" +:+ id) (Some (listing_params a user offset)) :: gs)) w'.
Proof.
  intros [fuel0 Hnext] Hheap Hid [fuel1 Hrest].
  exists (S (fuel0 `max` fuel1)). intros [|fuel] Hle; [lia|].
  cbn [all_folders]. unfold bind at 1. rewrite Hnext by lia.
  unfold bind at 1, getitem at 1. rewrite (obj_new _ _ _ Hheap). simpl. rewrite Hid.
  unfold bind at 1. unfold collections, bind, lift. simpl.
  rewrite Hrest by lia. done.
Qed.

(** X18: the extractor of all favourites lists the folders to the end before
    it gives a record, and returns the chain of their collections in the
    order of the listing, each one from the offset of the extractor; a
    user without folders gives the empty chain, and no error. *)
Theorem deviations_all_folders (self : extractor) (user favname : string)
    (collection : loc) (w : world) (folders : list value) (ids : list string)
    (g1 : pagination) (w1 w2 : world) :
  kind self = FavoriteExtractor user favname true collection ->
  yields (api self) (collections_folders (api self) user) w folders g1 w1 ->
  Forall2 folder_with_id folders ids ->
  converges (fun fuel => _pagination_next fuel (api self) g1) w1 (Ok (None, PagDone)) w2 ->
  converges (fun fuel => deviations fuel self) w
    (Ok (SrcChain
           ((fun id => PagCall ("collections/" +:+ id)
                         (Some (listing_params (api self) user (offset self)))) <$> ids)))
    w2.
Proof.
  intros Hkind Hyields Hids Hend.
  assert (converges
            (fun fuel => all_folders fuel (api self) user (offset self)
                           (collections_folders (api self) user)) w
            (Ok ((fun id => PagCall ("collections/" +:+ id)
                              (Some (listing_params (api self) user (offset self))))
                 <$> ids)) w2) as [fuel0 Hall].
  { revert ids Hids.
    induction Hyields as [g w|g w v g2 w3 vs g3 w4 Hnext Hheap _ IH]; intros ids Hids.
    - apply Forall2_nil_inv_l in Hids as ->. destruct Hend as [fuel0 Hend].
      exists (S fuel0). intros [|fuel] Hle; [lia|].
      cbn [all_folders]. unfold bind at 1. by rewrite Hend by lia.
    - apply Forall2_cons_inv_l in Hids as (id & ids' & (m & -> & Hid) & Hids & ->).
      simpl. eapply all_folders_next; [exact Hnext|exact Hheap|exact Hid|].
      by apply IH. }
  exists fuel0. intros fuel Hle. unfold deviations. rewrite Hkind.
  unfold bind. by rewrite Hall.
Qed.

(** *** The offset *)

(** X19: what was skipped is not requested: after two calls of [skip], the
    gallery is listed from the sum of what they were given (and the
    offset before), ten records a page; each call returns its
    argument. *)
Theorem skip_gallery (self : extractor) (user : string) (n k : Z) (fuel : nat)
    (w : world) :
  kind self = GalleryExtractor user ->
  (skip self n).1 = n /\
  exists p : gmap string value,
    deviations fuel (skip (skip self n).2 k).2 w
    = (Ok (SrcPagination (PagCall "gallery/all" (Some p))), w) /\
    p !! "offset" = Some (VInt (offset self + n + k)) /\
    p !! "limit" = Some (VInt 10) /\
    p !! "username" = Some (VStr user).
Proof.
  intros Hkind. split; [done|].
  eexists. unfold deviations. simpl. rewrite Hkind. split; [reflexivity|].
  unfold listing_params. by repeat split.
Qed.

(** *** The favourites extractor *)

(** X20: whatever the URL gave, the name the favourites extractor looks for
    is not empty, and its collection descriptor, a new object, has that
    name as its title and an index that is not the empty text; all
    folders are asked for only when the URL had no name and had the
    path of the catalogue. *)
Theorem favorite_init_descriptor (a : api_config) (user : string)
    (path favid favname : option string) (w : world) :
  exists (name : string) (all : bool) (index : value),
    favorite_init a user path favid favname w
    = (Ok {| api := a; offset := 0;
             kind := FavoriteExtractor user name all (length (heap w)) |},
       with_heap (heap w ++ [VDict (<["owner" := VStr user]>
                                      (<["title" := VStr name]>
                                         (<["index" := index]> ∅)))]) w) /\
    name <> "" /\ index <> VStr "" /\
    (all = true -> name = "All" /\ path = Some "?catpath=/" /\
                   (favname = None \/ favname = Some "")).
Proof.
  unfold favorite_init, bind, alloc, ret. do 3 eexists. split; [reflexivity|].
  split; [|split].
  - destruct favname as [n|]; simpl.
    + case_bool_decide; simpl; [by destruct (bool_decide _)|done].
    + by destruct (bool_decide _).
  - destruct favid as [i|]; [|done]. by case_bool_decide; [|congruence].
  - intros Hall. apply andb_prop in Hall as [Hnamed Hpath].
    apply bool_decide_eq_true in Hpath. split; [|split; [done|]].
    + apply negb_true_iff in Hnamed. by rewrite Hnamed, Hpath, bool_decide_true.
    + destruct favname as [n|]; [|by left]. right. simpl in Hnamed.
      apply negb_true_iff, negb_false_iff, bool_decide_eq_true in Hnamed. by subst.
Qed.

(** X21: a record the favourites extractor has prepared refers to the
    collection descriptor of the extractor: to the object itself, which
    is left as it is, and not to a copy. *)
Theorem favorite_record_collection (self : extractor) (user favname : string)
    (all : bool) (collection r : loc) (w w' : world) :
  kind self = FavoriteExtractor user favname all collection ->
  collection <> r ->
  prepare_of self r w = (Ok tt, w') ->
  field r "collection" w' = Ok (VRef collection) /\
  obj w' collection = obj w collection.
Proof.
  intros Hkind Hne H. unfold prepare_of in H. rewrite Hkind in H.
  apply bind_ok_inv in H as ([] & w1 & Hprepare & Hset).
  destruct (prepare_ok_inv r w w1 Hprepare) as (m & index & Hobj & -> & _).
  set (m1 := <["index" := index]> (strip m)) in *.
  assert (obj (update r (VDict m1) w) r = VDict m1) as H1 by by eapply obj_update_eq.
  rewrite (setitem_dict _ _ _ _ _ H1) in Hset. injection Hset as <-.
  split.
  - unfold field. rewrite (obj_update_eq _ _ _ _ H1). simpl. by rewrite lookup_insert_eq.
  - by rewrite !obj_update_ne by done.
Qed.

(** *** On the sample data *)

Lemma pagination_without_has_more_witness :
  exists (g : pagination) (w2 : world),
    yields Sample.config
      (PagCall "gallery/all" (Some (listing_params Sample.config "shimoda7" 0)))
      Sample.truncated [VDict (Sample.with_url "https://x/art/a-1")] g w2 /\
    converges (fun fuel => _pagination_next fuel Sample.config g) w2
      (Raise (KeyError "has_more"))
      (with_heap
         (heap (_call Sample.config "gallery/all"
                  (Some (listing_params Sample.config "shimoda7" 0)) Sample.truncated).2
          ++ [VDict (Sample.with_url "https://x/art/a-1")])
         (_call Sample.config "gallery/all"
            (Some (listing_params Sample.config "shimoda7" 0)) Sample.truncated).2).
Proof.
  apply (pagination_without_has_more Sample.config "gallery/all"
           (Some (listing_params Sample.config "shimoda7" 0)) Sample.truncated
           (_call Sample.config "gallery/all"
              (Some (listing_params Sample.config "shimoda7" 0)) Sample.truncated).2
           Sample.truncated_page).
  - by vm_compute.
  - reflexivity.
  - reflexivity.
Defined.

Lemma deviations_all_folders_witness :
  converges (fun fuel => deviations fuel Sample.everything)
    (Sample.favorites "All" Sample.one_folder)
    (Ok (SrcChain
           ((fun id => PagCall ("collections/" +:+ id)
                         (Some (listing_params (api Sample.everything) "rosuuri"
                                  (offset Sample.everything)))) <$> ["F0"])))
    (with_heap (heap Sample.one_listed ++ Sample.one_folder) Sample.one_listed).
Proof.
  apply (deviations_all_folders Sample.everything "rosuuri" "All" 0%nat
           (Sample.favorites "All" Sample.one_folder) Sample.one_folder ["F0"]
           (PagYield [] Sample.one_listing "collections/folders"
              (Some (listing_params Sample.config "rosuuri" 0)))
           (with_heap (heap Sample.one_listed ++ Sample.one_folder) Sample.one_listed)).
  - reflexivity.
  - apply (yields_cons _ _ _ (Sample.folder "F0" "Featured")
             (PagYield [] Sample.one_listing "collections/folders"
                (Some (listing_params Sample.config "rosuuri" 0)))
             (with_heap (heap Sample.one_listed ++ Sample.one_folder) Sample.one_listed));
      [|by vm_compute|apply yields_nil].
    eapply (converges_next_results _ _ _ _ Sample.one_listing Sample.one_listed);
      [by vm_compute|by vm_compute|by vm_compute|by vm_compute|].
    exact (converges_next_yield Sample.config (Sample.folder "F0" "Featured")
             [] Sample.one_listing "collections/folders"
             (Some (listing_params Sample.config "rosuuri" 0)) Sample.one_listed).
  - constructor; [|done]. eexists. by vm_compute.
  - eapply converges_next_last; by vm_compute.
Defined.

Lemma skip_gallery_witness :
  (skip Sample.shimoda7 3).1 = 3 /\
  exists p : gmap string value,
    deviations 0 (skip (skip Sample.shimoda7 3).2 4).2 Sample.truncated
    = (Ok (SrcPagination (PagCall "gallery/all" (Some p))), Sample.truncated) /\
    p !! "offset" = Some (VInt (offset Sample.shimoda7 + 3 + 4)) /\
    p !! "limit" = Some (VInt 10) /\
    p !! "username" = Some (VStr "shimoda7").
Proof.
  apply (skip_gallery Sample.shimoda7 "shimoda7" 3 4 0 Sample.truncated).
  reflexivity.
Defined.

Lemma favorite_record_collection_witness :
  field 1%nat "collection" (prepare_of Sample.everything 1%nat Sample.favourite).2
  = Ok (VRef 0%nat) /\
  obj (prepare_of Sample.everything 1%nat Sample.favourite).2 0%nat
  = obj Sample.favourite 0%nat.
Proof.
  apply (favorite_record_collection Sample.everything "rosuuri" "All" true 0%nat 1%nat
           Sample.favourite (prepare_of Sample.everything 1%nat Sample.favourite).2).
  - reflexivity.
  - done.
  - by vm_compute.
Defined.
